(** * Paper-Renamer: the preview-and-apply renaming pipeline

    A shallow embedding of [rename_pdfs_title_year.py] and the properties
    of its name builder, heuristic parser, bibliographic resolver, preview
    planner, apply engine and command-line entry point.

    Python strings are sequences of Unicode code points: a character is a
    code point in [N], a string a [list N].  Sets of names are [gset],
    dictionaries are [gmap]. *)

From Stdlib Require Import ZArith NArith QArith Lia String Ascii.
From stdpp Require Import base option list gmap sets pretty.

Abbreviation char := N (only parsing).
Abbreviation str := (list N) (only parsing).

(** A string literal of the source, as code points. *)
Definition lit (s : string) : str :=
  N_of_ascii <$> list_ascii_of_string s.

Global Arguments lit : simpl never.

(** ** Python string primitives *)

(** [str.isspace] on one character, which is also what [\s] matches in a
    [str] pattern and what [str.strip()] removes. *)
Definition is_space (c : char) : bool :=
  ((9 <=? c) && (c <=? 13) || (28 <=? c) && (c <=? 32)
   || (c =? 133) || (c =? 160) || (c =? 5760)
   || (8192 <=? c) && (c <=? 8202)
   || (c =? 8232) || (c =? 8233) || (c =? 8239) || (c =? 8287)
   || (c =? 12288))%N.

Fixpoint lstrip_by (p : char → bool) (s : str) : str :=
  match s with
  | [] => []
  | c :: s' => if p c then lstrip_by p s' else s
  end.

Definition rstrip_by (p : char → bool) (s : str) : str :=
  reverse (lstrip_by p (reverse s)).

(** [s.strip()] and [s.rstrip()] *)
Definition strip (s : str) : str := rstrip_by is_space (lstrip_by is_space s).
Definition rstrip (s : str) : str := rstrip_by is_space s.

(** [c in chars] for a literal set of characters *)
Definition char_in (chars : str) (c : char) : bool :=
  bool_decide (c ∈ chars).

(** [re.sub] of the pattern [\s+] by one space: every maximal run of
    whitespace becomes one space.  [in_run] tells that the previous
    character was whitespace. *)
Fixpoint sub_ws (in_run : bool) (s : str) : str :=
  match s with
  | [] => []
  | c :: s' =>
      if is_space c
      then (if in_run then sub_ws true s' else 32%N :: sub_ws true s')
      else c :: sub_ws false s'
  end.

(** ** Name Builder *)

(** [INVALID_CHARS]: the characters < > : double-quote / \ \ | ? * of the
    raw string literal, in its order (the backslash occurs twice). *)
Definition INVALID_CHARS : str :=
  [60; 62; 58; 34; 47; 92; 92; 124; 63; 42]%N.

(** [name.translate(...)]: each character of [INVALID_CHARS] becomes an
    underscore. *)
Definition translate_invalid (s : str) : str :=
  (λ c, if char_in INVALID_CHARS c then 95%N else c) <$> s.

(** [name.replace] of the NUL character by the empty string *)
Definition remove_nul (s : str) : str :=
  filter (λ c, c ≠ 0%N) s.

Definition sanitize_filename (name : str) : str :=
  let name := strip (sub_ws false name) in
  let name := translate_invalid name in
  let name := strip (rstrip_by (char_in (lit ". ")) name) in
  let name := strip (remove_nul name) in
  match name with
  | [] => lit "untitled"
  | _ => name
  end.

Definition clamp_filename (stem suffix : str) (max_len : Z) : str :=
  let max_stem_len := Z.max 1 (max_len - Z.of_nat (length suffix)) in
  let stem := strip stem in
  let stem :=
    if (max_stem_len <? Z.of_nat (length stem))%Z
    then rstrip (take (Z.to_nat max_stem_len) stem)
    else stem in
  stem ++ suffix.

(** ** Paths

    A [pathlib.Path] is its parent directory, a list of components, and
    its final component. *)

Abbreviation Dir := (list (list N)) (only parsing).

Record Path := mkPath { parent : Dir; name : str }.

Global Instance Path_eq_dec : EqDecision Path.
Proof. solve_decision. Defined.

Global Instance Path_countable : Countable Path.
Proof.
  apply (inj_countable' (λ p, (parent p, name p)) (λ q, mkPath q.1 q.2)).
  by intros [].
Defined.

(** [path.with_name(n)] *)
Definition with_name (p : Path) (n : str) : Path := mkPath (parent p) n.

(** [dir / n] for a single component [n] *)
Definition joinpath (d : Dir) (n : str) : Path := mkPath d n.

(** [s.rfind(c)]: the last index of [c], [None] for Python's -1 *)
Fixpoint rfind (c : char) (s : str) : option nat :=
  match s with
  | [] => None
  | x :: s' =>
      match rfind c s' with
      | Some i => Some (S i)
      | None => if (x =? c)%N then Some 0 else None
      end
  end.

(** The index at which [PurePath.suffix] and [PurePath.stem] split a name:
    the last dot, when it is neither the first nor the last character
    (pathlib up to Python 3.13). *)
Definition suffix_index (n : str) : option nat :=
  match rfind 46%N n with
  | Some i => if (0 <? i) && (i <? length n - 1) then Some i else None
  | None => None
  end.

Definition path_suffix (n : str) : str :=
  match suffix_index n with Some i => drop i n | None => [] end.

Definition path_stem (n : str) : str :=
  match suffix_index n with Some i => take i n | None => n end.

(** The name tried at round [i] of the disambiguation loops:
    [stem], a space, [i] in parentheses, [suffix]. *)
Definition numbered (stem suffix : str) (i : nat) : str :=
  stem ++ lit " (" ++ lit (pretty i) ++ lit ")" ++ suffix.

(** The [while True] loop of [unique_path_with_reserved], from round [i],
    for at most [fuel] rounds. *)
Fixpoint first_unreserved (reserved : gset (list N)) (stem suffix : str)
    (fuel i : nat) : option str :=
  match fuel with
  | 0 => None
  | S fuel' =>
      let name := numbered stem suffix i in
      if decide (name ∈ reserved)
      then first_unreserved reserved stem suffix fuel' (S i)
      else Some name
  end.

(** [unique_path_with_reserved]: the path returned and the set [reserved]
    after the call (the source adds the name to the caller's set).  The
    loop is run for one round more than [reserved] has names. *)
Definition unique_path_with_reserved (path : Path) (reserved : gset (list N))
    : option (Path * gset (list N)) :=
  if decide (name path ∈ reserved)
  then
    n ← first_unreserved reserved (path_stem (name path))
           (path_suffix (name path)) (S (size reserved)) 2;
    Some (with_name path n, {[n]} ∪ reserved)
  else Some (path, {[name path]} ∪ reserved).

(** ** Years

    A year is a Python [int]; [bool] is a subclass of [int], and a JSON
    [true] passes the [isinstance(y, int)] test of [crossref_lookup]. *)
Inductive pyint := PyInt (z : Z) | PyBool (b : bool).

Global Instance pyint_eq_dec : EqDecision pyint.
Proof. solve_decision. Defined.

(** truth value of an [int] *)
Definition int_truthy (y : pyint) : bool :=
  match y with
  | PyInt z => negb (z =? 0)%Z
  | PyBool b => b
  end.

(** [str(y)], as an f-string formats it *)
Definition int_format (y : pyint) : str :=
  match y with
  | PyInt z => lit (pretty z)
  | PyBool true => lit "True"
  | PyBool false => lit "False"
  end.

(** truth value of an [Optional[str]] and of an [Optional[int]] *)
Definition str_truthy (o : option (list N)) : bool :=
  match o with
  | Some (_ :: _) => true
  | _ => false
  end.

Definition year_truthy (o : option pyint) : bool :=
  match o with
  | Some y => int_truthy y
  | None => false
  end.

Definition build_new_stem (title : str) (year : option pyint) (style : str) : str :=
  let title := sanitize_filename title in
  match year with
  | Some y =>
      if int_truthy y
      then
        if decide (style = lit "prefix")
        then int_format y ++ lit " - " ++ title
        else title ++ lit " (" ++ int_format y ++ lit ")"
      else title
  | None => title
  end.

(** ** Heuristic Parser *)

(** The part of the Unicode character database that the patterns [\d] and
    [\w] and the conversion [int] consult.  The table itself belongs to
    the Python runtime; the development is stated over any table that
    extends the ASCII digits. *)
Class UnicodeDB := {
  (** the decimal value of a character of category Nd: [\d] matches the
      character when there is one, and [int] reads it *)
  uni_decimal : char → option N;
  (** [\w]: alphanumeric or underscore *)
  uni_word : char → bool;
  uni_decimal_ascii c :
    (48 ≤ c ≤ 57)%N → uni_decimal c = Some (c - 48)%N;
  uni_decimal_lt c d : uni_decimal c = Some d → (d < 10)%N;
  uni_decimal_word c d : uni_decimal c = Some d → uni_word c = true
}.

(** The table restricted to ASCII, as under [re.ASCII]. *)
Definition ascii_decimal (c : char) : option N :=
  if ((48 <=? c) && (c <=? 57))%N then Some (c - 48)%N else None.

Definition ascii_word (c : char) : bool :=
  ((48 <=? c) && (c <=? 57) || (65 <=? c) && (c <=? 90)
   || (97 <=? c) && (c <=? 122) || (c =? 95))%N.

Definition ascii_db : UnicodeDB.
Proof.
  refine (Build_UnicodeDB ascii_decimal ascii_word _ _ _);
    unfold ascii_decimal, ascii_word; intros c.
  - intros [Hlo Hhi]. apply N.leb_le in Hlo, Hhi. by rewrite Hlo, Hhi.
  - intros d. destruct (N.leb_spec 48 c), (N.leb_spec c 57); simpl;
      intros [= <-]; lia.
  - intros d. destruct (N.leb_spec 48 c), (N.leb_spec c 57); simpl;
      by intros [= <-].
Defined.

Section Parser.
Context `{UnicodeDB}.

Definition is_digit (c : char) : bool :=
  match uni_decimal c with Some _ => true | None => false end.

(** [int(s)] on a string of decimal digits *)
Definition py_int (s : str) : N :=
  foldl (λ acc c, 10 * acc + default 0 (uni_decimal c))%N 0%N s.

(** *** [YEAR_RE]: a word boundary, 19 or 20 and two digits, a word
    boundary *)

Definition word_at (o : option N) : bool :=
  match o with Some c => uni_word c | None => false end.

(** [\b] between the characters [before] and [after], [None] standing
    for the start or the end of the text *)
Definition boundary (before after : option N) : bool :=
  xorb (word_at before) (word_at after).

Definition year_body (s : str) : bool :=
  match s with
  | a :: b :: c :: d :: _ =>
      ((a =? 49) && (b =? 57) || (a =? 50) && (b =? 48))%N
      && is_digit c && is_digit d
  | _ => false
  end.

(** The pattern matches at the start of [s], which [prev] precedes. *)
Definition year_match_at (prev : option N) (s : str) : bool :=
  boundary prev (head s) && year_body s && boundary (s !! 3) (s !! 4).

(** [YEAR_RE.findall(text)]: the scan tries every position from left to
    right and resumes behind a match; [skip] counts the characters of
    the last match still to pass. *)
Fixpoint year_findall (prev : option N) (skip : nat) (s : str) : list (list N) :=
  match s with
  | [] => []
  | c :: s' =>
      match skip with
      | S k => year_findall (Some c) k s'
      | 0 =>
          if year_match_at prev s
          then take 4 s :: year_findall (Some c) 3 s'
          else year_findall (Some c) 0 s'
      end
  end.

(** [max] of a non-empty list *)
Definition max_of (y : Z) (ys : list Z) : Z := foldl Z.max y ys.

Definition extract_year_from_text (current_year : Z) (text : str) : option Z :=
  match text with
  | [] => None
  | _ =>
      let years := (λ y, Z.of_N (py_int y)) <$> year_findall None 0 text in
      match years with
      | [] => None
      | _ =>
          let years :=
            filter (λ y, (1800 < y ∧ y ≤ current_year + 1)%Z) years in
          match years with
          | [] => None
          | y :: ys => Some (max_of y ys)
          end
      end
  end.

(** *** [DOI_RE] *)

(** The class [[-._;()/:A-Z0-9]] under [re.IGNORECASE]: the characters
    listed, the ASCII letters of both cases, the ASCII digits, and the
    four letters outside ASCII whose case mapping falls on an ASCII
    letter (U+0130, U+0131, U+017F, U+212A). *)
Definition doi_class (c : char) : bool :=
  (char_in (lit "-._;()/:") c
   || (65 <=? c) && (c <=? 90) || (97 <=? c) && (c <=? 122)
   || (48 <=? c) && (c <=? 57)
   || (c =? 304) || (c =? 305) || (c =? 383) || (c =? 8490))%N.

(** the number of leading characters of [s] that satisfy [p], up to
    [limit] *)
Fixpoint leading (p : char → bool) (limit : nat) (s : str) : nat :=
  match limit, s with
  | S l, c :: s' => if p c then S (leading p l s') else 0
  | _, _ => 0
  end.

Fixpoint take_while (p : char → bool) (s : str) : str :=
  match s with
  | c :: s' => if p c then c :: take_while p s' else []
  | [] => []
  end.

(** After the prefix [10.]: the greedy [\d{4,9}] takes [j] digits, a
    slash and a non-empty run of the class have to follow, and the
    matcher backtracks to fewer digits otherwise.  The result is the
    length of what is matched behind the prefix. *)
Fixpoint doi_tail (rest : str) (j : nat) : option nat :=
  let attempt :=
    if 4 <=? j
    then
      match drop j rest with
      | 47%N :: tl =>
          match length (take_while doi_class tl) with
          | 0 => None
          | S r => Some (j + 1 + S r)
          end
      | _ => None
      end
    else None in
  match attempt, j with
  | Some n, _ => Some n
  | None, S j' => doi_tail rest j'
  | None, 0 => None
  end.

(** The pattern matches at the start of [s]: the matched text. *)
Definition doi_match_at (s : str) : option (list N) :=
  match s with
  | 49%N :: 48%N :: 46%N :: rest =>
      n ← doi_tail rest (leading is_digit 9 rest);
      Some (take (3 + n) s)
  | _ => None
  end.

(** [DOI_RE.search(text)]: the leftmost match *)
Fixpoint doi_search (s : str) : option (list N) :=
  match s with
  | [] => None
  | _ :: s' =>
      match doi_match_at s with
      | Some m => Some m
      | None => doi_search s'
      end
  end.

Definition extract_doi_from_text (text : str) : option (list N) :=
  match text with
  | [] => None
  | _ =>
      m ← doi_search text;
      Some (rstrip_by (char_in (lit ".),;")) m)
  end.

End Parser.

(** ** Bibliographic Resolver *)

(** A decoded JSON document.  Of a float only its truth value is ever
    observed. *)
#[local] Unset Elimination Schemes.
Inductive json :=
| JNull
| JBool (b : bool)
| JInt (z : Z)
| JFloat (nonzero : bool)
| JStr (s : list N)
| JArr (l : list json)
| JObj (kv : list (list N * json)).
#[local] Set Elimination Schemes.

(** What [requests.get] gives for a DOI: an exception, or a response with
    its status code and its body ([None] when [r.json()] raises on it). *)
Inductive http_result :=
| NetworkError
| Response (status_code : Z) (body : option json).

(** [d[k]] on a decoded object: the last binding of a repeated key wins *)
Fixpoint assoc (k : str) (kv : list (list N * json)) : option json :=
  match kv with
  | [] => None
  | (k', v) :: kv' =>
      match assoc k kv' with
      | Some v' => Some v'
      | None => if decide (k = k') then Some v else None
      end
  end.

(** truth value of a Python object; [None] is Python's [None] *)
Definition json_truthy (o : option json) : bool :=
  match o with
  | None | Some JNull => false
  | Some (JBool b) => b
  | Some (JInt z) => negb (z =? 0)%Z
  | Some (JFloat nz) => nz
  | Some (JStr s) => match s with [] => false | _ => true end
  | Some (JArr l) => match l with [] => false | _ => true end
  | Some (JObj kv) => match kv with [] => false | _ => true end
  end.

(** [x.get(k)]: [None] when [x] has no method [get] (the call raises),
    [Some None] for Python's [None] *)
Definition py_get (x : json) (k : str) : option (option json) :=
  match x with
  | JObj kv => Some (assoc k kv)
  | _ => None
  end.

(** [x or d] *)
Definition py_or (x : option json) (d : json) : json :=
  match x with
  | Some v => if json_truthy x then v else d
  | None => d
  end.

(** [title_list[0].strip() if title_list else None]; the outer [None] is
    an exception. *)
Definition first_title (title_list : json) : option (option (list N)) :=
  if json_truthy (Some title_list)
  then
    match title_list with
    | JArr (JStr s :: _) => Some (Some (strip s))
    | JStr (c :: _) => Some (Some (strip [c]))
    | _ => None
    end
  else Some None.

(** The test on [date_parts] and on [y] in the loop over the date fields:
    the year found, if any. *)
Definition year_of_date_parts (date_parts : option json) : option pyint :=
  match date_parts with
  | Some (JArr (JArr (y :: _) :: _)) =>
      match y with
      | JInt z => Some (PyInt z)
      | JBool b => Some (PyBool b)
      | _ => None
      end
  | _ => None
  end.

(** The loop over the date fields, left to right, left at the first year;
    the outer [None] is an exception. *)
Fixpoint first_year (data : json) (keys : list (list N)) : option (option pyint) :=
  match keys with
  | [] => Some None
  | key :: keys' =>
      part ← py_get data key;
      date_parts ← py_get (py_or part (JObj [])) (lit "date-parts");
      match year_of_date_parts date_parts with
      | Some y => Some (Some y)
      | None => first_year data keys'
      end
  end.

Definition date_keys : list (list N) :=
  [lit "issued"; lit "published-print"; lit "published-online"; lit "created"].

(** [crossref_lookup]; [None] is an exception that leaves the function. *)
Definition crossref_lookup (get : http_result)
    : option (option (list N) * option pyint) :=
  match get with
  | NetworkError => None
  | Response status_code body =>
      if negb (status_code =? 200)%Z then Some (None, None)
      else
        doc ← body;
        message ← py_get doc (lit "message");
        let data := default (JObj []) message in
        title_value ← py_get data (lit "title");
        title ← first_title (py_or title_value (JArr []));
        year ← first_year data date_keys;
        Some (title, year)
  end.

(** ** Preview Planner

    The callbacks [progress_cb] and [item_cb] only observe the run and
    are left out. *)

(** The [status] strings. *)
Inductive Status := pending | rename | move | ok | skip.

Global Instance Status_eq_dec : EqDecision Status.
Proof. solve_decision. Defined.

Record PreviewItem := mkItem {
  pdf : Path;
  old_name : list N;
  new_path : option Path;
  doi : option (list N);
  title : option (list N);
  year : option pyint;
  status : Status;
  reason : list N;
  apply : bool
}.

(** The arguments of [compute_preview] that configure a run. *)
Record Config := mkConfig {
  folder : Dir;
  pages : Z;
  maxlen : Z;
  style : list N;
  no_crossref : bool;
  sleep : Q;
  timeout : Z;
  unmatched_dir : list N;
  user_agent : list N
}.

(** What a run reads from outside: the PDF reader behind the two
    extraction functions, the registry, the directory listings, the clock
    and the cancellation flag. *)
Record Env := mkEnv {
  (** the result of [extract_title_from_metadata(pdf)] *)
  extract_title_from_metadata : Path → option (list N);
  (** the result of [extract_text_first_pages(pdf, pages)] *)
  extract_text_first_pages : Path → Z → list N;
  (** [requests.get] on the works URL of a DOI, with timeout and user agent *)
  requests_get : list N → Z → list N → http_result;
  (** the names [p.name for p in dir.iterdir() if p.is_file()], [None]
      when the listing raises *)
  iterdir_files : Dir → option (list (list N));
  (** [datetime.now().year] *)
  now_year : Z;
  (** [cancel_event.is_set()] at the check before the file of index [idx];
      constantly [false] when no event is passed *)
  cancel_is_set : nat → bool
}.

(** The calls that leave the planner towards the registry and the clock. *)
Inductive Event :=
| EvLookup (doi : list N)
| EvSleep (seconds : Q).

(** The local state of [compute_preview]: its two dictionaries, the list
    of items, and the calls made so far in order. *)
Record PlanState := mkPlan {
  cache : gmap (list N) (option (list N) * option pyint);
  reserved_by_dir : gmap (list (list N)) (gset (list N));
  items : list PreviewItem;
  events : list Event
}.

Definition plan_init : PlanState := mkPlan ∅ ∅ [] [].

(** [get_reserved(dir_path)]: the set for the directory and the
    dictionary after the call. *)
Definition get_reserved (env : Env) (dir_path : Dir)
    (rbd : gmap (list (list N)) (gset (list N)))
    : gset (list N) * gmap (list (list N)) (gset (list N)) :=
  match rbd !! dir_path with
  | Some reserved => (reserved, rbd)
  | None =>
      let reserved : gset (list N) :=
        match iterdir_files env dir_path with
        | Some names => list_to_set names
        | None => ∅
        end in
      (reserved, <[dir_path := reserved]> rbd)
  end.

(** [max(0.0, sleep)] *)
Definition sleep_time (sleep : Q) : Q :=
  if Qle_bool 0 sleep then sleep else 0%Q.

(** Lines 215 to 218: the registry's answer for a DOI, an exception of the
    lookup being turned into a pair of [None]. *)
Definition answer (env : Env) (cfg : Config) (doi : str)
    : option (list N) * option pyint :=
  default (None, None)
    (crossref_lookup (requests_get env doi (timeout cfg) (user_agent cfg))).

(** Lines 212 to 220: the answer for [doi], from the cache or from the
    registry. *)
Definition cached_lookup (env : Env) (cfg : Config) (doi : str) (st : PlanState)
    : (option (list N) * option pyint) * PlanState :=
  match cache st !! doi with
  | Some found => (found, st)
  | None =>
      let found := answer env cfg doi in
      (found,
       mkPlan (<[doi := found]> (cache st)) (reserved_by_dir st) (items st)
         (events st ++ [EvLookup doi; EvSleep (sleep_time (sleep cfg))]))
  end.

(** [folder / unmatched_dir if unmatched_dir else None], for a directory
    name of one component *)
Definition unmatched_root (cfg : Config) : option (list (list N)) :=
  match unmatched_dir cfg with
  | [] => None
  | _ => Some (folder cfg ++ [unmatched_dir cfg])
  end.

Section Planner.
Context `{UnicodeDB}.

(** Lines 204 to 227: title, year and DOI of one file. *)
Definition resolve_file (env : Env) (cfg : Config) (st : PlanState) (pdf : Path)
    : (option (list N) * option pyint * option (list N)) * PlanState :=
  let title := extract_title_from_metadata env pdf in
  let text := extract_text_first_pages env pdf (pages cfg) in
  let doi := extract_doi_from_text text in
  let year_guess := PyInt <$> extract_year_from_text (now_year env) text in
  let '(title, year, st) :=
    match doi with
    | Some d =>
        if str_truthy doi && negb (no_crossref cfg)
        then
          let '((cf_title, cf_year), st') := cached_lookup env cfg d st in
          (if str_truthy cf_title then cf_title else title,
           if year_truthy cf_year then cf_year else None,
           st')
        else (title, None, st)
    | None => (title, None, st)
    end in
  let year :=
    if negb (year_truthy year) && year_truthy year_guess
    then year_guess else year in
  ((title, year, doi), st).

(** The body of the loop of [compute_preview] for one file; [None] when
    a disambiguation loop runs out of rounds. *)
Definition preview_file (env : Env) (cfg : Config) (st : PlanState) (pdf : Path)
    : option PlanState :=
  let old_name := name pdf in
  let '((title, year, doi), st) := resolve_file env cfg st pdf in
  let emit rbd item :=
    mkPlan (cache st) rbd (items st ++ [item]) (events st) in
  match title with
  | Some (c :: t) =>
      let title := c :: t in
      let new_stem := build_new_stem title year (style cfg) in
      let new_name := clamp_filename new_stem (lit ".pdf") (maxlen cfg) in
      let '(reserved, rbd) := get_reserved env (parent pdf) (reserved_by_dir st) in
      '(new_path, reserved) ←
        unique_path_with_reserved (with_name pdf new_name) reserved;
      let rbd := <[parent pdf := reserved]> rbd in
      if decide (name new_path = old_name)
      then
        Some (emit rbd
          (mkItem pdf old_name (Some new_path) doi (Some title) year
             ok (lit "already good name") false))
      else
        Some (emit rbd
          (mkItem pdf old_name (Some new_path) doi (Some title) year
             rename (lit "ready") true))
  | _ =>
      match unmatched_root cfg with
      | Some root =>
          let '(reserved, rbd) := get_reserved env root (reserved_by_dir st) in
          '(dest, reserved) ←
            unique_path_with_reserved (joinpath root (name pdf)) reserved;
          let rbd := <[root := reserved]> rbd in
          Some (emit rbd
            (mkItem pdf old_name (Some dest) doi None year
               move (lit "no title found") true))
      | None =>
          Some (emit (reserved_by_dir st)
            (mkItem pdf old_name None doi None year
               skip (lit "no title found") false))
      end
  end.

(** The loop over [enumerate(pdfs, 1)] from index [idx] on. *)
Fixpoint preview_loop (env : Env) (cfg : Config) (idx : nat)
    (pdfs : list Path) (st : PlanState) : option PlanState :=
  match pdfs with
  | [] => Some st
  | pdf :: rest =>
      if cancel_is_set env idx then Some st
      else
        st' ← preview_file env cfg st pdf;
        preview_loop env cfg (S idx) rest st'
  end.

(** A whole run, with its final state. *)
Definition plan_run (env : Env) (cfg : Config) (pdfs : list Path)
    : option PlanState :=
  preview_loop env cfg 1 pdfs plan_init.

Definition compute_preview (env : Env) (cfg : Config) (pdfs : list Path)
    : option (list PreviewItem) :=
  items <$> plan_run env cfg pdfs.

End Planner.

(** The four ways in which the body of the loop emits one item for the
  file [f], given the title, year and DOI resolved for it. *)
Inductive emitted (cfg : Config) (f : Path) (t : option (list N)) (y : option pyint)
    (d : option (list N)) : PreviewItem → Prop :=
| emitted_ok t' np :
    t = Some t' → t' ≠ [] → name np = name f →
    emitted cfg f t y d
      (mkItem f (name f) (Some np) d (Some t') y ok (lit "already good name") false)
| emitted_rename t' np :
    t = Some t' → t' ≠ [] → name np ≠ name f →
    emitted cfg f t y d
      (mkItem f (name f) (Some np) d (Some t') y rename (lit "ready") true)
| emitted_move root np :
    str_truthy t = false → unmatched_root cfg = Some root → parent np = root →
    emitted cfg f t y d
      (mkItem f (name f) (Some np) d None y move (lit "no title found") true)
| emitted_skip :
    str_truthy t = false → unmatched_root cfg = None →
    emitted cfg f t y d
      (mkItem f (name f) None d None y skip (lit "no title found") false).

(** ** Apply Engine *)

(** The calls the engine makes on the file system. *)
Inductive FsOp :=
| OpMkdir (d : list (list N))
| OpExists (p : Path)
| OpRename (src dst : Path).

(** The file system as the engine uses it.  A call that raises gives the
    text of its exception.  Finitely many paths exist. *)
Class FileSystem (FS : Type) := {
  (** [p.exists()]: [inl e] when the call raises [e] *)
  fs_exists : FS → Path → list N + bool;
  (** [d.mkdir(parents=True, exist_ok=True)]: the file system after the
      call, and the exception if one is raised *)
  fs_mkdir : FS → list (list N) → FS * option (list N);
  (** [src.rename(dst)], likewise *)
  fs_rename : FS → Path → Path → FS * option (list N);
  fs_entries : FS → gset Path;
  fs_exists_entries fs p : fs_exists fs p = inr true → p ∈ fs_entries fs
}.

Section Apply.
Context {FS : Type} `{FileSystem FS}.

(** The [while True] loop of [unique_path] from round [i], for at most
    [fuel] rounds: the calls made, and the free path or the exception. *)
Fixpoint first_absent (fs : FS) (path : Path) (stem suffix : str)
    (fuel i : nat) : option (list FsOp * (list N + Path)) :=
  match fuel with
  | 0 => None
  | S fuel' =>
      let p := with_name path (numbered stem suffix i) in
      match fs_exists fs p with
      | inl e => Some ([OpExists p], inl e)
      | inr false => Some ([OpExists p], inr p)
      | inr true =>
          '(ops, r) ← first_absent fs path stem suffix fuel' (S i);
          Some (OpExists p :: ops, r)
      end
  end.

(** [unique_path(path)]; the loop is run for one round more than the
    file system has entries. *)
Definition unique_path (fs : FS) (path : Path)
    : option (list FsOp * (list N + Path)) :=
  match fs_exists fs path with
  | inl e => Some ([OpExists path], inl e)
  | inr false => Some ([OpExists path], inr path)
  | inr true =>
      '(ops, r) ←
        first_absent fs path (path_stem (name path)) (path_suffix (name path))
          (S (size (fs_entries fs))) 2;
      Some (OpExists path :: ops, r)
  end.

(** The state of [apply_changes]: the file system, the two counters, the
    calls made on the file system and the lines passed to [log]. *)
Record ApplyState := mkApply {
  fs_now : FS;
  renamed : nat;
  skipped : nat;
  fs_ops : list FsOp;
  logged : list (list N)
}.

(** [if log: log(line)]; [log] tells whether a callable was passed *)
Definition log_line (log : bool) (line : str) (lines : list (list N))
    : list (list N) :=
  if log then lines ++ [line] else lines.

Definition count_skipped (st : ApplyState) : ApplyState :=
  mkApply (fs_now st) (renamed st) (S (skipped st)) (fs_ops st) (logged st).

(** The [except] branch: the calls made in the [try] block before the
    exception [e] and the file system they leave. *)
Definition count_failed (log : bool) (item : PreviewItem) (fs : FS)
    (ops : list FsOp) (e : str) (st : ApplyState) : ApplyState :=
  mkApply fs (renamed st) (S (skipped st)) (fs_ops st ++ ops)
    (log_line log (lit "[FAIL] " ++ name (pdf item) ++ lit ": " ++ e) (logged st)).

(** The [try] block, lines 327 to 334, for the target [target0]. *)
Definition move_item (log : bool) (item : PreviewItem) (target0 : Path)
    (st : ApplyState) : option ApplyState :=
  let d := parent target0 in
  let '(fs1, r) := fs_mkdir (fs_now st) d in
  match r with
  | Some e => Some (count_failed log item fs1 [OpMkdir d] e st)
  | None =>
      found ←
        match fs_exists fs1 target0 with
        | inl e => Some ([OpExists target0], inl e)
        | inr false => Some ([OpExists target0], inr target0)
        | inr true =>
            '(ops, r) ← unique_path fs1 target0;
            Some (OpExists target0 :: ops, r)
        end;
      let '(ops, r) := found in
      match r with
      | inl e => Some (count_failed log item fs1 (OpMkdir d :: ops) e st)
      | inr target =>
          let '(fs2, r) := fs_rename fs1 (pdf item) target in
          let ops := OpMkdir d :: ops ++ [OpRename (pdf item) target] in
          match r with
          | Some e => Some (count_failed log item fs2 ops e st)
          | None =>
              Some (mkApply fs2 (S (renamed st)) (skipped st) (fs_ops st ++ ops)
                (log_line log
                   (lit "[OK] " ++ name (pdf item) ++ lit " -> " ++ name target)
                   (logged st)))
          end
      end
  end.

(** The body of the loop of [apply_changes] for one item. *)
Definition apply_item (dry_run log : bool) (item : PreviewItem)
    (st : ApplyState) : option ApplyState :=
  match new_path item with
  | Some target0 =>
      if negb (apply item) then Some (count_skipped st)
      else if dry_run
      then
        Some (mkApply (fs_now st) (S (renamed st)) (skipped st) (fs_ops st)
          (log_line log
             (lit "[DRY] " ++ name (pdf item) ++ lit " -> " ++ name target0)
             (logged st)))
      else move_item log item target0 st
  | None => Some (count_skipped st)
  end.

(** The loop over [enumerate(items, 1)] from index [idx] on;
    [cancelled idx] is [cancel_event.is_set()] at the check before the
    item of index [idx]. *)
Fixpoint apply_loop (dry_run log : bool) (cancelled : nat → bool) (idx : nat)
    (its : list PreviewItem) (st : ApplyState) : option ApplyState :=
  match its with
  | [] => Some st
  | item :: rest =>
      if cancelled idx then Some st
      else
        st' ← apply_item dry_run log item st;
        apply_loop dry_run log cancelled (S idx) rest st'
  end.

(** [apply_changes]: the final state; the function returns its
    [renamed] and [skipped]. *)
Definition apply_changes (fs : FS) (its : list PreviewItem)
    (dry_run log : bool) (cancelled : nat → bool) : option ApplyState :=
  apply_loop dry_run log cancelled 1 its (mkApply fs 0 0 [] []).

End Apply.

Arguments ApplyState FS : clear implicits.

(** ** Command line *)

(** The parsed arguments; [args_folder] is [None] when the positional
    argument is left out. *)
Record Args := mkArgs {
  args_folder : option (list N);
  args_gui : bool;
  args_recursive : bool;
  args_dry_run : bool;
  args_pages : Z;
  args_maxlen : Z;
  args_sleep : Q;
  args_timeout : Z;
  args_style : list N;
  args_no_crossref : bool;
  args_unmatched_dir : list N
}.

(** What the entry point reads from its surroundings. *)
Record Host := mkHost {
  (** whether the [try] block of lines 13 to 15 imported [tkinter] *)
  tk_available : bool;
  (** [tk.Tk()]: the exception it raises, for instance when there is no
      display; [None] when the window opens *)
  tk_root : option (list N);
  (** [Path(folder).expanduser().resolve()]; [inl e] when it raises [e],
      as [expanduser] does for the home of an unknown user *)
  resolve_folder : list N → list N + list (list N);
  (** [folder.exists() and folder.is_dir()]; [inl e] when one of the two
      calls raises [e] *)
  is_directory : list (list N) → list N + bool;
  (** [str(folder)] *)
  folder_text : list (list N) → list N;
  (** [sorted(folder.glob(pattern))], recursive or not; [inl e] when it
      raises [e] *)
  glob_pdfs : list (list N) → bool → list N + list Path;
  host_env : Env
}.

(** How a run of the script ends: the window was closed, [SystemExit]
    was raised with a message, another exception left the program
    uncaught, or the command line run came to its end. *)
Inductive Outcome (FS : Type) :=
| GuiClosed
| SystemExit (message : list N)
| Uncaught (exception : list N)
| CliDone (final : ApplyState FS).

Arguments GuiClosed {FS}.
Arguments SystemExit {FS} message.
Arguments Uncaught {FS} exception.
Arguments CliDone {FS} final.

(** The exit status of the process: [SystemExit] with a message prints
    the message and exits with status 1, and so does an uncaught
    exception with its traceback. *)
Definition exit_status {FS} (o : Outcome FS) : Z :=
  match o with
  | SystemExit _ | Uncaught _ => 1
  | GuiClosed | CliDone _ => 0
  end.

(** The body of the module, which runs before line 853 calls [main]: the
    [def] of line 384 evaluates its annotation [tk.Tk] (annotations are
    evaluated at the definition up to Python 3.13), and this raises
    [AttributeError] when the import of [tkinter] failed and [tk] is
    [None].  [None]: the module loads. *)
Definition load_module (host : Host) : option (list N) :=
  if tk_available host then None
  else Some (lit "AttributeError: 'NoneType' object has no attribute 'Tk'").

Section CommandLine.
Context `{UnicodeDB} {FS : Type} `{FileSystem FS}.

Definition run_gui (host : Host) : Outcome FS :=
  if tk_available host
  then
    match tk_root host with
    | Some e => Uncaught e
    | None => GuiClosed
    end
  else SystemExit (lit "tkinter not available.").

(** [run_cli], given the text of the folder argument; what it prints is
    left out.  An exception of line 343, of the test of line 344 or of
    [collect_pdfs] leaves the function.  [None] when a disambiguation
    loop runs out of rounds. *)
Definition run_cli (host : Host) (fs : FS) (args : Args) (folder_arg : str)
    : option (Outcome FS) :=
  match resolve_folder host folder_arg with
  | inl e => Some (Uncaught e)
  | inr folder =>
      match is_directory host folder with
      | inl e => Some (Uncaught e)
      | inr false =>
          Some (SystemExit (lit "Folder not found: " ++ folder_text host folder))
      | inr true =>
          match glob_pdfs host folder (args_recursive args) with
          | inl e => Some (Uncaught e)
          | inr pdfs =>
              let env :=
                mkEnv (extract_title_from_metadata (host_env host))
                  (extract_text_first_pages (host_env host))
                  (requests_get (host_env host)) (iterdir_files (host_env host))
                  (now_year (host_env host)) (λ _, false) in
              let cfg :=
                mkConfig folder (args_pages args) (args_maxlen args)
                  (args_style args) (args_no_crossref args) (args_sleep args)
                  (args_timeout args) (args_unmatched_dir args)
                  (lit "PDF-Renamer/1.0 (mailto:unknown@example.com)") in
              its ← compute_preview env cfg pdfs;
              final ← apply_changes fs its (args_dry_run args) false (λ _, false);
              Some (CliDone final)
          end
      end
  end.

(** The script with its arguments parsed: the body of the module, then
    [main] (lines 847 to 850).  When the module does not load, [main] is
    never called and the exception of the module body ends the process. *)
Definition main (host : Host) (fs : FS) (args : Args) : option (Outcome FS) :=
  match load_module host with
  | Some e => Some (Uncaught e)
  | None =>
      if args_gui args || negb (str_truthy (args_folder args))
      then Some (run_gui host)
      else
        match args_folder args with
        | Some folder_arg => run_cli host fs args folder_arg
        | None => Some (run_gui host)
        end
  end.

End CommandLine.

(** ** Notions for sanitization *)

(** Whitespace occurs only as single spaces; [in_run] tells that a
    whitespace character precedes the string. *)
Fixpoint collapsed (in_run : bool) (s : str) : Prop :=
  match s with
  | [] => True
  | c :: s' =>
      if is_space c then c = 32%N ∧ in_run = false ∧ collapsed true s'
      else collapsed false s'
  end.

(** The first character, if any, does not satisfy [p]. *)
Definition head_not (p : char → bool) (s : str) : Prop :=
  match s with
  | c :: _ => p c = false
  | [] => True
  end.

(** The form of the names that [sanitize_filename] aims at. *)
Definition clean (s : str) : Prop :=
  collapsed false s
  ∧ head_not is_space s
  ∧ head_not (char_in (lit ". ")) (reverse s)
  ∧ Forall (λ c, char_in INVALID_CHARS c = false) s
  ∧ Forall (λ c, c ≠ 0%N) s.

(** ** Notions used to state the properties *)

(** The DOIs looked up in a sequence of calls, in order. *)
Definition lookups (evs : list Event) : list (list N) :=
  evs ≫= (λ e, match e with EvLookup d => [d] | EvSleep _ => [] end).

(** The calls of one new lookup: the request and the sleep behind it. *)
Definition lookup_calls (cfg : Config) (d : str) : list Event :=
  [EvLookup d; EvSleep (sleep_time (sleep cfg))].

(** A lookup that fails: the request raises, the status is not 200, or
    the body cannot be decoded or read (any exception inside
    [crossref_lookup]). *)
Definition lookup_fails (r : http_result) : Prop :=
  crossref_lookup r = None
  ∨ ∃ status_code body, r = Response status_code body ∧ status_code ≠ 200%Z.

Section Expected.
Context `{UnicodeDB}.

(** The year guessed from the text of a file, when it counts as true. *)
Definition year_guess_of (env : Env) (cfg : Config) (f : Path) : option pyint :=
  let guess :=
    PyInt <$> extract_year_from_text (now_year env)
                (extract_text_first_pages env f (pages cfg)) in
  if year_truthy guess then guess else None.

(** Title, year and DOI of a file computed without the cache, from the
    registry's answer itself. *)
Definition expected_fields (env : Env) (cfg : Config) (f : Path)
    : option (list N) * option pyint * option (list N) :=
  let title := extract_title_from_metadata env f in
  let d := extract_doi_from_text (extract_text_first_pages env f (pages cfg)) in
  let '(cf_title, cf_year) :=
    match d with
    | Some d' =>
        if str_truthy d && negb (no_crossref cfg)
        then answer env cfg d' else (None, None)
    | None => (None, None)
    end in
  (if str_truthy cf_title then cf_title else title,
   if year_truthy cf_year then cf_year else year_guess_of env cfg f,
   d).
End Expected.

(** What every emitted item satisfies. *)
Definition item_shape (it : PreviewItem) : Prop :=
  (is_Some (new_path it) ↔ status it = rename ∨ status it = move ∨ status it = ok)
  ∧ (new_path it = None ↔ status it = skip)
  ∧ (apply it = true ↔ status it = rename ∨ status it = move)
  ∧ (status it = ok →
     ∃ np, new_path it = Some np ∧ name np = old_name it)
  ∧ (status it = rename →
     ∃ np, new_path it = Some np ∧ name np ≠ old_name it)
  ∧ (is_Some (title it) ↔ status it = ok ∨ status it = rename)
  ∧ old_name it = name (pdf it).

Section YearSpec.
Context `{UnicodeDB}.

(** The character before position [i] of [text], [None] at the start. *)
Definition char_before (text : str) (i : nat) : option N :=
  match i with
  | 0 => None
  | S j => text !! j
  end.

(** Following the specification: the year [y] stands at position [i] of
    [text] when the four characters from [i] on are 19 or 20 and two
    digits, between two word boundaries, and [y] is their value. *)
Definition year_at (text : str) (i : nat) (y : Z) : Prop :=
  ∃ a b c d,
    text !! i = Some a ∧ text !! (i + 1) = Some b
    ∧ text !! (i + 2) = Some c ∧ text !! (i + 3) = Some d
    ∧ ((a = 49 ∧ b = 57) ∨ (a = 50 ∧ b = 48))%N
    ∧ is_digit c = true ∧ is_digit d = true
    ∧ boundary (char_before text i) (Some a) = true
    ∧ boundary (Some d) (text !! (i + 4)) = true
    ∧ y = Z.of_N (py_int [a; b; c; d]).

(** While [skip] characters of a match are still to pass, they and the
    character before them are word characters. *)
Definition inside_match (prev : option N) (skip : nat) (s : str) : Prop :=
  skip = 0
  ∨ (word_at prev = true ∧ ∀ j, j < skip → word_at (s !! j) = true).

Definition char_before_in (prev : option N) (s : str) (j : nat) : option N :=
  match j with
  | 0 => prev
  | S j' => s !! j'
  end.

(** The range of years kept. *)
Definition year_in_range (current_year y : Z) : Prop :=
  (1800 < y ∧ y ≤ current_year + 1)%Z.
End YearSpec.

(** ** Invariants of the planner's state *)

(** The calls made so far are one request and one sleep per DOI in the
    cache, each DOI once. *)
Definition trace_ok (cfg : Config) (st : PlanState) : Prop :=
  NoDup (lookups (events st))
  ∧ events st = lookups (events st) ≫= lookup_calls cfg
  ∧ ∀ d, d ∈ lookups (events st) ↔ is_Some (cache st !! d).

(** The cache holds the registry's answers. *)
Definition cache_sound (env : Env) (cfg : Config) (st : PlanState) : Prop :=
  ∀ d v, cache st !! d = Some v → v = answer env cfg d.

(** An item was emitted for its file from the fields expected for it. *)
Definition item_resolved `{UnicodeDB} (env : Env) (cfg : Config)
    (it : PreviewItem) : Prop :=
  ∃ t y d,
    expected_fields env cfg (pdf it) = (t, y, d)
    ∧ emitted cfg (pdf it) t y d it.

Definition plan_inv `{UnicodeDB} (env : Env) (cfg : Config) (st : PlanState)
    : Prop :=
  trace_ok cfg st ∧ cache_sound env cfg st
  ∧ Forall (item_resolved env cfg) (items st).


(** ** Notions for the Apply Engine *)

(** An item that the engine acts on: [apply] is set and there is a
    target. *)
Definition slated (it : PreviewItem) : bool :=
  apply it && bool_decide (is_Some (new_path it)).

(** The line logged for an item in a dry run. *)
Definition dry_line (it : PreviewItem) : list N :=
  lit "[DRY] " ++ name (pdf it) ++ lit " -> " ++ from_option name [] (new_path it).

(** The items the loop reaches before a cancellation is seen, the first
    item having index [idx]. *)
Fixpoint reached (cancelled : nat → bool) (idx : nat) (its : list PreviewItem)
    : list PreviewItem :=
  match its with
  | [] => []
  | it :: rest =>
      if cancelled idx then [] else it :: reached cancelled (S idx) rest
  end.

(** One item moves one counter by one. *)
Definition counted_once {FS} (st st' : ApplyState FS) : Prop :=
  (renamed st' = S (renamed st) ∧ skipped st' = skipped st)
  ∨ (renamed st' = renamed st ∧ skipped st' = S (skipped st)).

(** A file system that is the set of the paths that exist: a directory
    can always be made, and a file that exists can always be renamed. *)
Global Program Instance set_fs : FileSystem (gset Path) := {|
  fs_exists fs p := inr (bool_decide (p ∈ fs));
  fs_mkdir fs d := (fs, None);
  fs_rename fs src dst :=
    if decide (src ∈ fs) then ({[dst]} ∪ fs ∖ {[src]}, None)
    else (fs, Some (lit "No such file or directory"));
  fs_entries fs := fs
|}.
Next Obligation.
  intros fs p [= Hin]. by apply bool_decide_eq_true in Hin.
Qed.

(** ** Sample inputs *)

(** A file that already carries the name the planner computes for it, in
    a directory whose listing raises; the registry is unreachable. *)
Definition sample_pdf : Path :=
  mkPath [lit "papers"] (lit "2020 - A Study of Widgets.pdf").

Definition sample_env (listing : option (list (list N))) : Env :=
  mkEnv (λ _, Some (lit "A Study of Widgets"))
    (λ _ _, lit "Preprint, 10.1000/widgets. Published in 2020.")
    (λ _ _ _, NetworkError)
    (λ _, listing)
    2026
    (λ _, false).

Definition sample_cfg : Config :=
  mkConfig [lit "papers"] 2 140 (lit "prefix") false (1 # 5) 20 []
    (lit "PDF-Renamer/1.0 (mailto:unknown@example.com)").

Definition sample_item (target : Path) (st : Status) (why : str) (go : bool)
    : PreviewItem :=
  mkItem sample_pdf (lit "2020 - A Study of Widgets.pdf") (Some target)
    (Some (lit "10.1000/widgets")) (Some (lit "A Study of Widgets"))
    (Some (PyInt 2020)) st why go.

(** A host with [tkinter] and a display, in which no folder exists; the
    working directory is [/home/user]. *)
Definition sample_host : Host :=
  mkHost true None (λ folder, inr [lit "home"; lit "user"; folder])
    (λ _, inr false) (λ d, mjoin ((λ c, lit "/" ++ c) <$> d)) (λ _ _, inr [])
    (sample_env None).

(** The same host with a folder [/home/user/papers] that holds one PDF
    file, which its listing shows. *)
Definition sample_host_papers : Host :=
  mkHost true None (λ folder, inr [lit "home"; lit "user"; folder])
    (λ d, inr (bool_decide (d = [lit "home"; lit "user"; lit "papers"])))
    (λ d, mjoin ((λ c, lit "/" ++ c) <$> d))
    (λ d _, inr [mkPath d (lit "scan.pdf")])
    (sample_env (Some [lit "scan.pdf"])).

Definition sample_args (folder : option (list N)) : Args :=
  mkArgs folder false false true 2 140 (1 # 5) 20 (lit "prefix") false [].

(** ** Notions for a plan as a whole *)

(** The files the loop of the planner reaches before a cancellation is
    seen, the first file having index [idx]. *)
Fixpoint files_reached (cancelled : nat → bool) (idx : nat) (pdfs : list Path)
    : list Path :=
  match pdfs with
  | [] => []
  | f :: rest =>
      if cancelled idx then [] else f :: files_reached cancelled (S idx) rest
  end.

(** The targets of a list of items, in order. *)
Definition targets (its : list PreviewItem) : list Path := omap new_path its.

(** The DOI found in the text of the first pages of a file. *)
Definition doi_in_file `{UnicodeDB} (env : Env) (cfg : Config) (f : Path)
    : option (list N) :=
  extract_doi_from_text (extract_text_first_pages env f (pages cfg)).

(** The listing of the directory [d] succeeds and holds the name [n]. *)
Definition listed (env : Env) (d : Dir) (n : str) : Prop :=
  ∃ names, iterdir_files env d = Some names ∧ n ∈ names.

(** The sets of reserved names hold the names listed for their
    directory and the names of the targets given out so far, and no
    target was given out twice. *)
Definition reserved_inv (env : Env) (st : PlanState) : Prop :=
  (∀ d S n, reserved_by_dir st !! d = Some S → listed env d n → n ∈ S)
  ∧ (∀ np, np ∈ targets (items st) →
       (∃ S, reserved_by_dir st !! parent np = Some S ∧ name np ∈ S)
       ∧ ¬ listed env (parent np) (name np))
  ∧ NoDup (targets (items st)).

(** The name [n] is [n0] or [n0] with a number from 2 on before its
    suffix. *)
Definition variant_of (n0 n : str) : Prop :=
  n = n0 ∨ ∃ i, 2 ≤ i ∧ n = numbered (path_stem n0) (path_suffix n0) i.

(** The name built from the title and the year that an item shows. *)
Definition built_name (cfg : Config) (it : PreviewItem) : str :=
  clamp_filename (build_new_stem (default [] (title it)) (year it) (style cfg))
    (lit ".pdf") (maxlen cfg).

(** Where the target of an item lies and how it is named, by status. *)
Definition target_placed (cfg : Config) (it : PreviewItem) : Prop :=
  match status it with
  | ok =>
      new_path it = Some (pdf it) ∧ is_Some (title it)
      ∧ variant_of (built_name cfg it) (name (pdf it))
  | rename =>
      ∃ np,
        new_path it = Some np ∧ is_Some (title it)
        ∧ parent np = parent (pdf it) ∧ name np ≠ name (pdf it)
        ∧ variant_of (built_name cfg it) (name np)
        ∧ lit ".pdf" `suffix_of` name np
  | move =>
      ∃ np,
        new_path it = Some np ∧ unmatched_dir cfg ≠ []
        ∧ parent np = folder cfg ++ [unmatched_dir cfg]
        ∧ variant_of (name (pdf it)) (name np)
  | skip => new_path it = None ∧ unmatched_dir cfg = []
  | pending => False
  end.

(** The DOIs requested so far are DOIs of items, found in the text of
    their files; none is requested when the registry is switched off; and
    there are no more requests than items. *)
Definition lookups_inv `{UnicodeDB} (env : Env) (cfg : Config) (st : PlanState)
    : Prop :=
  (∀ d, d ∈ lookups (events st) →
     no_crossref cfg = false ∧ d ≠ []
     ∧ ∃ it, it ∈ items st ∧ doi it = Some d
             ∧ doi_in_file env cfg (pdf it) = Some d)
  ∧ (no_crossref cfg = true → events st = [] ∧ cache st = ∅)
  ∧ length (lookups (events st)) ≤ length (items st).

(** The calls of the engine for an item whose target is free, and the
    line it logs for it. *)
Definition planned_ops (it : PreviewItem) : list FsOp :=
  match new_path it with
  | Some np => [OpMkdir (parent np); OpExists np; OpRename (pdf it) np]
  | None => []
  end.

Definition ok_line (it : PreviewItem) : list N :=
  lit "[OK] " ++ name (pdf it) ++ lit " -> " ++ from_option name [] (new_path it).

(** ** Selection in the graphical front end

    The handlers act on the list [self.items]; what they show in the
    table is left out. *)

(** [item.status in ("skip", "ok", "pending")] *)
Definition locked (it : PreviewItem) : bool :=
  match status it with
  | skip | ok | pending => true
  | rename | move => false
  end.

(** [item.apply = b] *)
Definition set_apply (b : bool) (it : PreviewItem) : PreviewItem :=
  mkItem (pdf it) (old_name it) (new_path it) (doi it) (title it) (year it)
    (status it) (reason it) b.

Definition _pending_items (pdfs : list Path) : list PreviewItem :=
  (λ pdf, mkItem pdf (name pdf) None None None None pending (lit "pending") false)
  <$> pdfs.

Definition _select_all (its : list PreviewItem) : list PreviewItem :=
  (λ it, if locked it then it else set_apply true it) <$> its.

Definition _select_none (its : list PreviewItem) : list PreviewItem :=
  set_apply false <$> its.

Definition _invert (its : list PreviewItem) : list PreviewItem :=
  (λ it, if locked it then it else set_apply (negb (apply it)) it) <$> its.

(** [_toggle_apply] for the selected rows [sel]; [None] when a row is
    not an index of the list ([self.items[idx]] raises). *)
Fixpoint _toggle_apply (sel : list nat) (its : list PreviewItem)
    : option (list PreviewItem) :=
  match sel with
  | [] => Some its
  | idx :: sel' =>
      item ← its !! idx;
      _toggle_apply sel'
        (if locked item then its
         else <[idx := set_apply (negb (apply item)) item]> its)
  end.

(** [to_apply] of [_rename_selected]: the items handed to the engine *)
Definition to_apply (its : list PreviewItem) : list PreviewItem :=
  filter slated its.

(** A press of one of the selection buttons, or a toggle of rows. *)
Inductive Selection :=
| SelectAll
| SelectNone
| Invert
| Toggle (sel : list nat).

Definition select (its : list PreviewItem) (s : Selection)
    : option (list PreviewItem) :=
  match s with
  | SelectAll => Some (_select_all its)
  | SelectNone => Some (_select_none its)
  | Invert => Some (_invert its)
  | Toggle sel => _toggle_apply sel its
  end.

(** A sequence of selections, stopped by one that raises. *)
Fixpoint selections (its : list PreviewItem) (ss : list Selection)
    : option (list PreviewItem) :=
  match ss with
  | [] => Some its
  | s :: ss' => its' ← select its s; selections its' ss'
  end.

(** Two lists of items that differ in the [apply] flags only. *)
Definition same_but_apply (its1 its2 : list PreviewItem) : Prop :=
  set_apply false <$> its1 = set_apply false <$> its2.

(** Only items to rename or to move are selected. *)
Definition selection_ok (it : PreviewItem) : Prop :=
  apply it = true → status it = rename ∨ status it = move.

(** * Properties *)

(** ** Strings *)

Lemma lstrip_by_length p (s : str) : length (lstrip_by p s) ≤ length s.
Proof.
  induction s as [|c s IH]; simpl; [lia|].
  destruct (p c); simpl; lia.
Qed.

Lemma rstrip_by_length p (s : str) : length (rstrip_by p s) ≤ length s.
Proof.
  unfold rstrip_by. rewrite length_reverse.
  etrans; [apply lstrip_by_length|]. by rewrite length_reverse.
Qed.

Lemma strip_length (s : str) : length (strip s) ≤ length s.
Proof.
  unfold strip. etrans; [apply rstrip_by_length|]. apply lstrip_by_length.
Qed.

Lemma lstrip_by_suffix p (s : str) : lstrip_by p s `suffix_of` s.
Proof.
  induction s as [|c s IH]; simpl; [done|].
  destruct (p c); [by apply suffix_cons_r | done].
Qed.

Lemma rstrip_by_prefix p (s : str) : rstrip_by p s `prefix_of` s.
Proof.
  unfold rstrip_by. rewrite <- (reverse_involutive s) at 2.
  apply suffix_prefix_reverse, lstrip_by_suffix.
Qed.

Lemma rstrip_by_snoc p (s : str) c :
  rstrip_by p (s ++ [c]) = if p c then rstrip_by p s else s ++ [c].
Proof.
  unfold rstrip_by. rewrite reverse_snoc. simpl.
  destruct (p c); [done|]. by rewrite reverse_cons, reverse_involutive.
Qed.

(** ** Name Builder: sanitization *)

Example sanitize_ex1 :
  sanitize_filename (lit "  A  Study: of/Widgets. . ") = lit "A Study_ of_Widgets".
Proof. vm_compute. reflexivity. Qed.

Example sanitize_ex2 : sanitize_filename (lit " . ") = lit "untitled".
Proof. vm_compute. reflexivity. Qed.

(** C3. Sanitization is not idempotent: the NUL characters are removed
    after the trailing dots and spaces were stripped, so on a title that
    ends in a dot and a NUL character the first pass returns the title
    with its dot, and a second pass returns it without. *)
Theorem sanitize_filename_not_idempotent :
  sanitize_filename (lit "A Study of Widgets." ++ [0%N]) = lit "A Study of Widgets."
  ∧ sanitize_filename (sanitize_filename (lit "A Study of Widgets." ++ [0%N]))
    = lit "A Study of Widgets"
  ∧ sanitize_filename (sanitize_filename (lit "A Study of Widgets." ++ [0%N]))
    ≠ sanitize_filename (lit "A Study of Widgets." ++ [0%N]).
Proof. vm_compute. split_and!; [done | done | discriminate]. Qed.

Example sanitize_short_title_with_nul :
  sanitize_filename (lit "a." ++ [0%N]) = lit "a."
  ∧ sanitize_filename (lit "a.") = lit "a".
Proof. vm_compute. done. Qed.

(** The same slip lets two spaces meet around a NUL character. *)
Example sanitize_nul_between_spaces :
  sanitize_filename (lit "a " ++ [0%N] ++ lit " b") = lit "a  b"
  ∧ sanitize_filename (lit "a  b") = lit "a b".
Proof. vm_compute. done. Qed.

(** *** Sanitization of titles without NUL characters *)

Lemma lstrip_by_head_not p (s : str) : head_not p (lstrip_by p s).
Proof.
  induction s as [|c s IH]; simpl; [done|].
  destruct (p c) eqn:Hp; [done|]. by simpl.
Qed.

Lemma lstrip_by_id p (s : str) : head_not p s → lstrip_by p s = s.
Proof. destruct s as [|c s]; simpl; [done|]. by intros ->. Qed.

Lemma rstrip_by_id p (s : str) : head_not p (reverse s) → rstrip_by p s = s.
Proof.
  intros Hh. unfold rstrip_by. by rewrite lstrip_by_id, reverse_involutive.
Qed.

Lemma rstrip_by_last_not p (s : str) : head_not p (reverse (rstrip_by p s)).
Proof. unfold rstrip_by. rewrite reverse_involutive. apply lstrip_by_head_not. Qed.

Lemma head_not_prefix p (s1 s2 : str) :
  s1 `prefix_of` s2 → head_not p s2 → head_not p s1.
Proof. intros [k ->]. by destruct s1. Qed.

Lemma collapsed_weaken s : collapsed true s → collapsed false s.
Proof. destruct s as [|c s]; simpl; [done|]. destruct (is_space c); [|done]. by intros (_ & ? & _). Qed.

Lemma collapsed_prefix b (s1 s2 : str) : collapsed b (s1 ++ s2) → collapsed b s1.
Proof.
  revert b. induction s1 as [|c s1 IH]; intros b; simpl; [done|].
  destruct (is_space c); [|apply IH].
  intros (? & ? & ?). split_and!; [done..|]. by apply IH.
Qed.

Lemma collapsed_suffix b (s1 s2 : str) : collapsed b (s1 ++ s2) → collapsed false s2.
Proof.
  revert b. induction s1 as [|c s1 IH]; intros b; simpl.
  - destruct b; [apply collapsed_weaken | done].
  - destruct (is_space c); [|apply IH]. intros (_ & _ & ?). by eapply IH.
Qed.

Lemma collapsed_space b (s : str) c :
  collapsed b s → c ∈ s → is_space c = true → c = 32%N.
Proof.
  revert b. induction s as [|x s IH]; intros b Hc Hin Hsp;
    [by apply elem_of_nil in Hin|].
  simpl in Hc. apply elem_of_cons in Hin as [->|Hin].
  - rewrite Hsp in Hc. by destruct Hc.
  - destruct (is_space x); [destruct Hc as (_ & _ & Hc)|]; by eapply IH.
Qed.

Lemma sub_ws_collapsed b (s : str) : collapsed b (sub_ws b s).
Proof.
  revert b. induction s as [|c s IH]; intros b; simpl; [done|].
  destruct (is_space c) eqn:Hsp.
  - destruct b; [apply IH|]. simpl. split_and!; [done..|apply IH].
  - simpl. rewrite Hsp. apply IH.
Qed.

Lemma collapsed_fixed b (s : str) : collapsed b s → sub_ws b s = s.
Proof.
  revert b. induction s as [|c s IH]; intros b; simpl; [done|].
  destruct (is_space c).
  - intros (-> & -> & Hc). by rewrite IH.
  - intros Hc. by rewrite IH.
Qed.

Lemma invalid_not_space c : char_in INVALID_CHARS c = true → is_space c = false.
Proof.
  intros Hin%bool_decide_eq_true. unfold INVALID_CHARS in Hin.
  repeat (apply elem_of_cons in Hin as [->|Hin]; [done|]).
  by apply elem_of_nil in Hin.
Qed.

Lemma translate_invalid_collapsed b (s : str) :
  collapsed b s → collapsed b (translate_invalid s).
Proof.
  unfold translate_invalid.
  revert b. induction s as [|c s IH]; intros b; simpl; [done|].
  destruct (char_in INVALID_CHARS c) eqn:Hinv.
  - rewrite (invalid_not_space c Hinv). simpl. apply IH.
  - destruct (is_space c); [|apply IH].
    intros (? & ? & ?). split_and!; [done..|]. by apply IH.
Qed.

Lemma translate_invalid_head_not (s : str) :
  head_not is_space s → head_not is_space (translate_invalid s).
Proof.
  destruct s as [|c s]; simpl; [done|].
  by destruct (char_in INVALID_CHARS c).
Qed.

Lemma translate_invalid_valid (s : str) :
  Forall (λ c, char_in INVALID_CHARS c = false) (translate_invalid s).
Proof.
  unfold translate_invalid. apply Forall_fmap, Forall_forall. intros c _. simpl.
  by destruct (char_in INVALID_CHARS c) eqn:Hinv.
Qed.

Lemma translate_invalid_id (s : str) :
  Forall (λ c, char_in INVALID_CHARS c = false) s → translate_invalid s = s.
Proof.
  unfold translate_invalid. induction 1 as [|c s Hc _ IH]; [done|].
  rewrite fmap_cons, Hc. by f_equal.
Qed.

Lemma remove_nul_id (s : str) : Forall (λ c, c ≠ 0%N) s → remove_nul s = s.
Proof.
  unfold remove_nul. induction 1 as [|c s Hc _ IH]; [done|].
  rewrite filter_cons, decide_True by done. by rewrite IH.
Qed.

Lemma sub_ws_Forall (P : N → Prop) b (s : str) :
  P 32%N → Forall P s → Forall P (sub_ws b s).
Proof.
  intros H32 Hall. revert b. induction Hall as [|c s Hc _ IH]; intros b; simpl;
    [done|].
  destruct (is_space c); [destruct b|]; auto.
Qed.

Lemma Forall_prefix (P : N → Prop) (s1 s2 : str) :
  s1 `prefix_of` s2 → Forall P s2 → Forall P s1.
Proof. intros [k ->] Hall. by apply Forall_app in Hall as [? _]. Qed.

Lemma Forall_suffix (P : N → Prop) (s1 s2 : str) :
  s1 `suffix_of` s2 → Forall P s2 → Forall P s1.
Proof. intros [k ->] Hall. by apply Forall_app in Hall as [_ ?]. Qed.

(** A clean name is stripped already. *)
Lemma clean_strip (s : str) : clean s → strip s = s.
Proof.
  intros (Hc & Hh & Hl & _). unfold strip. rewrite (lstrip_by_id _ _ Hh).
  apply rstrip_by_id. destruct (reverse s) as [|c r] eqn:Hrev; [done|]. simpl in *.
  destruct (is_space c) eqn:Hsp; [|done].
  assert (c ∈ s) as Hin.
  { rewrite <- (reverse_involutive s), Hrev, elem_of_reverse. apply list_elem_of_here. }
  by rewrite (collapsed_space _ _ _ Hc Hin Hsp) in Hl.
Qed.

(** Sanitizing a clean, non-empty name changes nothing. *)
Lemma sanitize_filename_clean (s : str) :
  clean s → s ≠ [] → sanitize_filename s = s.
Proof.
  intros Hclean Hne. pose proof (clean_strip s Hclean) as Hstrip.
  destruct Hclean as (Hc & Hh & Hl & Hvalid & Hnul).
  unfold sanitize_filename.
  rewrite (collapsed_fixed _ _ Hc), Hstrip, (translate_invalid_id _ Hvalid).
  rewrite (rstrip_by_id _ _ Hl), Hstrip, (remove_nul_id _ Hnul), Hstrip.
  by destruct s.
Qed.

(** Without NUL characters the result of sanitization is clean, or the
    name put for an empty result. *)
Lemma sanitize_filename_result (x : str) :
  Forall (λ c, c ≠ 0%N) x →
  sanitize_filename x = lit "untitled"
  ∨ (clean (sanitize_filename x) ∧ sanitize_filename x ≠ []).
Proof.
  intros Hnul. unfold sanitize_filename.
  set (s1 := strip (sub_ws false x)).
  set (w := rstrip_by (char_in (lit ". ")) (translate_invalid s1)).
  assert (collapsed false s1 ∧ head_not is_space s1 ∧ Forall (λ c, c ≠ 0%N) s1)
    as (Hc1 & Hh1 & Hn1).
  { unfold s1, strip.
    pose proof (lstrip_by_suffix is_space (sub_ws false x)) as Hsuf.
    pose proof (rstrip_by_prefix is_space (lstrip_by is_space (sub_ws false x)))
      as Hpre.
    split_and!.
    - destruct Hpre as [k2 Hk2]. apply (collapsed_prefix _ _ k2). rewrite <- Hk2.
      destruct Hsuf as [k1 Hk1]. apply (collapsed_suffix false k1). rewrite <- Hk1.
      apply sub_ws_collapsed.
    - eapply head_not_prefix; [done|]. apply lstrip_by_head_not.
    - eapply Forall_prefix; [done|]. eapply Forall_suffix; [done|].
      by apply sub_ws_Forall. }
  assert (clean w) as Hclean.
  { assert (w `prefix_of` translate_invalid s1) as Hpre by apply rstrip_by_prefix.
    unfold clean. split_and!.
    - destruct Hpre as [k Hk]. apply (collapsed_prefix _ w k). rewrite <- Hk.
      by apply translate_invalid_collapsed.
    - eapply head_not_prefix; [done|]. by apply translate_invalid_head_not.
    - apply rstrip_by_last_not.
    - eapply Forall_prefix; [done|]. apply translate_invalid_valid.
    - eapply Forall_prefix; [done|]. unfold translate_invalid.
      apply Forall_fmap. eapply Forall_impl; [done|]. intros c Hc. simpl.
      by destruct (char_in INVALID_CHARS c). }
  rewrite (clean_strip w Hclean).
  rewrite (remove_nul_id w) by apply Hclean.
  rewrite (clean_strip w Hclean).
  destruct w as [|c w']; [by left|]. by right.
Qed.

(** On titles without NUL characters sanitization is idempotent. *)
Lemma sanitize_filename_idempotent_without_nul (x : str) :
  Forall (λ c, c ≠ 0%N) x →
  sanitize_filename (sanitize_filename x) = sanitize_filename x.
Proof.
  intros [->|[Hclean Hne]]%sanitize_filename_result.
  - vm_compute. reflexivity.
  - by apply sanitize_filename_clean.
Qed.

(** ** Name Builder: clamping *)

Example clamp_ex1 :
  clamp_filename (lit "2020 - A Study of Widgets") (lit ".pdf") 12 = lit "2020 - A.pdf".
Proof. vm_compute. reflexivity. Qed.

Lemma clamp_filename_suffix (stem suffix : str) max_len :
  suffix `suffix_of` clamp_filename stem suffix max_len.
Proof. unfold clamp_filename. apply suffix_app_r. done. Qed.

(** The bound the code keeps: the stem is cut to
    [max 1 (max_len - len suffix)] characters. *)
Lemma clamp_filename_length (stem suffix : str) max_len :
  (Z.of_nat (length (clamp_filename stem suffix max_len))
   ≤ Z.max 1 (max_len - Z.of_nat (length suffix)) + Z.of_nat (length suffix))%Z.
Proof.
  unfold clamp_filename. rewrite length_app.
  set (m := Z.max 1 (max_len - Z.of_nat (length suffix))).
  destruct (Z.ltb_spec m (Z.of_nat (length (strip stem)))) as [Hlt|Hle].
  - pose proof (rstrip_by_length is_space (take (Z.to_nat m) (strip stem))) as Hr.
    rewrite length_take in Hr. unfold rstrip. lia.
  - lia.
Qed.

(** C4 (as stated) fails: with [maxlen = 3] and the extension [.pdf] one
    character of the stem is kept and the name has five characters. *)
Lemma clamp_filename_exceeds_maxlen :
  (0 < 3)%Z
  ∧ clamp_filename (lit "abc") (lit ".pdf") 3 = lit "a.pdf"
  ∧ ¬ (Z.of_nat (length (clamp_filename (lit "abc") (lit ".pdf") 3)) ≤ 3)%Z.
Proof. vm_compute. split_and!; [done | done |]. intros Hle. by apply Hle. Qed.

(** C4 (amended). When the maximum length exceeds the length of the
    extension, the clamped filename has at most [maxlen] characters and
    ends with the whole extension. *)
Theorem clamp_filename_bounded (stem suffix : str) (max_len : Z) :
  (Z.of_nat (length suffix) < max_len)%Z →
  (Z.of_nat (length (clamp_filename stem suffix max_len)) ≤ max_len)%Z
  ∧ suffix `suffix_of` clamp_filename stem suffix max_len.
Proof.
  intros Hlen. split; [|apply clamp_filename_suffix].
  pose proof (clamp_filename_length stem suffix max_len). lia.
Qed.

Lemma clamp_filename_bounded_witness :
  (Z.of_nat (length (lit ".pdf")) < 12)%Z
  ∧ (Z.of_nat (length (clamp_filename (lit "2020 - A Study of Widgets") (lit ".pdf") 12))
     ≤ 12)%Z
  ∧ lit ".pdf" `suffix_of`
      clamp_filename (lit "2020 - A Study of Widgets") (lit ".pdf") 12.
Proof.
  split; [vm_compute; reflexivity|].
  apply (clamp_filename_bounded (lit "2020 - A Study of Widgets") (lit ".pdf") 12).
  vm_compute. reflexivity.
Defined.

(** ** Name Builder: collision resolution *)

Lemma lit_inj : Inj (=) (=) lit.
Proof.
  intros s1 s2 Heq. unfold lit in Heq.
  assert (Inj (=) (=) N_of_ascii) as Hinj.
  { intros a b Hab. rewrite <- (ascii_N_embedding a), <- (ascii_N_embedding b).
    by rewrite Hab. }
  apply (inj (fmap N_of_ascii)) in Heq.
  rewrite <- (string_of_list_ascii_of_string s1).
  rewrite <- (string_of_list_ascii_of_string s2). by rewrite Heq.
Qed.

Lemma numbered_inj stem suffix : Inj (=) (=) (numbered stem suffix).
Proof.
  intros i j Heq. unfold numbered in Heq.
  apply app_inv_head, app_inv_head, app_inv_tail in Heq.
  by apply lit_inj, (inj pretty) in Heq.
Qed.

(** What the loop returns is the first numbered name that is free. *)
Lemma first_unreserved_Some reserved stem suffix fuel i n :
  first_unreserved reserved stem suffix fuel i = Some n →
  ∃ k, k < fuel ∧ n = numbered stem suffix (i + k) ∧ (n ∉ reserved)
       ∧ (∀ j, j < k → numbered stem suffix (i + j) ∈ reserved).
Proof.
  revert i. induction fuel as [|fuel IH]; intros i; simpl; [done|].
  case_decide as Hin.
  - intros Hrec. destruct (IH _ Hrec) as (k & Hk & -> & Hfree & Hbelow).
    exists (S k). split_and!; [lia | f_equal; lia | done |].
    intros [|j] Hj; [by rewrite Nat.add_0_r|].
    replace (i + S j) with (S i + j) by lia. apply Hbelow. lia.
  - intros [= <-]. exists 0. rewrite Nat.add_0_r. split_and!; [lia|done|done|lia].
Qed.

Lemma first_unreserved_None reserved stem suffix fuel i :
  first_unreserved reserved stem suffix fuel i = None →
  ∀ j, i ≤ j < i + fuel → numbered stem suffix j ∈ reserved.
Proof.
  revert i. induction fuel as [|fuel IH]; intros i; simpl; [lia|].
  case_decide as Hin; [|done].
  intros Hrec j Hj. destruct (decide (j = i)) as [->|Hne]; [done|].
  apply (IH _ Hrec). lia.
Qed.

(** A finite set cannot hold more numbered names than it has elements. *)
Lemma numbered_pigeonhole {A} `{Countable A} (f : nat → A) `{!Inj (=) (=) f}
    (X : gset A) i n :
  (∀ j, i ≤ j < i + n → f j ∈ X) → n ≤ size X.
Proof.
  intros Hall. unfold size, set_size. simpl.
  rewrite <- (length_seq n i), <- (length_fmap f).
  apply submseteq_length, NoDup_submseteq.
  - apply NoDup_fmap_2; [done|]. apply NoDup_seq.
  - intros x [j [-> Hj]]%list_elem_of_fmap. apply elem_of_elements, Hall.
    by apply elem_of_seq in Hj.
Qed.

(** The loop of [unique_path_with_reserved] ends within the rounds it is
    given. *)
Lemma first_unreserved_total reserved stem suffix i :
  is_Some (first_unreserved reserved stem suffix (S (size reserved)) i).
Proof.
  destruct (first_unreserved _ _ _ _ i) as [n|] eqn:Hfirst; [by eexists|].
  pose proof (first_unreserved_None _ _ _ _ _ Hfirst) as Hall.
  pose proof (numbered_inj stem suffix) as Hinj.
  apply (numbered_pigeonhole (numbered stem suffix)) in Hall. lia.
Qed.

Lemma unique_path_with_reserved_total path reserved :
  is_Some (unique_path_with_reserved path reserved).
Proof.
  unfold unique_path_with_reserved. case_decide; [|by eexists].
  destruct (first_unreserved_total reserved (path_stem (name path))
              (path_suffix (name path)) 2) as [n ->]. by eexists.
Qed.

(** The name returned was free, is reserved afterwards, and the path
    stays in the directory of the one proposed. *)
Lemma unique_path_with_reserved_spec path reserved p reserved' :
  unique_path_with_reserved path reserved = Some (p, reserved') →
  parent p = parent path ∧ (name p ∉ reserved)
  ∧ reserved' = {[name p]} ∪ reserved
  ∧ (name path ∉ reserved → p = path).
Proof.
  unfold unique_path_with_reserved. case_decide as Hin.
  - destruct (first_unreserved _ _ _ _ _) as [n|] eqn:Hfirst; [|done].
    intros [= <- <-]. apply first_unreserved_Some in Hfirst as (k & _ & _ & Hfree & _).
    done.
  - intros [= <- <-]. done.
Qed.

(** The disambiguator is added behind the clamping: a name clamped to
    twelve characters grows to sixteen when it is taken. *)
Example disambiguator_behind_clamp :
  clamp_filename (lit "2020 - A Study of Widgets") (lit ".pdf") 12 = lit "2020 - A.pdf"
  ∧ name <$> (fst <$> unique_path_with_reserved
                (mkPath [lit "d"] (lit "2020 - A.pdf")) {[lit "2020 - A.pdf"]})
    = Some (lit "2020 - A (2).pdf").
Proof. vm_compute. done. Qed.

Example unique_path_with_reserved_ex :
  unique_path_with_reserved (mkPath [lit "d"] (lit "a.pdf"))
    {[lit "a.pdf"; lit "a (2).pdf"]}
  = Some (mkPath [lit "d"] (lit "a (3).pdf"),
          {[lit "a (3).pdf"]} ∪ {[lit "a.pdf"; lit "a (2).pdf"]}).
Proof. vm_compute. reflexivity. Qed.

(** ** Heuristic Parser *)

Example extract_year_ex1 :
  @extract_year_from_text ascii_db 2026
    (lit "Cited 2019, revised 2023; founded 1750.") = Some 2023%Z.
Proof. vm_compute. reflexivity. Qed.

Example extract_year_ex2 :
  @year_findall ascii_db None 0 (lit "x2020 2021_ 20222 1999.2000 (2031)")
  = [lit "1999"; lit "2000"; lit "2031"].
Proof. vm_compute. reflexivity. Qed.

Example extract_doi_ex1 :
  @extract_doi_from_text ascii_db
    (lit "see doi:10.1000/xyz123). Also 10.5555/other")
  = Some (lit "10.1000/xyz123").
Proof. vm_compute. reflexivity. Qed.

Example extract_doi_ex2 :
  @extract_doi_from_text ascii_db (lit "10.123/a 10.1234567890/b 10.12345/") = None.
Proof. vm_compute. reflexivity. Qed.

(** ** Preview Planner *)

Section PlannerProps.
Context `{UnicodeDB}.
Variables (env : Env) (cfg : Config).

(** A cache hit changes nothing and calls nothing; a miss asks the
    registry once, stores the answer and sleeps once. *)
Lemma cached_lookup_cases d st r st' :
  cached_lookup env cfg d st = (r, st') →
  (cache st !! d = Some r ∧ st' = st)
  ∨ (cache st !! d = None ∧ r = answer env cfg d
     ∧ st' = mkPlan (<[d := r]> (cache st)) (reserved_by_dir st) (items st)
               (events st ++ [EvLookup d; EvSleep (sleep_time (sleep cfg))])).
Proof.
  unfold cached_lookup. destruct (cache st !! d) as [found|] eqn:Hc.
  - intros [= <- <-]. by left.
  - intros [= <- <-]. by right.
Qed.

Lemma resolve_file_state st f x st1 :
  resolve_file env cfg st f = (x, st1) →
  st1 = st ∨ ∃ d r, cached_lookup env cfg d st = (r, st1).
Proof.
  unfold resolve_file.
  destruct (extract_doi_from_text _) as [d|]; [|intros [= <- <-]; by left].
  destruct (str_truthy (Some d) && negb (no_crossref cfg));
    [|intros [= <- <-]; by left].
  destruct (cached_lookup env cfg d st) as [[cf_title cf_year] st2] eqn:Hl.
  intros [= <- <-]. right. by exists d, (cf_title, cf_year).
Qed.

Lemma resolve_file_frame st f x st1 :
  resolve_file env cfg st f = (x, st1) →
  items st1 = items st ∧ reserved_by_dir st1 = reserved_by_dir st.
Proof.
  intros [->|(d & r & Hl)]%resolve_file_state; [done|].
  by apply cached_lookup_cases in Hl as [[_ ->]|(_ & _ & ->)].
Qed.

Lemma preview_file_inv st f st' :
  preview_file env cfg st f = Some st' →
  ∃ t y d st1 it rbd,
    resolve_file env cfg st f = ((t, y, d), st1)
    ∧ st' = mkPlan (cache st1) rbd (items st ++ [it]) (events st1)
    ∧ emitted cfg f t y d it.
Proof.
  unfold preview_file.
  destruct (resolve_file env cfg st f) as [[[t y] d] st1] eqn:Hres.
  destruct (resolve_file_frame _ _ _ _ Hres) as [Hitems _]. rewrite Hitems.
  intros Hpre. exists t, y, d, st1.
  assert (∀ P : Prop, (str_truthy t = false → P) →
          match t with Some (_ :: _) => True | _ => P end) as Hfalsy.
  { intros P HP. destruct t as [[|]|]; auto. }
  destruct t as [[|c t]|].
  2: {
    destruct (get_reserved env (parent f) (reserved_by_dir st1)) as [reserved rbd].
    destruct (unique_path_with_reserved _ reserved) as [[np reserved']|]; [|done].
    simpl in Hpre. case_decide as Hname; injection Hpre as <-.
    - eexists _, _. split_and!; [done..|]. by eapply emitted_ok.
    - eexists _, _. split_and!; [done..|]. by eapply emitted_rename. }
  all: destruct (unmatched_root cfg) as [root|] eqn:Hroot.
  all: try (injection Hpre as <-; eexists _, _; split_and!; [done..|];
            by apply emitted_skip).
  all: destruct (get_reserved env root (reserved_by_dir st1)) as [reserved rbd].
  all: destruct (unique_path_with_reserved _ reserved) as [[np reserved']|] eqn:Hu;
         [|done].
  all: apply unique_path_with_reserved_spec in Hu as (Hparent & _).
  all: injection Hpre as <-; eexists _, _; split_and!; [done..|].
  all: by eapply emitted_move.
Qed.

(** The body of the loop always ends: the disambiguation loop has
    rounds enough. *)
Lemma preview_file_total st f : is_Some (preview_file env cfg st f).
Proof.
  unfold preview_file.
  destruct (resolve_file env cfg st f) as [[[t y] d] st1].
  destruct t as [[|c t]|].
  2: {
    destruct (get_reserved env (parent f) (reserved_by_dir st1)) as [reserved rbd].
    destruct (unique_path_with_reserved_total
                (with_name f (clamp_filename
                   (build_new_stem (c :: t) y (style cfg)) (lit ".pdf") (maxlen cfg)))
                reserved) as [[np reserved'] ->].
    simpl. case_decide; by eexists. }
  all: destruct (unmatched_root cfg) as [root|]; [|by eexists].
  all: destruct (get_reserved env root (reserved_by_dir st1)) as [reserved rbd].
  all: destruct (unique_path_with_reserved_total (joinpath root (name f)) reserved)
         as [[np reserved'] ->].
  all: by eexists.
Qed.

Lemma preview_loop_total pdfs idx st :
  is_Some (preview_loop env cfg idx pdfs st).
Proof.
  revert idx st. induction pdfs as [|f pdfs IH]; intros idx st; simpl.
  - by eexists.
  - destruct (cancel_is_set env idx); [by eexists|].
    destruct (preview_file_total st f) as [st' ->]. simpl. apply IH.
Qed.

(** A property of the state that every round keeps holds at the end. *)
Lemma preview_loop_invariant (I : PlanState → Prop) :
  (∀ st f st', I st → preview_file env cfg st f = Some st' → I st') →
  ∀ pdfs idx st st',
    I st → preview_loop env cfg idx pdfs st = Some st' → I st'.
Proof.
  intros Hstep pdfs. induction pdfs as [|f pdfs IH]; intros idx st st' HI; simpl.
  - by intros [= <-].
  - destruct (cancel_is_set env idx); [by intros [= <-]|].
    destruct (preview_file env cfg st f) as [st1|] eqn:Hf; [|done]. simpl.
    apply IH. by eapply Hstep.
Qed.

(** A run always ends with a list of items. *)
Lemma compute_preview_total pdfs : is_Some (compute_preview env cfg pdfs).
Proof.
  unfold compute_preview, plan_run.
  destruct (preview_loop_total pdfs 1 plan_init) as [st ->]. by eexists.
Qed.

End PlannerProps.

Example compute_preview_sample_ok :
  @compute_preview ascii_db (sample_env None) sample_cfg [sample_pdf]
  = Some [sample_item sample_pdf ok (lit "already good name") false].
Proof. vm_compute. reflexivity. Qed.

(** When the listing of the directory succeeds it holds the file's own
    name, the name computed is taken for a collision, and the file that
    is named as computed is given the next free name. *)
Example compute_preview_sample_listed :
  @compute_preview ascii_db
    (sample_env (Some [lit "2020 - A Study of Widgets.pdf"])) sample_cfg [sample_pdf]
  = Some [sample_item
            (mkPath [lit "papers"] (lit "2020 - A Study of Widgets (2).pdf"))
            rename (lit "ready") true].
Proof. vm_compute. reflexivity. Qed.

Section PlannerItems.
Context `{UnicodeDB}.
Variables (env : Env) (cfg : Config).

Lemma emitted_shape f t y d it : emitted cfg f t y d it → item_shape it.
Proof.
  unfold item_shape.
  destruct 1; simpl; split_and!; try done;
    try (split; [intros _|intros _; by eexists]);
    try (split; intros Hs; by repeat destruct Hs as [Hs|Hs]);
    eauto.
Qed.

Lemma preview_file_shape st f st' :
  Forall item_shape (items st) → preview_file env cfg st f = Some st' →
  Forall item_shape (items st').
Proof.
  intros Hall (t & y & d & st1 & it & rbd & _ & -> & Hem)%preview_file_inv.
  simpl. apply Forall_app. split; [done|].
  apply Forall_singleton. by eapply emitted_shape.
Qed.

Lemma plan_run_shape pdfs st :
  plan_run env cfg pdfs = Some st → Forall item_shape (items st).
Proof.
  unfold plan_run.
  apply (preview_loop_invariant env cfg (λ st, Forall item_shape (items st))).
  - apply preview_file_shape.
  - constructor.
Qed.

End PlannerItems.

(** C2 (as stated) fails: the item of a file that already has the name
    computed for it has status [ok] and carries a target path, the path of
    the file itself. *)
Lemma ok_item_has_target :
  ∃ it,
    @compute_preview ascii_db (sample_env None) sample_cfg [sample_pdf] = Some [it]
    ∧ status it = ok ∧ new_path it = Some sample_pdf
    ∧ ¬ (is_Some (new_path it) ↔ status it = rename ∨ status it = move).
Proof.
  exists (sample_item sample_pdf ok (lit "already good name") false).
  split; [vm_compute; reflexivity|]. split_and!; [done..|].
  simpl. intros [Hto _]. destruct Hto as [|]; [by eexists|done..].
Qed.

(** C2 (amended). Every item of a run has a target path exactly when its
    status is [rename], [move] or [ok], and none exactly when it is
    [skip]; the target of an [ok] item bears the current name of the file;
    [apply] is true exactly for [rename] and [move]. *)
Theorem preview_items_target_and_apply `{UnicodeDB} (env : Env) (cfg : Config)
    (pdfs : list Path) :
  ∃ its,
    compute_preview env cfg pdfs = Some its
    ∧ ∀ it, it ∈ its →
        (is_Some (new_path it)
         ↔ status it = rename ∨ status it = move ∨ status it = ok)
        ∧ (new_path it = None ↔ status it = skip)
        ∧ (apply it = true ↔ status it = rename ∨ status it = move)
        ∧ (status it = ok →
           ∃ np, new_path it = Some np ∧ name np = old_name it).
Proof.
  unfold compute_preview.
  destruct (preview_loop_total env cfg pdfs 1 plan_init) as [st Hrun].
  exists (items st). split; [unfold plan_run; by rewrite Hrun|].
  intros it Hit.
  pose proof (plan_run_shape env cfg pdfs st Hrun) as Hall.
  rewrite Forall_forall in Hall.
  destruct (Hall it Hit) as (? & ? & ? & ? & _). done.
Qed.

Section PlannerTrace.
Context `{UnicodeDB}.
Variables (env : Env) (cfg : Config).

Lemma lookups_app evs1 evs2 : lookups (evs1 ++ evs2) = lookups evs1 ++ lookups evs2.
Proof. unfold lookups. apply bind_app. Qed.

Lemma cached_lookup_trace d st r st' :
  trace_ok cfg st → cached_lookup env cfg d st = (r, st') → trace_ok cfg st'.
Proof.
  intros (Hnd & Hev & Hdom) [[_ ->]|(Hmiss & _ & ->)]%cached_lookup_cases; [done|].
  unfold trace_ok. simpl. rewrite lookups_app. simpl.
  split_and!.
  - apply NoDup_app. split_and!; [done| |apply NoDup_singleton].
    intros d' Hd' ->%list_elem_of_singleton.
    apply Hdom in Hd'. rewrite Hmiss in Hd'. by destruct Hd'.
  - rewrite bind_app. rewrite <- Hev. done.
  - intros d'. rewrite elem_of_app, list_elem_of_singleton, Hdom.
    rewrite lookup_insert. case_decide as Heq.
    + subst d'. split; [by eexists | by right].
    + split; [intros [?|?]; [done | by subst] | by left].
Qed.

Lemma cached_lookup_sound d st r st' :
  cache_sound env cfg st → cached_lookup env cfg d st = (r, st') →
  cache_sound env cfg st' ∧ r = answer env cfg d.
Proof.
  intros Hs [[Hhit ->]|(Hmiss & -> & ->)]%cached_lookup_cases.
  - split; [done|]. by eapply Hs.
  - split; [|done]. intros d' v. simpl. rewrite lookup_insert.
    case_decide as Heq; [subst d'; by intros [= <-] | apply Hs].
Qed.

Lemma resolve_file_trace st f x st1 :
  trace_ok cfg st → resolve_file env cfg st f = (x, st1) → trace_ok cfg st1.
Proof.
  intros Ht [->|(d & r & Hl)]%resolve_file_state; [done|].
  by eapply cached_lookup_trace.
Qed.

(** The cache is transparent: the fields resolved for a file are those
    computed from the registry's answer. *)
Lemma resolve_file_expected st f x st1 :
  cache_sound env cfg st → resolve_file env cfg st f = (x, st1) →
  cache_sound env cfg st1 ∧ x = expected_fields env cfg f.
Proof.
  intros Hs. unfold resolve_file, expected_fields, year_guess_of.
  set (guess := PyInt <$> extract_year_from_text _ _).
  assert (∀ cf_year : option pyint,
    (if negb (year_truthy (if year_truthy cf_year then cf_year else None))
        && year_truthy guess
     then guess else if year_truthy cf_year then cf_year else None)
    = if year_truthy cf_year then cf_year
      else if year_truthy guess then guess else None) as Hyear.
  { intros cf_year. destruct (year_truthy cf_year) eqn:Hcf; simpl.
    - by rewrite Hcf.
    - done. }
  destruct (extract_doi_from_text _) as [d|].
  2: { intros [= <- <-]. split; [done|]. simpl. f_equal. }
  destruct (str_truthy (Some d) && negb (no_crossref cfg)).
  2: { intros [= <- <-]. split; [done|]. simpl. f_equal. }
  destruct (cached_lookup env cfg d st) as [[cf_title cf_year] st2] eqn:Hl.
  destruct (cached_lookup_sound _ _ _ _ Hs Hl) as [Hs2 <-].
  intros [= <- <-]. split; [done|]. f_equal. f_equal. apply Hyear.
Qed.

Lemma emitted_pdf f t y d it : emitted cfg f t y d it → pdf it = f.
Proof. by destruct 1. Qed.

Lemma preview_file_plan_inv st f st' :
  plan_inv env cfg st → preview_file env cfg st f = Some st' →
  plan_inv env cfg st'.
Proof.
  intros (Ht & Hs & Hall)
    (t & y & d & st1 & it & rbd & Hres & -> & Hem)%preview_file_inv.
  pose proof (resolve_file_trace _ _ _ _ Ht Hres) as Ht1.
  destruct (resolve_file_expected _ _ _ _ Hs Hres) as [Hs1 Hx].
  split_and!; [done | done |]. simpl. apply Forall_app. split; [done|].
  apply Forall_singleton. exists t, y, d.
  rewrite (emitted_pdf _ _ _ _ _ Hem). done.
Qed.

Lemma plan_run_inv pdfs st :
  plan_run env cfg pdfs = Some st → plan_inv env cfg st.
Proof.
  unfold plan_run. apply (preview_loop_invariant env cfg (plan_inv env cfg)).
  - apply preview_file_plan_inv.
  - split_and!; [|done|by constructor].
    split_and!; [constructor | done |].
    intros d. simpl. rewrite lookup_empty. split; [by intros ?%elem_of_nil|].
    by intros [? ?].
Qed.

End PlannerTrace.


Example lookup_once_sample :
  events <$> @plan_run ascii_db (sample_env None) sample_cfg
               [sample_pdf; mkPath [lit "papers"] (lit "copy.pdf")]
  = Some [EvLookup (lit "10.1000/widgets"); EvSleep (1 # 5)].
Proof. vm_compute. reflexivity. Qed.

(** The failures named in the specification are failures in this sense:
    a network error, a status other than 200, a body that is not JSON,
    and a document of another shape than expected. *)
Lemma lookup_fails_kinds :
  lookup_fails NetworkError
  ∧ (∀ status_code body, status_code ≠ 200%Z →
       lookup_fails (Response status_code body))
  ∧ lookup_fails (Response 200 None)
  ∧ lookup_fails (Response 200 (Some (JArr [])))
  ∧ lookup_fails
      (Response 200 (Some (JObj [(lit "message", JObj [(lit "title", JInt 7)])]))).
Proof.
  split_and!; try (by left).
  intros status_code body Hne. right. by exists status_code, body.
Qed.


Lemma emitted_fields cfg f t y d it :
  emitted cfg f t y d it →
  doi it = d ∧ year it = y ∧ title it = if str_truthy t then t else None.
Proof.
  destruct 1 as [t' np -> Hne _|t' np -> Hne _|root np -> _ _| -> _]; simpl;
    try done; by destruct t'.
Qed.



(** ** Heuristic Parser: the year *)

Section YearProps.
Context `{UnicodeDB}.

Lemma max_of_spec y ys :
  max_of y ys ∈ y :: ys ∧ ∀ z, z ∈ y :: ys → (z ≤ max_of y ys)%Z.
Proof.
  unfold max_of. revert y. induction ys as [|x ys IH]; intros y; simpl.
  - split; [apply list_elem_of_here|]. intros z ->%list_elem_of_singleton. lia.
  - destruct (IH (Z.max y x)) as [Hin Hge]. split.
    + apply elem_of_cons in Hin as [Heq|Hin].
      * rewrite Heq. destruct (Z.max_spec y x) as [[_ ->]|[_ ->]];
          [apply list_elem_of_further|]; apply list_elem_of_here.
      * by do 2 apply list_elem_of_further.
    + intros z Hz.
      assert (Z.max y x ≤ foldl Z.max (Z.max y x) ys)%Z as Hmax
        by (apply Hge, list_elem_of_here).
      apply elem_of_cons in Hz as [->|Hz]; [lia|].
      apply elem_of_cons in Hz as [->|Hz]; [lia|].
      by apply Hge, list_elem_of_further.
Qed.

Lemma is_digit_word c : is_digit c = true → uni_word c = true.
Proof.
  unfold is_digit. destruct (uni_decimal c) as [d|] eqn:Hd; [|done].
  intros _. by eapply uni_decimal_word.
Qed.

Lemma ascii_digit_word c : (48 ≤ c ≤ 57)%N → uni_word c = true.
Proof. intros Hc. eapply uni_decimal_word. by apply uni_decimal_ascii. Qed.

(** The four characters of a match are word characters. *)
Lemma year_body_words s :
  year_body s = true →
  ∃ a b c d s', s = a :: b :: c :: d :: s'
    ∧ uni_word a = true ∧ uni_word b = true
    ∧ uni_word c = true ∧ uni_word d = true.
Proof.
  destruct s as [|a [|b [|c [|d s']]]]; try done. simpl.
  intros [[Hab Hc]%andb_prop Hd]%andb_prop.
  exists a, b, c, d, s'. split; [done|].
  split_and!; [| |by apply is_digit_word..].
  - apply ascii_digit_word.
    apply orb_prop in Hab as [[->%N.eqb_eq _]%andb_prop|[->%N.eqb_eq _]%andb_prop]; lia.
  - apply ascii_digit_word.
    apply orb_prop in Hab as [[_ ->%N.eqb_eq]%andb_prop|[_ ->%N.eqb_eq]%andb_prop]; lia.
Qed.

(** No match starts between two word characters. *)
Lemma year_match_at_inside prev c s :
  word_at prev = true → uni_word c = true →
  year_match_at prev (c :: s) = false.
Proof.
  intros Hp Hc. unfold year_match_at, boundary. simpl. by rewrite Hp, Hc.
Qed.

(** The scan finds the text of every match, and nothing else: the
    positions it passes over inside a match hold no match. *)
Lemma year_findall_spec s : ∀ prev skip x,
  inside_match prev skip s →
  x ∈ year_findall prev skip s
  ↔ ∃ j, j < length s
       ∧ year_match_at (char_before_in prev s j) (drop j s) = true
       ∧ x = take 4 (drop j s).
Proof.
  induction s as [|c s IH]; intros prev skip x Hin.
  { simpl. split; [by intros ?%elem_of_nil | intros (j & Hj & _); lia]. }
  assert (∀ skip',
    inside_match (Some c) skip' s →
    year_match_at prev (c :: s) = false →
    x ∈ year_findall (Some c) skip' s
    ↔ ∃ j, j < length (c :: s)
         ∧ year_match_at (char_before_in prev (c :: s) j) (drop j (c :: s)) = true
         ∧ x = take 4 (drop j (c :: s))) as Hshift.
  { intros skip' Hin' Hno. rewrite (IH _ _ _ Hin'). split.
    - intros (j & Hj & Hm & ->). exists (S j). split; [simpl; lia|].
      split; [|done]. by destruct j.
    - intros ([|j] & Hj & Hm & ->).
      + simpl in Hm. congruence.
      + exists j. split; [simpl in Hj; lia|]. split; [|done]. by destruct j. }
  destruct skip as [|skip]; simpl.
  - destruct (year_match_at prev (c :: s)) eqn:Hm.
    + assert (inside_match (Some c) 3 s) as Hin'.
      { right. unfold year_match_at in Hm.
        apply andb_prop in Hm as [[_ Hb]%andb_prop _].
        apply year_body_words in Hb
          as (a & b & c' & d & s' & [= -> ->] & Ha & Hb & Hc & Hd).
        split; [done|]. intros [|[|[|j]]] Hj; simpl; try done; lia. }
      rewrite elem_of_cons, (IH _ _ _ Hin'). split.
      * intros [->|(j & Hj & Hmj & ->)].
        -- exists 0. split; [simpl; lia|]. done.
        -- exists (S j). split; [simpl; lia|]. split; [|done]. by destruct j.
      * intros ([|j] & Hj & Hmj & ->); [by left|].
        right. exists j. split; [simpl in Hj; lia|]. split; [|done]. by destruct j.
    + apply Hshift; [by left | done].
  - destruct Hin as [|[Hp Hw]]; [done|].
    assert (uni_word c = true) as Hc by (apply (Hw 0); lia).
    apply Hshift; [|by apply year_match_at_inside].
    destruct skip as [|skip]; [by left|]. right. split; [done|].
    intros j Hj. apply (Hw (S j)). lia.
Qed.

(** A year stands at a position exactly when the pattern matches there. *)
Lemma year_at_match text i y :
  year_at text i y
  ↔ i < length text
    ∧ year_match_at (char_before text i) (drop i text) = true
    ∧ y = Z.of_N (py_int (take 4 (drop i text))).
Proof.
  unfold year_at, year_match_at. split.
  - intros (a & b & c & d & H0 & H1 & H2 & H3 & Hab & Hc & Hd & Hb1 & Hb2 & ->).
    split; [by eapply lookup_lt_Some|].
    rewrite <- (Nat.add_0_r i) in H0. rewrite <- lookup_drop in H0, H1, H2, H3.
    rewrite <- (lookup_drop text i 4) in Hb2.
    destruct (drop i text) as [|a' [|b' [|c' [|d' rest]]]]; try done.
    simpl in *. injection H0 as ->. injection H1 as ->.
    injection H2 as ->. injection H3 as ->.
    rewrite Hb1, Hb2, Hc, Hd. split; [|done].
    destruct Hab as [[-> ->]|[-> ->]]; done.
  - intros (Hi & [[Hb1 Hbody]%andb_prop Hb2]%andb_prop & ->).
    pose proof (lookup_drop text i) as Hl.
    destruct (drop i text) as [|a [|b [|c [|d rest]]]]; try done.
    simpl in Hbody. apply andb_prop in Hbody as [[Hab Hc]%andb_prop Hd].
    exists a, b, c, d. rewrite <- (Hl 1), <- (Hl 2), <- (Hl 3), <- (Hl 4).
    rewrite <- (Nat.add_0_r i) at 1. rewrite <- (Hl 0).
    split_and!; try done.
    apply orb_prop in Hab as [[->%N.eqb_eq ->%N.eqb_eq]%andb_prop
                             |[->%N.eqb_eq ->%N.eqb_eq]%andb_prop]; auto.
Qed.

(** The years found are the years that stand somewhere in the text. *)
Lemma year_findall_year_at text y :
  y ∈ (λ x, Z.of_N (py_int x)) <$> year_findall None 0 text
  ↔ ∃ i, year_at text i y.
Proof.
  rewrite list_elem_of_fmap. split.
  - intros (x & -> & Hx).
    apply (year_findall_spec text None 0 x) in Hx as (j & Hj & Hm & ->);
      [|by left].
    exists j. apply year_at_match. by destruct j.
  - intros (i & (Hi & Hm & ->)%year_at_match). eexists. split; [done|].
    apply (year_findall_spec text None 0); [by left|].
    exists i. by destruct i.
Qed.

End YearProps.

Lemma extract_year_from_text_unfold `{UnicodeDB} current_year text :
  extract_year_from_text current_year text
  = match filter (λ y, (1800 < y ∧ y ≤ current_year + 1)%Z)
            ((λ x, Z.of_N (py_int x)) <$> year_findall None 0 text) with
    | [] => None
    | y :: ys => Some (max_of y ys)
    end.
Proof.
  unfold extract_year_from_text. destruct text as [|c text]; [done|].
  by destruct (_ <$> year_findall None 0 (c :: text)).
Qed.

(** C6. Year extraction returns the largest of the years that stand in
    the text between word boundaries (19 or 20 and two digits) and lie in
    the range from 1801 to the year after the current one, and nothing
    when no such year stands in the text. *)
Theorem extract_year_from_text_max `{UnicodeDB} (current_year : Z) (text : list N) :
  (∀ y,
     extract_year_from_text current_year text = Some y
     ↔ year_in_range current_year y
       ∧ (∃ i, year_at text i y)
       ∧ ∀ i y', year_at text i y' → year_in_range current_year y' → (y' ≤ y)%Z)
  ∧ (extract_year_from_text current_year text = None
     ↔ ∀ i y, year_at text i y → ¬ year_in_range current_year y).
Proof.
  rewrite extract_year_from_text_unfold.
  set (kept := filter _ _).
  assert (∀ y, y ∈ kept ↔ year_in_range current_year y ∧ ∃ i, year_at text i y)
    as Hkept.
  { intros y. unfold kept. rewrite list_elem_of_filter, year_findall_year_at. done. }
  destruct kept as [|y0 ys].
  - split.
    + intros y. split; [done|]. intros (Hr & Hi & _).
      assert (y ∈ @nil Z) as Hin by (by apply Hkept). by apply elem_of_nil in Hin.
    + split; [|done]. intros _ i y Hat Hr.
      assert (y ∈ @nil Z) as Hin by (apply Hkept; eauto). by apply elem_of_nil in Hin.
  - destruct (max_of_spec y0 ys) as [Hin Hge]. split.
    + intros y. split.
      * intros [= <-]. apply Hkept in Hin as [Hr Hi]. split_and!; [done..|].
        intros i y' Hat Hr'. apply Hge, Hkept. eauto.
      * intros (Hr & Hi & Hmax). f_equal. apply Z.le_antisymm.
        -- apply Hkept in Hin as [Hr0 [i Hi0]]. by eapply Hmax.
        -- apply Hge, Hkept. done.
    + split; [done|]. intros Hnone. apply Hkept in Hin as [Hr [i Hi]].
      by destruct (Hnone i _ Hi).
Qed.

Example extract_year_spec_example :
  @extract_year_from_text ascii_db 2026 (lit "2019 and 2023 but not 1750") = Some 2023%Z
  ∧ @year_at ascii_db (lit "2019 and 2023 but not 1750") 9 2023.
Proof.
  split; [vm_compute; reflexivity|].
  exists 50%N, 48%N, 50%N, 51%N.
  split_and!; try (vm_compute; reflexivity). by right.
Qed.

(** ** Apply Engine *)

Section ApplyProps.
Context {FS : Type} `{FileSystem FS}.

Lemma first_absent_None fs path stem suffix fuel i :
  first_absent fs path stem suffix fuel i = None →
  ∀ j, i ≤ j < i + fuel →
    with_name path (numbered stem suffix j) ∈ fs_entries fs.
Proof.
  revert i. induction fuel as [|fuel IH]; intros i; simpl; [lia|].
  destruct (fs_exists fs (with_name path (numbered stem suffix i)))
    as [e|[|]] eqn:Hex; [done| |done].
  destruct (first_absent fs path stem suffix fuel (S i)) as [[ops r]|] eqn:Hrec;
    [done|].
  intros _ j Hj. destruct (decide (j = i)) as [->|Hne].
  - by apply fs_exists_entries.
  - apply (IH _ Hrec). lia.
Qed.

(** The loop of [unique_path] ends within the rounds it is given. *)
Lemma first_absent_total fs path stem suffix i :
  is_Some (first_absent fs path stem suffix (S (size (fs_entries fs))) i).
Proof.
  destruct (first_absent _ _ _ _ _ i) as [r|] eqn:Hfirst; [by eexists|].
  pose proof (first_absent_None _ _ _ _ _ _ Hfirst) as Hall.
  assert (Inj (=) (=) (λ j, with_name path (numbered stem suffix j))) as Hinj.
  { intros j1 j2 [= Heq]. by apply numbered_inj in Heq. }
  apply (numbered_pigeonhole (λ j, with_name path (numbered stem suffix j))) in Hall.
  lia.
Qed.

Lemma unique_path_total fs path : is_Some (unique_path fs path).
Proof.
  unfold unique_path. destruct (fs_exists fs path) as [e|[|]]; [by eexists| |by eexists].
  destruct (first_absent_total fs path (path_stem (name path))
              (path_suffix (name path)) 2) as [[ops r] ->]. by eexists.
Qed.

(** The step closed when an item ends up counted as skipped, or as
    renamed. *)
Ltac counted_skipped := eexists; split; [done|]; by right.
Ltac counted_renamed := eexists; split; [done|]; by left.

Lemma move_item_counts log item target0 st :
  ∃ st', move_item log item target0 st = Some st' ∧ counted_once st st'.
Proof.
  unfold move_item, counted_once.
  destruct (fs_mkdir (fs_now st) (parent target0)) as [fs1 [e|]];
    [counted_skipped|].
  assert (∃ found,
    match fs_exists fs1 target0 with
    | inl e => Some ([OpExists target0], inl e)
    | inr false => Some ([OpExists target0], inr target0)
    | inr true =>
        '(ops, r) ← unique_path fs1 target0; Some (OpExists target0 :: ops, r)
    end = Some found) as [[ops r] ->].
  { destruct (fs_exists fs1 target0) as [e|[|]]; [by eexists| |by eexists].
    destruct (unique_path_total fs1 target0) as [[ops r] ->]. by eexists. }
  simpl. destruct r as [e|target]; [counted_skipped|].
  destruct (fs_rename fs1 (pdf item) target) as [fs2 [e|]];
    [counted_skipped | counted_renamed].
Qed.

Lemma apply_item_counts dry_run log item st :
  ∃ st', apply_item dry_run log item st = Some st' ∧ counted_once st st'.
Proof.
  unfold apply_item.
  destruct (new_path item) as [target0|];
    [|counted_skipped].
  destruct (apply item); simpl; [|counted_skipped].
  destruct dry_run; [counted_renamed|].
  apply move_item_counts.
Qed.

Lemma apply_loop_total dry_run log cancelled its idx st :
  is_Some (apply_loop dry_run log cancelled idx its st).
Proof.
  revert idx st. induction its as [|item its IH]; intros idx st; simpl.
  - by eexists.
  - destruct (cancelled idx); [by eexists|].
    destruct (apply_item_counts dry_run log item st) as (st' & -> & _).
    simpl. apply IH.
Qed.

(** Without cancellation every item is counted once. *)
Lemma apply_loop_counts dry_run log cancelled its idx st st' :
  (∀ i, cancelled i = false) →
  apply_loop dry_run log cancelled idx its st = Some st' →
  renamed st' + skipped st' = renamed st + skipped st + length its.
Proof.
  intros Hnc. revert idx st. induction its as [|item its IH]; intros idx st; simpl.
  - intros [= <-]. lia.
  - rewrite Hnc.
    destruct (apply_item_counts dry_run log item st) as (st1 & -> & Hc).
    simpl. intros Hrest%IH. destruct Hc as [[Hr Hs]|[Hr Hs]]; lia.
Qed.

(** An item that is not slated is passed over: only [skipped] changes. *)
Lemma apply_item_not_slated dry_run log item st :
  slated item = false →
  apply_item dry_run log item st = Some (count_skipped st).
Proof.
  unfold slated, apply_item. destruct (new_path item) as [target0|]; [|done].
  rewrite bool_decide_eq_true_2 by (by eexists).
  rewrite andb_true_r. by intros ->.
Qed.

(** A dry run leaves the file system alone and calls nothing on it. *)
Lemma apply_loop_dry_run log cancelled its idx st st' :
  apply_loop true log cancelled idx its st = Some st' →
  fs_now st' = fs_now st ∧ fs_ops st' = fs_ops st
  ∧ renamed st' = renamed st + length (filter slated (reached cancelled idx its))
  ∧ skipped st'
    = skipped st
      + length (filter (λ it, slated it = false) (reached cancelled idx its))
  ∧ logged st'
    = logged st
      ++ (if log then dry_line <$> filter slated (reached cancelled idx its)
          else []).
Proof.
  revert idx st. induction its as [|item its IH]; intros idx st; simpl.
  { intros [= <-]. simpl. split_and!; [done | done | lia | lia |].
    destruct log; simpl; by rewrite app_nil_r. }
  destruct (cancelled idx).
  { intros [= <-]. simpl. split_and!; [done | done | lia | lia |].
    destruct log; simpl; by rewrite app_nil_r. }
  destruct (slated item) eqn:Hsl.
  - unfold apply_item. pose proof Hsl as Hsl'. unfold slated in Hsl'.
    apply andb_prop in Hsl' as [Happly [target0 Ht]%bool_decide_eq_true].
    rewrite Ht, Happly. cbn [negb].
    intros (Hfs & Hops & Hren & Hskip & Hlog)%IH.
    cbn [fs_now fs_ops renamed skipped logged] in *.
    rewrite !filter_cons.
    repeat case_decide; try (exfalso; rewrite Hsl in *; done).
    split_and!; [done | done | cbn [length]; lia | done |].
    rewrite Hlog. unfold log_line. destruct log; [|done].
    rewrite fmap_cons, <- app_assoc. unfold dry_line at 2. by rewrite Ht.
  - rewrite apply_item_not_slated by done. cbn [mbind option_bind].
    intros (Hfs & Hops & Hren & Hskip & Hlog)%IH.
    cbn [fs_now fs_ops renamed skipped logged count_skipped] in *.
    rewrite !filter_cons.
    repeat case_decide; try (exfalso; rewrite Hsl in *; done).
    split_and!; [done | done | done | cbn [length]; lia | done].
Qed.

Lemma reached_all cancelled idx its :
  (∀ i, cancelled i = false) → reached cancelled idx its = its.
Proof.
  intros Hnc. revert idx. induction its as [|it its IH]; intros idx; simpl; [done|].
  by rewrite Hnc, IH.
Qed.

End ApplyProps.

(** C8. In a dry run the engine leaves the file system as it was and
    makes no call on it, whatever the items and however many of them have
    [apply] set; every item with [apply] set and a target that the loop
    reaches is counted as renamed, and its line is passed to [log] when
    a [log] is given; the loop reaches every item unless it is cancelled. *)
Theorem dry_run_touches_nothing {FS : Type} `{FileSystem FS} (fs : FS)
    (its : list PreviewItem) (log : bool) (cancelled : nat → bool) :
  ∃ st,
    apply_changes fs its true log cancelled = Some st
    ∧ fs_now st = fs
    ∧ fs_ops st = []
    ∧ renamed st = length (filter slated (reached cancelled 1 its))
    ∧ skipped st
      = length (filter (λ it, slated it = false) (reached cancelled 1 its))
    ∧ logged st
      = (if log then dry_line <$> filter slated (reached cancelled 1 its) else [])
    ∧ ((∀ i, cancelled i = false) → reached cancelled 1 its = its).
Proof.
  unfold apply_changes.
  destruct (apply_loop_total true log cancelled its 1 (mkApply fs 0 0 [] []))
    as [st Hrun].
  exists st. split; [done|].
  apply apply_loop_dry_run in Hrun as (Hfs & Hops & Hren & Hskip & Hlog).
  split_and!; try done. intros Hnc. by apply reached_all.
Qed.

Example dry_run_sample :
  (λ st, (renamed st, skipped st, fs_now st, fs_ops st, logged st))
  <$> apply_changes ({[sample_pdf]} : gset Path)
        [sample_item sample_pdf ok (lit "already good name") false;
         sample_item (mkPath [lit "papers"] (lit "new.pdf")) rename (lit "ready") true]
        true true (λ _, false)
  = Some (1, 1, {[sample_pdf]}, [],
          [lit "[DRY] 2020 - A Study of Widgets.pdf -> new.pdf"]).
Proof. vm_compute. reflexivity. Qed.

(** C10. Without cancellation the two counters returned add up to the
    number of items: every item is counted once, as renamed or as skipped,
    and an item whose rename raises is counted as skipped. *)
Theorem apply_changes_counts_every_item {FS : Type} `{FileSystem FS} (fs : FS)
    (its : list PreviewItem) (dry_run log : bool) (cancelled : nat → bool) :
  (∀ i, cancelled i = false) →
  (∃ st,
     apply_changes fs its dry_run log cancelled = Some st
     ∧ renamed st + skipped st = length its)
  ∧ (∀ (st0 : ApplyState FS) item, ∃ st1,
       apply_item dry_run log item st0 = Some st1 ∧ counted_once st0 st1)
  ∧ (∀ (st0 : ApplyState FS) item target fs1 fs2 e,
       new_path item = Some target → apply item = true →
       fs_mkdir (fs_now st0) (parent target) = (fs1, None) →
       fs_exists fs1 target = inr false →
       fs_rename fs1 (pdf item) target = (fs2, Some e) →
       ∃ st1,
         apply_item false log item st0 = Some st1
         ∧ renamed st1 = renamed st0 ∧ skipped st1 = S (skipped st0)).
Proof.
  intros Hnc. split_and!.
  - unfold apply_changes.
    destruct (apply_loop_total dry_run log cancelled its 1 (mkApply fs 0 0 [] []))
      as [st Hrun].
    exists st. split; [done|].
    by apply (apply_loop_counts _ _ _ _ _ _ _ Hnc) in Hrun.
  - intros st0 item. apply apply_item_counts.
  - intros st0 item target fs1 fs2 e Ht Happly Hmk Hex Hren.
    unfold apply_item, move_item. rewrite Ht, Happly. simpl.
    rewrite Hmk, Hex. simpl. rewrite Hren. by eexists.
Qed.

Lemma apply_changes_counts_every_item_witness :
  (∀ i : nat, (λ _ : nat, false) i = false)
  ∧ (∃ st,
       apply_changes ({[sample_pdf]} : gset Path)
         [sample_item sample_pdf ok (lit "already good name") false;
          sample_item (mkPath [lit "papers"] (lit "new.pdf")) rename (lit "ready") true]
         false true (λ _, false) = Some st
       ∧ renamed st + skipped st = 2).
Proof.
  split; [done|].
  apply (apply_changes_counts_every_item ({[sample_pdf]} : gset Path)
           [sample_item sample_pdf ok (lit "already good name") false;
            sample_item (mkPath [lit "papers"] (lit "new.pdf")) rename (lit "ready") true]
           false true (λ _, false)).
  done.
Defined.

Example apply_changes_sample :
  (λ st, (renamed st, skipped st, fs_now st, fs_ops st, logged st))
  <$> apply_changes ({[sample_pdf]} : gset Path)
        [sample_item sample_pdf ok (lit "already good name") false;
         sample_item (mkPath [lit "papers"] (lit "new.pdf")) rename (lit "ready") true;
         mkItem (mkPath [lit "papers"] (lit "gone.pdf")) (lit "gone.pdf")
           (Some (mkPath [lit "papers"] (lit "x.pdf"))) None
           (Some (lit "Some Title")) None rename (lit "ready") true]
        false true (λ _, false)
  = Some (1, 2, {[mkPath [lit "papers"] (lit "new.pdf")]},
          [OpMkdir [lit "papers"];
           OpExists (mkPath [lit "papers"] (lit "new.pdf"));
           OpRename sample_pdf (mkPath [lit "papers"] (lit "new.pdf"));
           OpMkdir [lit "papers"];
           OpExists (mkPath [lit "papers"] (lit "x.pdf"));
           OpRename (mkPath [lit "papers"] (lit "gone.pdf"))
             (mkPath [lit "papers"] (lit "x.pdf"))],
          [lit "[OK] 2020 - A Study of Widgets.pdf -> new.pdf";
           lit "[FAIL] gone.pdf: No such file or directory"]).
Proof. vm_compute. reflexivity. Qed.

(** ** A file that already has its name *)



(** In a run, the items for which a title was resolved are those with
    status [ok] or [rename]; among them the items whose target has the
    current name of the file are exactly the [ok] items, which have
    [apply] false and are passed over by the engine. *)
Lemma same_name_items_of_run `{UnicodeDB} (env : Env) (cfg : Config)
    (pdfs : list Path) :
  ∃ its,
    compute_preview env cfg pdfs = Some its
    ∧ ∀ it, it ∈ its → is_Some (title it) →
        ∃ np, new_path it = Some np
          ∧ (name np = old_name it ↔ status it = ok)
          ∧ (status it = ok → slated it = false).
Proof.
  unfold compute_preview.
  destruct (preview_loop_total env cfg pdfs 1 plan_init) as [st Hrun].
  exists (items st). split; [unfold plan_run; by rewrite Hrun|].
  intros it Hit Htitle.
  pose proof (plan_run_shape env cfg pdfs st Hrun) as Hall.
  rewrite Forall_forall in Hall.
  destruct (Hall it Hit) as (_ & _ & Happly & Hok & Hren & Ht & _).
  apply Ht in Htitle as [Hs|Hs].
  - destruct (Hok Hs) as (np & Hnp & Hname). exists np. split_and!; [done..|].
    intros _. unfold slated. destruct (apply it); [|done].
    destruct Happly as [Happly _]. destruct (Happly eq_refl); congruence.
  - destruct (Hren Hs) as (np & Hnp & Hname). exists np. split_and!; [done| |].
    + split; [done|]. intros Hok'. congruence.
    + intros Hok'. congruence.
Qed.

(** In a directory that can be listed the file's own name is among the
    names reserved, so a candidate name equal to the current name is
    never the candidate path: the path is given the next free name. *)
Lemma own_name_is_reserved (path : Path) (reserved : gset (list N)) p reserved' :
  name path ∈ reserved →
  unique_path_with_reserved path reserved = Some (p, reserved') →
  name p ≠ name path.
Proof.
  intros Hin (_ & Hfree & _)%unique_path_with_reserved_spec Heq.
  by rewrite Heq in Hfree.
Qed.

(** ** Command line *)

(** C9 (as stated) fails: when the folder argument is left out, [main]
    starts the window and the process ends with status 0 and without a
    message. *)
Lemma missing_folder_starts_gui :
  tk_available sample_host = true
  ∧ @main ascii_db (gset Path) set_fs sample_host ∅ (sample_args None)
    = Some GuiClosed
  ∧ @exit_status (gset Path) GuiClosed = 0%Z
  ∧ ¬ ∃ message,
        @main ascii_db (gset Path) set_fs sample_host ∅ (sample_args None)
        = Some (SystemExit message).
Proof.
  split; [done|]. split; [vm_compute; reflexivity|]. split; [done|].
  intros [message Hmain]. vm_compute in Hmain. discriminate.
Qed.

(** Without [tkinter] the module does not load: whatever the arguments,
    the process ends with the traceback of the [AttributeError] and
    status 1, and neither [run_gui] nor [run_cli] is reached. *)
Lemma main_without_tkinter `{UnicodeDB} {FS : Type} `{FileSystem FS}
    (host : Host) (fs : FS) (args : Args) :
  tk_available host = false →
  main host fs args
  = Some (Uncaught (lit "AttributeError: 'NoneType' object has no attribute 'Tk'"))
  ∧ ∀ o, main host fs args = Some o → exit_status o = 1%Z.
Proof.
  intros Htk. unfold main, load_module. rewrite Htk. split; [done|].
  by intros o [= <-].
Qed.

(** An exception of [expanduser] or [resolve], or of the test whether
    the folder is a directory, is not caught: the process ends with its
    traceback and status 1, before the planner is run. *)
Lemma unresolved_folder_is_uncaught `{UnicodeDB} {FS : Type} `{FileSystem FS}
    (host : Host) (fs : FS) (args : Args) (folder_arg e : list N) :
  tk_available host = true →
  args_gui args = false →
  args_folder args = Some folder_arg →
  folder_arg ≠ [] →
  resolve_folder host folder_arg = inl e
  ∨ (∃ folder, resolve_folder host folder_arg = inr folder
               ∧ is_directory host folder = inl e) →
  main host fs args = Some (Uncaught e)
  ∧ exit_status (@Uncaught FS e) = 1%Z.
Proof.
  intros Htk Hgui Hfolder Hne Hraise. split; [|done].
  unfold main, load_module, run_cli. rewrite Htk, Hgui, Hfolder.
  assert (str_truthy (Some folder_arg) = true) as -> by (by destruct folder_arg).
  cbn [orb negb].
  destruct Hraise as [->|(folder & -> & ->)]; done.
Qed.

(** C9 (amended). On a host where [tkinter] is imported, so that the
    module loads: when a non-empty folder argument is given, [--gui] is
    not, the folder is resolved and does not name a directory, [main]
    raises [SystemExit] with the message that the folder was not found, so
    the process ends with status 1, and neither the planner nor the engine
    is run.  When the folder argument is left out or empty, or [--gui] is
    given, [main] calls [run_gui] instead, whatever the folder, and the
    process ends with status 0 once the window has opened and is closed. *)
Theorem bad_folder_exits `{UnicodeDB} {FS : Type} `{FileSystem FS}
    (host : Host) (fs : FS) :
  tk_available host = true →
  (∀ args folder_arg folder,
     args_gui args = false →
     args_folder args = Some folder_arg →
     folder_arg ≠ [] →
     resolve_folder host folder_arg = inr folder →
     is_directory host folder = inr false →
     main host fs args
     = Some (SystemExit (lit "Folder not found: " ++ folder_text host folder))
     ∧ ∀ o, main host fs args = Some o → exit_status o = 1%Z)
  ∧ (∀ args,
       args_gui args = true ∨ str_truthy (args_folder args) = false →
       main host fs args = Some (run_gui host)
       ∧ (tk_root host = None →
          main host fs args = Some GuiClosed
          ∧ ∀ o, main host fs args = Some o → exit_status o = 0%Z)).
Proof.
  intros Htk. split.
  - intros args folder_arg folder Hgui Hfolder Hne Hres Hdir.
    assert (main host fs args
            = Some (SystemExit
                      (lit "Folder not found: " ++ folder_text host folder)))
      as Hmain.
    { unfold main, load_module, run_cli. rewrite Htk, Hgui, Hfolder, Hres, Hdir.
      by destruct folder_arg. }
    split; [done|]. intros o. rewrite Hmain. by intros [= <-].
  - intros args Hargs.
    assert (main host fs args = Some (run_gui host)) as Hmain.
    { unfold main, load_module. rewrite Htk.
      destruct Hargs as [->|Hno]; [done|].
      rewrite Hno. by rewrite orb_true_r. }
    split; [done|]. intros Hroot. rewrite Hmain. unfold run_gui.
    rewrite Htk, Hroot. split; [done|]. by intros o [= <-].
Qed.

Lemma bad_folder_exits_witness :
  tk_available sample_host = true
  ∧ resolve_folder sample_host (lit "nowhere")
    = inr [lit "home"; lit "user"; lit "nowhere"]
  ∧ is_directory sample_host [lit "home"; lit "user"; lit "nowhere"] = inr false
  ∧ @main ascii_db (gset Path) set_fs sample_host ∅
      (sample_args (Some (lit "nowhere")))
    = Some (SystemExit (lit "Folder not found: /home/user/nowhere"))
  ∧ @main ascii_db (gset Path) set_fs sample_host ∅ (sample_args (Some []))
    = Some GuiClosed.
Proof.
  split; [reflexivity|]. split; [reflexivity|]. split; [reflexivity|].
  destruct (@bad_folder_exits ascii_db (gset Path) set_fs sample_host ∅ eq_refl)
    as [Hcli Hgui].
  split.
  - apply (Hcli (sample_args (Some (lit "nowhere"))) (lit "nowhere")
             [lit "home"; lit "user"; lit "nowhere"]).
    + reflexivity.
    + reflexivity.
    + vm_compute. discriminate.
    + reflexivity.
    + reflexivity.
  - apply (Hgui (sample_args (Some []))); [by right | reflexivity].
Defined.

(** * Further properties *)

(** ** Name Builder: what sanitization returns *)

Lemma strip_prefix_suffix (s : str) :
  ∃ k1 k2, s = k1 ++ strip s ++ k2.
Proof.
  unfold strip.
  destruct (lstrip_by_suffix is_space s) as [k1 Hk1].
  destruct (rstrip_by_prefix is_space (lstrip_by is_space s)) as [k2 Hk2].
  exists k1, k2. by rewrite <- Hk2.
Qed.

Lemma strip_Forall (P : N → Prop) (s : str) : Forall P s → Forall P (strip s).
Proof.
  destruct (strip_prefix_suffix s) as (k1 & k2 & Hs). intros Hall.
  rewrite Hs in Hall. by apply Forall_app in Hall as [_ [? _]%Forall_app].
Qed.

Lemma strip_head_not (s : str) : head_not is_space (strip s).
Proof.
  unfold strip. eapply head_not_prefix; [apply rstrip_by_prefix|].
  apply lstrip_by_head_not.
Qed.

Lemma strip_last_not (s : str) : head_not is_space (reverse (strip s)).
Proof. apply rstrip_by_last_not. Qed.

Lemma strip_idempotent (s : str) : strip (strip s) = strip s.
Proof.
  unfold strip at 1. rewrite (lstrip_by_id _ _ (strip_head_not s)).
  apply rstrip_by_id, strip_last_not.
Qed.

(** The characters of a sanitized name are valid and not NUL. *)
Lemma sanitize_filename_chars (x : str) :
  Forall (λ c, char_in INVALID_CHARS c = false ∧ c ≠ 0%N) (sanitize_filename x).
Proof.
  unfold sanitize_filename.
  set (s3 := strip (rstrip_by _ (translate_invalid (strip (sub_ws false x))))).
  assert (Forall (λ c, char_in INVALID_CHARS c = false ∧ c ≠ 0%N)
            (strip (remove_nul s3))) as Hall.
  { apply strip_Forall. unfold remove_nul. apply Forall_forall.
    intros c [Hc Hin]%list_elem_of_filter. split; [|done].
    assert (Forall (λ c, char_in INVALID_CHARS c = false) s3) as Hs3.
    { apply strip_Forall. eapply Forall_prefix; [apply rstrip_by_prefix|].
      apply translate_invalid_valid. }
    rewrite Forall_forall in Hs3. by apply Hs3. }
  destruct (strip (remove_nul s3)) as [|c s4]; [|done].
  apply Forall_forall. intros c Hc. vm_compute in Hc.
  repeat (apply elem_of_cons in Hc as [->|Hc]; [by vm_compute|]).
  by apply elem_of_nil in Hc.
Qed.

(** A sanitized name starts with a character that is not whitespace. *)
Lemma sanitize_filename_head (x : str) :
  ∃ c s, sanitize_filename x = c :: s ∧ is_space c = false.
Proof.
  unfold sanitize_filename.
  set (s3 := strip (rstrip_by _ (translate_invalid (strip (sub_ws false x))))).
  pose proof (strip_head_not (remove_nul s3)) as Hh.
  destruct (strip (remove_nul s3)) as [|c s4]; [|by exists c, s4].
  eexists _, _. split; [vm_compute; reflexivity | done].
Qed.

(** X1. Whatever the title, the sanitized name is not empty, holds none
    of the invalid characters and no NUL character, and neither starts
    nor ends with whitespace. *)
Theorem sanitize_filename_output (x : list N) :
  sanitize_filename x ≠ []
  ∧ Forall (λ c, char_in INVALID_CHARS c = false ∧ c ≠ 0%N) (sanitize_filename x)
  ∧ head_not is_space (sanitize_filename x)
  ∧ head_not is_space (reverse (sanitize_filename x)).
Proof.
  destruct (sanitize_filename_head x) as (c & s & Hcs & Hc).
  split; [by rewrite Hcs|]. split; [apply sanitize_filename_chars|].
  split; [by rewrite Hcs|].
  unfold sanitize_filename.
  set (s3 := strip (rstrip_by _ (translate_invalid (strip (sub_ws false x))))).
  pose proof (strip_last_not (remove_nul s3)) as Hl.
  destruct (strip (remove_nul s3)) as [|c' s4]; [by vm_compute | done].
Qed.

Lemma clean_untitled : clean (lit "untitled").
Proof.
  unfold clean. split_and!; try (by vm_compute).
  - apply Forall_forall. intros c Hc. vm_compute in Hc.
    repeat (apply elem_of_cons in Hc as [->|Hc]; [by vm_compute|]).
    by apply elem_of_nil in Hc.
  - apply Forall_forall. intros c Hc. vm_compute in Hc.
    repeat (apply elem_of_cons in Hc as [->|Hc]; [done|]).
    by apply elem_of_nil in Hc.
Qed.

(** X2. On a title without NUL characters a second sanitization changes
    nothing. *)
Theorem sanitize_filename_idempotent_on_text (x : list N) :
  Forall (λ c, c ≠ 0%N) x →
  sanitize_filename (sanitize_filename x) = sanitize_filename x.
Proof.
  intros [->|[Hclean Hne]]%sanitize_filename_result.
  - vm_compute. reflexivity.
  - by apply sanitize_filename_clean.
Qed.

Lemma sanitize_filename_idempotent_on_text_witness :
  Forall (λ c, c ≠ 0%N) (lit "  A  Study: of/Widgets. . ")
  ∧ sanitize_filename (sanitize_filename (lit "  A  Study: of/Widgets. . "))
    = sanitize_filename (lit "  A  Study: of/Widgets. . ").
Proof.
  assert (Forall (λ c, c ≠ 0%N) (lit "  A  Study: of/Widgets. . ")) as Hnul.
  { apply Forall_forall. intros c Hc. vm_compute in Hc.
    repeat (apply elem_of_cons in Hc as [->|Hc]; [done|]).
    by apply elem_of_nil in Hc. }
  split; [done|].
  apply (sanitize_filename_idempotent_on_text (lit "  A  Study: of/Widgets. . ")).
  done.
Defined.

(** X3. On a title without NUL characters the sanitized name is in normal
    form: its whitespace is single spaces between other characters, and
    it does not end with a dot. *)
Theorem sanitize_filename_normal_form (x : list N) :
  Forall (λ c, c ≠ 0%N) x →
  collapsed false (sanitize_filename x)
  ∧ head_not (char_in (lit ". ")) (reverse (sanitize_filename x))
  ∧ sub_ws false (sanitize_filename x) = sanitize_filename x
  ∧ rstrip_by (char_in (lit ". ")) (sanitize_filename x) = sanitize_filename x.
Proof.
  intros Hnul.
  assert (clean (sanitize_filename x)) as Hclean.
  { destruct (sanitize_filename_result x Hnul) as [->|[? _]];
      [apply clean_untitled | done]. }
  destruct Hclean as (Hc & _ & Hl & _).
  split_and!; [done | done | by apply collapsed_fixed | by apply rstrip_by_id].
Qed.

Lemma sanitize_filename_normal_form_witness :
  Forall (λ c, c ≠ 0%N) (lit "a.  b. ")
  ∧ collapsed false (sanitize_filename (lit "a.  b. "))
  ∧ head_not (char_in (lit ". ")) (reverse (sanitize_filename (lit "a.  b. ")))
  ∧ sub_ws false (sanitize_filename (lit "a.  b. ")) = sanitize_filename (lit "a.  b. ")
  ∧ rstrip_by (char_in (lit ". ")) (sanitize_filename (lit "a.  b. "))
    = sanitize_filename (lit "a.  b. ").
Proof.
  assert (Forall (λ c, c ≠ 0%N) (lit "a.  b. ")) as Hnul.
  { apply Forall_forall. intros c Hc. vm_compute in Hc.
    repeat (apply elem_of_cons in Hc as [->|Hc]; [done|]).
    by apply elem_of_nil in Hc. }
  split; [done|].
  apply (sanitize_filename_normal_form (lit "a.  b. ")). done.
Defined.

(** ** Name Builder: clamping and new names *)

Lemma lstrip_by_nonempty p (s : str) c :
  c ∈ s → p c = false → lstrip_by p s ≠ [].
Proof.
  induction s as [|x s IH]; [by intros ?%elem_of_nil|].
  intros [->|Hin]%elem_of_cons Hp; simpl.
  - by rewrite Hp.
  - destruct (p x); [by apply IH | done].
Qed.

Lemma rstrip_by_nonempty p (s : str) c :
  c ∈ s → p c = false → rstrip_by p s ≠ [].
Proof.
  intros Hin Hp Heq. unfold rstrip_by in Heq.
  apply (f_equal reverse) in Heq. rewrite reverse_involutive in Heq.
  revert Heq. apply (lstrip_by_nonempty p _ c); [|done].
  by apply elem_of_reverse.
Qed.

(** X4. The clamped name is a part of the stripped stem, without
    whitespace at its end, followed by the suffix; a stripped stem that
    fits is kept whole, and a stem that starts with a character other
    than whitespace never disappears. *)
Theorem clamp_filename_keeps_stem (stem suffix : list N) (max_len : Z) :
  ∃ kept,
    clamp_filename stem suffix max_len = kept ++ suffix
    ∧ kept `prefix_of` strip stem
    ∧ head_not is_space (reverse kept)
    ∧ ((Z.of_nat (length (strip stem))
        ≤ Z.max 1 (max_len - Z.of_nat (length suffix)))%Z → kept = strip stem)
    ∧ (strip stem ≠ [] → kept ≠ []).
Proof.
  unfold clamp_filename.
  set (m := Z.max 1 (max_len - Z.of_nat (length suffix))).
  destruct (Z.ltb_spec m (Z.of_nat (length (strip stem)))) as [Hlt|Hle].
  - exists (rstrip (take (Z.to_nat m) (strip stem))). split_and!; [done| | |lia|].
    + etrans; [apply rstrip_by_prefix|]. apply prefix_take.
    + apply rstrip_by_last_not.
    + intros Hne. pose proof (strip_head_not stem) as Hh.
      destruct (strip stem) as [|c s] eqn:Hs; [done|]. simpl in Hh.
      destruct (Z.to_nat m) as [|n] eqn:Hm; [lia|]. simpl.
      apply (rstrip_by_nonempty is_space _ c); [apply list_elem_of_here | done].
  - exists (strip stem). split_and!; [done | done | apply strip_last_not | done | done].
Qed.

(** The characters that a formatted year consists of. *)
Lemma pretty_N_go_chars (P : N → Prop) x s :
  (∀ d, (d < 10)%N → P (N_of_ascii (pretty_N_char d))) →
  Forall P (lit s) → Forall P (lit (pretty_N_go x s)).
Proof.
  intros Hdigit. revert s. induction (N.lt_wf_0 x) as [x _ IH]; intros s Hs.
  assert (x = 0 ∨ 0 < x)%N as [->|Hpos] by lia.
  - by rewrite pretty_N_go_0.
  - rewrite pretty_N_go_step by done. apply IH.
    + by apply N.div_lt.
    + unfold lit. simpl. constructor; [|done].
      apply Hdigit. by apply N.mod_lt.
Qed.

Lemma int_format_chars (P : N → Prop) (y : pyint) :
  (∀ c, c ∈ lit "-0123456789TrueFals" → P c) → Forall P (int_format y).
Proof.
  intros HP.
  assert (∀ d, (d < 10)%N → P (N_of_ascii (pretty_N_char d))) as Hdigit.
  { intros d Hd. apply HP.
    assert (d = 0 ∨ d = 1 ∨ d = 2 ∨ d = 3 ∨ d = 4 ∨ d = 5 ∨ d = 6 ∨ d = 7
            ∨ d = 8 ∨ d = 9)%N as Hcases by lia.
    repeat destruct Hcases as [->|Hcases]; try subst d; vm_compute;
      repeat (first [apply list_elem_of_here | apply list_elem_of_further]). }
  assert (∀ x : N, Forall P (lit (pretty x))) as HN.
  { intros x. unfold pretty, pretty_N. case_decide.
    - apply Forall_forall. intros c Hc. apply HP. vm_compute in Hc.
      apply list_elem_of_singleton in Hc as ->. vm_compute.
      repeat (first [apply list_elem_of_here | apply list_elem_of_further]).
    - apply pretty_N_go_chars; [done|]. constructor. }
  destruct y as [[|p|p]|[|]]; simpl.
  - apply (HN 0%N).
  - apply (HN (Npos p)).
  - change (lit (pretty (Z.neg p)))
      with (N_of_ascii "-"%char :: lit (pretty (Npos p))).
    constructor; [|apply (HN (Npos p))]. apply HP. vm_compute. apply list_elem_of_here.
  - apply Forall_forall. intros c Hc. apply HP. vm_compute in Hc. vm_compute.
    repeat (apply elem_of_cons in Hc as [->|Hc];
      [repeat (first [apply list_elem_of_here | apply list_elem_of_further])|]).
    by apply elem_of_nil in Hc.
  - apply Forall_forall. intros c Hc. apply HP. vm_compute in Hc. vm_compute.
    repeat (apply elem_of_cons in Hc as [->|Hc];
      [repeat (first [apply list_elem_of_here | apply list_elem_of_further])|]).
    by apply elem_of_nil in Hc.
Qed.

Lemma strip_nonempty (s : str) c : c ∈ s → is_space c = false → strip s ≠ [].
Proof.
  intros Hin Hc. unfold strip.
  pose proof (lstrip_by_nonempty is_space s c Hin Hc) as Hne.
  pose proof (lstrip_by_head_not is_space s) as Hh.
  destruct (lstrip_by is_space s) as [|x l]; [done|]. simpl in Hh.
  apply (rstrip_by_nonempty is_space _ x); [apply list_elem_of_here | done].
Qed.

Lemma clamp_filename_kept (stem suffix : str) max_len :
  strip stem ≠ [] →
  ∃ kept,
    clamp_filename stem suffix max_len = kept ++ suffix
    ∧ kept `prefix_of` strip stem ∧ kept ≠ [].
Proof.
  intros Hne. unfold clamp_filename.
  set (m := Z.max 1 (max_len - Z.of_nat (length suffix))).
  destruct (m <? Z.of_nat (length (strip stem)))%Z; [|by exists (strip stem)].
  exists (rstrip (take (Z.to_nat m) (strip stem))). split_and!; [done| |].
  - etrans; [apply rstrip_by_prefix|]. apply prefix_take.
  - pose proof (strip_head_not stem) as Hh.
    destruct (strip stem) as [|c s] eqn:Hs; [done|]. simpl in Hh.
    destruct (Z.to_nat m) as [|n] eqn:Hm; [lia|]. simpl.
    apply (rstrip_by_nonempty is_space _ c); [apply list_elem_of_here | done].
Qed.

Lemma rfind_app c (s t : str) :
  rfind c (s ++ t)
  = match rfind c t with
    | Some i => Some (length s + i)
    | None => rfind c s
    end.
Proof.
  induction s as [|x s IH]; simpl; [by destruct (rfind c t)|].
  rewrite IH. by destruct (rfind c t).
Qed.

(** A name with a non-empty stem before [.pdf] splits at that dot. *)
Lemma path_suffix_pdf (kept : str) :
  kept ≠ [] →
  path_suffix (kept ++ lit ".pdf") = lit ".pdf"
  ∧ path_stem (kept ++ lit ".pdf") = kept.
Proof.
  intros Hne. unfold path_suffix, path_stem, suffix_index.
  rewrite rfind_app. change (rfind 46%N (lit ".pdf")) with (Some 0).
  cbv beta iota. rewrite Nat.add_0_r, length_app.
  change (length (lit ".pdf")) with 4.
  assert (0 < length kept) as Hlen by (destruct kept; [done | simpl; lia]).
  destruct (Nat.ltb_spec 0 (length kept)); [|lia].
  destruct (Nat.ltb_spec (length kept) (length kept + 4 - 1)); [|lia]. simpl.
  by rewrite drop_app_length, take_app_length.
Qed.

(** The characters of a stem built from a title and a year. *)
Lemma build_new_stem_chars (t : str) y style :
  Forall (λ c, char_in INVALID_CHARS c = false ∧ c ≠ 0%N) (build_new_stem t y style).
Proof.
  assert (∀ c, c ∈ lit "-0123456789TrueFals ()" →
            char_in INVALID_CHARS c = false ∧ c ≠ 0%N) as Hlit.
  { intros c Hc. vm_compute in Hc.
    repeat (apply elem_of_cons in Hc as [->|Hc]; [by vm_compute|]).
    by apply elem_of_nil in Hc. }
  assert (∀ l : str, (∀ c, c ∈ l → c ∈ lit "-0123456789TrueFals ()") →
            Forall (λ c, char_in INVALID_CHARS c = false ∧ c ≠ 0%N) l) as Hl.
  { intros l Hin. apply Forall_forall. intros c Hc. by apply Hlit, Hin. }
  assert (∀ y', Forall (λ c, char_in INVALID_CHARS c = false ∧ c ≠ 0%N)
                  (int_format y')) as Hy.
  { intros y'. apply int_format_chars. intros c Hc. apply Hlit.
    vm_compute in Hc. vm_compute.
    repeat (apply elem_of_cons in Hc as [->|Hc];
      [repeat (first [apply list_elem_of_here | apply list_elem_of_further])|]).
    by apply elem_of_nil in Hc. }
  pose proof (sanitize_filename_chars t) as Ht.
  unfold build_new_stem. destruct y as [y|]; [|done].
  destruct (int_truthy y); [|done].
  case_decide; repeat (apply Forall_app; split); try done; apply Hl; intros c Hc;
    vm_compute in Hc; vm_compute;
    repeat (apply elem_of_cons in Hc as [->|Hc];
      [repeat (first [apply list_elem_of_here | apply list_elem_of_further])|]);
    by apply elem_of_nil in Hc.
Qed.

Lemma build_new_stem_strip (t : str) y style :
  strip (build_new_stem t y style) ≠ [].
Proof.
  destruct (sanitize_filename_head t) as (c & s & Hcs & Hc).
  apply (strip_nonempty _ c); [|done].
  unfold build_new_stem. rewrite Hcs.
  destruct y as [y|]; [|apply list_elem_of_here].
  destruct (int_truthy y); [|apply list_elem_of_here].
  case_decide; rewrite !elem_of_app, elem_of_cons; auto.
Qed.

(** X5. The file name that the planner builds from a title and a year is
    a non-empty stem followed by [.pdf]; it holds no path separator, no
    other invalid character and no NUL character, so [with_name] accepts
    it; and [stem] and [suffix] split it at the dot of [.pdf]. *)
Theorem new_name_is_a_file_name (t : list N) (y : option pyint)
    (style : list N) (max_len : Z) :
  ∃ kept,
    clamp_filename (build_new_stem t y style) (lit ".pdf") max_len
    = kept ++ lit ".pdf"
    ∧ kept ≠ []
    ∧ Forall (λ c, char_in INVALID_CHARS c = false ∧ c ≠ 0%N) (kept ++ lit ".pdf")
    ∧ path_suffix (kept ++ lit ".pdf") = lit ".pdf"
    ∧ path_stem (kept ++ lit ".pdf") = kept.
Proof.
  destruct (clamp_filename_kept (build_new_stem t y style) (lit ".pdf") max_len
              (build_new_stem_strip t y style)) as (kept & Hclamp & Hpre & Hne).
  exists kept. destruct (path_suffix_pdf kept Hne) as [Hsuf Hstem].
  split_and!; [done | done | | done | done].
  apply Forall_app. split.
  - eapply Forall_prefix; [done|]. apply strip_Forall, build_new_stem_chars.
  - apply Forall_forall. intros c Hc. vm_compute in Hc.
    repeat (apply elem_of_cons in Hc as [->|Hc]; [by vm_compute|]).
    by apply elem_of_nil in Hc.
Qed.

(** ** Name Builder: reserving a name *)

(** X6. [unique_path_with_reserved] always returns: the path stays in its
    directory, its name was not reserved before and is the one name added
    to the set; a free name is kept as it is, and a taken name gets the
    smallest number from 2 on whose numbered name is free. *)
Theorem unique_path_with_reserved_least (path : Path) (reserved : gset (list N)) :
  ∃ p reserved',
    unique_path_with_reserved path reserved = Some (p, reserved')
    ∧ parent p = parent path
    ∧ (name p ∉ reserved)
    ∧ reserved' = {[name p]} ∪ reserved
    ∧ size reserved' = S (size reserved)
    ∧ (name path ∉ reserved → p = path)
    ∧ (name path ∈ reserved →
       ∃ i, 2 ≤ i
         ∧ name p = numbered (path_stem (name path)) (path_suffix (name path)) i
         ∧ ∀ j, 2 ≤ j < i →
             numbered (path_stem (name path)) (path_suffix (name path)) j
             ∈ reserved).
Proof.
  destruct (unique_path_with_reserved_total path reserved) as [[p reserved'] Hu].
  exists p, reserved'. split; [done|].
  pose proof Hu as (Hparent & Hfree & -> & Hsame)%unique_path_with_reserved_spec.
  split_and!; [done | done | done | | done |].
  - rewrite size_union by set_solver. by rewrite size_singleton.
  - intros Hin. unfold unique_path_with_reserved in Hu.
    rewrite decide_True in Hu by done.
    destruct (first_unreserved _ _ _ _ _) as [n|] eqn:Hfirst; [|done].
    injection Hu as <- _.
    apply first_unreserved_Some in Hfirst as (k & _ & -> & _ & Hbelow).
    exists (2 + k). split_and!; [lia | done |].
    intros j Hj. replace j with (2 + (j - 2)) by lia. apply Hbelow. lia.
Qed.

(** ** Heuristic Parser: range of the year *)

Lemma year_at_range `{UnicodeDB} (text : str) i y :
  year_at text i y → (1900 ≤ y ≤ 2099)%Z.
Proof.
  intros (a & b & c & d & _ & _ & _ & _ & Hab & Hc & Hd & _ & _ & ->).
  unfold is_digit in Hc, Hd.
  destruct (uni_decimal c) as [dc|] eqn:Hdc; [|done].
  destruct (uni_decimal d) as [dd|] eqn:Hdd; [|done].
  apply uni_decimal_lt in Hdc as Hltc. apply uni_decimal_lt in Hdd as Hltd.
  unfold py_int. simpl. rewrite Hdc, Hdd. simpl.
  destruct Hab as [[-> ->]|[-> ->]].
  - rewrite (uni_decimal_ascii 49), (uni_decimal_ascii 57) by lia. simpl. lia.
  - rewrite (uni_decimal_ascii 50), (uni_decimal_ascii 48) by lia. simpl. lia.
Qed.

(** X7. A year extracted from a text lies between 1900 and 2099 and is at
    most the year after the current one; so it always counts as true
    where the planner tests it, the bound 1800 of the source excludes
    nothing, and before 1899 no year is extracted at all. *)
Theorem extract_year_from_text_range `{UnicodeDB} (current_year : Z)
    (text : list N) :
  (∀ y, extract_year_from_text current_year text = Some y →
     (1900 ≤ y ≤ 2099)%Z ∧ (y ≤ current_year + 1)%Z
     ∧ year_truthy (Some (PyInt y)) = true)
  ∧ ((current_year < 1899)%Z → extract_year_from_text current_year text = None).
Proof.
  rewrite extract_year_from_text_unfold.
  set (kept := filter _ _).
  assert (∀ y, y ∈ kept → (1900 ≤ y ≤ 2099)%Z ∧ (y ≤ current_year + 1)%Z) as Hkept.
  { intros y [[_ Hle] [i Hat]%year_findall_year_at]%list_elem_of_filter.
    split; [by eapply year_at_range | done]. }
  destruct kept as [|y0 ys].
  - split; [done|]. done.
  - destruct (max_of_spec y0 ys) as [Hin _]. apply Hkept in Hin as [Hr Hle].
    split.
    + intros y [= <-]. split_and!; try lia. simpl.
      destruct (Z.eqb_spec (max_of y0 ys) 0); [lia | done].
    + intros Hcy. lia.
Qed.

Example extract_year_future :
  @extract_year_from_text ascii_db 2026 (lit "due 2030, printed 2027, (c) 2099") = Some 2027%Z.
Proof. vm_compute. reflexivity. Qed.

(** ** Heuristic Parser: shape of the DOI *)

Section DoiProps.
Context `{UnicodeDB}.

Lemma leading_spec p limit (s : str) :
  leading p limit s ≤ limit
  ∧ Forall (λ c, p c = true) (take (leading p limit s) s).
Proof.
  revert s. induction limit as [|l IH]; intros s; simpl.
  { split; [lia|]. by rewrite take_0. }
  destruct s as [|c s]; [split; [lia | constructor]|].
  destruct (p c) eqn:Hp; [|split; [lia | constructor]].
  destruct (IH s) as [Hle Hall]. split; [lia|]. simpl. by constructor.
Qed.

Lemma take_while_spec p (s : str) :
  Forall (λ c, p c = true) (take_while p s)
  ∧ ∃ k, s = take_while p s ++ k.
Proof.
  induction s as [|c s [Hall [k Hk]]]; simpl; [split; [constructor | by exists []]|].
  destruct (p c) eqn:Hp; [|split; [constructor | by eexists]].
  split; [by constructor|]. exists k. simpl. by rewrite <- Hk.
Qed.

Lemma doi_tail_eq rest j :
  doi_tail rest j
  = match
      (if 4 <=? j
       then
         match drop j rest with
         | 47%N :: tl =>
             match length (take_while doi_class tl) with
             | 0 => None
             | S r => Some (j + 1 + S r)
             end
         | _ => None
         end
       else None)
    with
    | Some n => Some n
    | None => match j with S j' => doi_tail rest j' | 0 => None end
    end.
Proof. by destruct j. Qed.

Lemma doi_tail_Some rest j0 n :
  doi_tail rest j0 = Some n →
  ∃ j tl, j ≤ j0 ∧ 4 ≤ j ∧ drop j rest = 47%N :: tl
    ∧ take_while doi_class tl ≠ []
    ∧ n = j + 1 + length (take_while doi_class tl).
Proof.
  induction j0 as [|j0 IH]; rewrite doi_tail_eq.
  { by destruct (drop 0 rest). }
  assert (doi_tail rest j0 = Some n →
          ∃ j tl, j ≤ S j0 ∧ 4 ≤ j ∧ drop j rest = 47%N :: tl
            ∧ take_while doi_class tl ≠ []
            ∧ n = j + 1 + length (take_while doi_class tl)) as Hrec.
  { intros (j & tl' & ? & ?)%IH. exists j, tl'. split; [lia | done]. }
  destruct (Nat.leb_spec 4 (S j0)) as [Hge|Hlt]; [|done].
  destruct (drop (S j0) rest) as [|c tl] eqn:Hdrop; [done|].
  destruct (decide (c = 47%N)) as [->|Hne].
  - destruct (take_while doi_class tl) as [|x r] eqn:Hrun; [done|].
    intros [= <-]. exists (S j0), tl. by rewrite Hrun.
  - destruct c as [|p]; [done|].
    do 6 (try (destruct p as [p|p|]; try done)).
Qed.

(** Case analysis on a character down to the depth of the literals of
    the pattern. *)
Ltac char_cases c :=
  destruct c as [|c]; [done|];
  do 6 (try (destruct c as [c|c|]; try done)).

Lemma doi_match_at_prefix (s : str) m :
  doi_match_at s = Some m →
  ∃ rest, s = 49%N :: 48%N :: 46%N :: rest
    ∧ doi_tail rest (leading is_digit 9 rest)
      ≫= (λ n, Some (take (3 + n) s)) = Some m.
Proof.
  unfold doi_match_at.
  destruct s as [|c1 s]; [done|].
  destruct (decide (c1 = 49%N)) as [->|H1]; [|char_cases c1].
  destruct s as [|c2 s]; [done|].
  destruct (decide (c2 = 48%N)) as [->|H2]; [|char_cases c2].
  destruct s as [|c3 s]; [done|].
  destruct (decide (c3 = 46%N)) as [->|H3]; [|char_cases c3].
  intros Hm. by exists s.
Qed.

(** What a match of the pattern consists of. *)
Lemma doi_match_at_Some (s : str) m :
  doi_match_at s = Some m →
  ∃ ds run tail,
    s = lit "10." ++ ds ++ [47%N] ++ run ++ tail
    ∧ m = lit "10." ++ ds ++ [47%N] ++ run
    ∧ 4 ≤ length ds ≤ 9
    ∧ Forall (λ c, is_digit c = true) ds
    ∧ Forall (λ c, doi_class c = true) run
    ∧ run ≠ [].
Proof.
  intros (rest & -> & Hm)%doi_match_at_prefix. revert Hm.
  destruct (doi_tail rest (leading is_digit 9 rest)) as [n|] eqn:Htail; [|done].
  simpl. intros [= <-].
  apply doi_tail_Some in Htail as (j & tl & Hj & H4 & Hdrop & Hrun & ->).
  destruct (leading_spec is_digit 9 rest) as [H9 Hdigits].
  destruct (take_while_spec doi_class tl) as [Hclass [tail Htl]].
  assert (j < length rest) as Hlen.
  { destruct (decide (j < length rest)); [done|].
    rewrite drop_ge in Hdrop by lia. done. }
  assert (rest = take j rest ++ [47%N] ++ take_while doi_class tl ++ tail) as Hrest.
  { rewrite <- (take_drop j rest) at 1. rewrite Hdrop. simpl. by rewrite <- Htl. }
  exists (take j rest), (take_while doi_class tl), tail.
  split_and!; [by rewrite Hrest at 1 | | | | | done | done].
  - f_equal. f_equal. f_equal. rewrite Hrest at 1.
    rewrite take_app_ge by (rewrite length_take; lia).
    rewrite length_take, Nat.min_l by lia.
    replace (j + 1 + length (take_while doi_class tl) - j)
      with (S (length (take_while doi_class tl))) by lia.
    simpl. f_equal. f_equal. by rewrite take_app_length.
  - rewrite length_take. lia.
  - rewrite length_take. lia.
  - replace j with (min j (leading is_digit 9 rest)) by lia.
    rewrite <- take_take. by apply Forall_take.
Qed.

(** The search returns the match at the first position that has one. *)
Lemma doi_search_first (s : str) :
  match doi_search s with
  | Some m =>
      ∃ i, i < length s ∧ doi_match_at (drop i s) = Some m
        ∧ ∀ j, j < i → doi_match_at (drop j s) = None
  | None => ∀ j, doi_match_at (drop j s) = None
  end.
Proof.
  induction s as [|c s IH].
  { simpl. intros j. by rewrite drop_nil. }
  cbn [doi_search].
  destruct (doi_match_at (c :: s)) as [m|] eqn:Hm.
  - exists 0. split; [simpl; lia|]. split; [done | lia].
  - destruct (doi_search s) as [m|].
    + destruct IH as (i & Hi & Hmi & Hbefore). exists (S i).
      split; [simpl; lia|]. split; [done|].
      intros [|j] Hj; [done|]. apply Hbefore. lia.
    + intros [|j]; [done | apply IH].
Qed.

Lemma rstrip_by_keep p (a b : str) x :
  p x = false → rstrip_by p (a ++ [x] ++ b) = a ++ [x] ++ rstrip_by p b.
Proof.
  intros Hx. induction b as [|y b IH] using rev_ind.
  - change (rstrip_by p []) with (@nil N).
    rewrite !app_nil_r, rstrip_by_snoc. by rewrite Hx.
  - rewrite !app_assoc, !rstrip_by_snoc.
    destruct (p y); rewrite <- ?app_assoc; [exact IH | done].
Qed.

End DoiProps.

(** X8. A DOI extracted from a text is the prefix 10., four to nine
    digits, a slash and a possibly empty run of characters of the class
    that does not end in one of the characters . ) , ; and it stands in
    the text; it is never the empty string. *)
Theorem extract_doi_from_text_shape `{UnicodeDB} (text d : list N) :
  extract_doi_from_text text = Some d →
  ∃ ds rest k1 k2,
    d = lit "10." ++ ds ++ [47%N] ++ rest
    ∧ 4 ≤ length ds ≤ 9
    ∧ Forall (λ c, is_digit c = true) ds
    ∧ Forall (λ c, doi_class c = true) rest
    ∧ head_not (char_in (lit ".),;")) (reverse rest)
    ∧ text = k1 ++ d ++ k2
    ∧ str_truthy (Some d) = true.
Proof.
  unfold extract_doi_from_text. destruct text as [|c0 text0]; [done|].
  set (text := c0 :: text0). pose proof (doi_search_first text) as Hfirst.
  destruct (doi_search text) as [m|]; [|done]. simpl. intros [= <-].
  destruct Hfirst as (i & _ & Hm & _).
  apply doi_match_at_Some in Hm
    as (ds & run & tail & Hdrop & -> & Hlen & Hds & Hrun & _).
  assert (rstrip_by (char_in (lit ".),;")) (lit "10." ++ ds ++ [47%N] ++ run)
          = lit "10." ++ ds ++ [47%N] ++ rstrip_by (char_in (lit ".),;")) run)
    as Hstrip.
  { rewrite (app_assoc (lit "10.") ds), rstrip_by_keep by done.
    by rewrite <- app_assoc. }
  rewrite Hstrip.
  destruct (rstrip_by_prefix (char_in (lit ".),;")) run) as [k Hk].
  exists ds, (rstrip_by (char_in (lit ".),;")) run), (take i text), (k ++ tail).
  split_and!; [done | lia | lia | done | | apply rstrip_by_last_not | | done].
  - eapply Forall_prefix; [by exists k | done].
  - rewrite <- (take_drop i text) at 1. f_equal. rewrite Hdrop.
    rewrite Hk at 1. by rewrite <- !app_assoc.
Qed.

Lemma extract_doi_from_text_shape_witness :
  @extract_doi_from_text ascii_db (lit "doi:10.1000/xyz.). and more")
  = Some (lit "10.1000/xyz")
  ∧ ∃ ds rest k1 k2,
      lit "10.1000/xyz" = lit "10." ++ ds ++ [47%N] ++ rest
      ∧ 4 ≤ length ds ≤ 9
      ∧ Forall (λ c, @is_digit ascii_db c = true) ds
      ∧ Forall (λ c, doi_class c = true) rest
      ∧ head_not (char_in (lit ".),;")) (reverse rest)
      ∧ lit "doi:10.1000/xyz.). and more" = k1 ++ lit "10.1000/xyz" ++ k2
      ∧ str_truthy (Some (lit "10.1000/xyz")) = true.
Proof.
  split; [vm_compute; reflexivity|].
  apply (@extract_doi_from_text_shape ascii_db (lit "doi:10.1000/xyz.). and more")
           (lit "10.1000/xyz")).
  vm_compute. reflexivity.
Defined.

(** The suffix of a DOI can be empty. *)
Example extract_doi_empty_suffix :
  @extract_doi_from_text ascii_db (lit "see 10.1234/. Then") = Some (lit "10.1234/").
Proof. vm_compute. reflexivity. Qed.

(** X9. The DOI extracted is the one of the first position of the text at
    which the pattern matches, with the trailing punctuation stripped;
    nothing is extracted exactly when the pattern matches nowhere, in
    particular from the empty text. *)
Theorem extract_doi_from_text_first `{UnicodeDB} (text : list N) :
  match extract_doi_from_text text with
  | Some d =>
      ∃ i m, i < length text
        ∧ doi_match_at (drop i text) = Some m
        ∧ d = rstrip_by (char_in (lit ".),;")) m
        ∧ ∀ j, j < i → doi_match_at (drop j text) = None
  | None => ∀ j, doi_match_at (drop j text) = None
  end.
Proof.
  unfold extract_doi_from_text. destruct text as [|c0 text0].
  { intros j. by rewrite drop_nil. }
  set (text := c0 :: text0). pose proof (doi_search_first text) as Hfirst.
  destruct (doi_search text) as [m|]; simpl; [|done].
  destruct Hfirst as (i & Hi & Hm & Hbefore). by exists i, m.
Qed.

Example extract_doi_two_dois :
  @extract_doi_from_text ascii_db (lit "10.12/x 10.5555/second; 10.1000/third")
  = Some (lit "10.5555/second").
Proof. vm_compute. reflexivity. Qed.

(** ** Bibliographic Resolver: answers of the registry *)

Lemma first_year_absent (kv : list (list N * json)) (keys : list (list N)) :
  (∀ k, k ∈ keys → json_truthy (assoc k kv) = false) →
  first_year (JObj kv) keys = Some None.
Proof.
  induction keys as [|key keys IH]; intros Hkeys; simpl; [done|].
  assert (py_or (assoc key kv) (JObj []) = JObj []) as ->.
  { pose proof (Hkeys key (list_elem_of_here _ _)) as Hf. unfold py_or.
    destruct (assoc key kv); [by rewrite Hf | done]. }
  simpl. apply IH. intros k Hk. by apply Hkeys, list_elem_of_further.
Qed.

(** X10. A response with a status other than 200 gives a pair of absent
    values whatever its body, and so does a response with status 200 whose
    document has no message, or a message in which the title and the four
    date fields are missing, null or empty: missing keys do not raise. *)
Theorem crossref_lookup_nothing_found :
  (∀ status_code body, status_code ≠ 200%Z →
     crossref_lookup (Response status_code body) = Some (None, None))
  ∧ (∀ top, assoc (lit "message") top = None →
       crossref_lookup (Response 200 (Some (JObj top))) = Some (None, None))
  ∧ (∀ top kv,
       assoc (lit "message") top = Some (JObj kv) →
       json_truthy (assoc (lit "title") kv) = false →
       (∀ k, k ∈ date_keys → json_truthy (assoc k kv) = false) →
       crossref_lookup (Response 200 (Some (JObj top))) = Some (None, None)).
Proof.
  split_and!.
  - intros status_code body Hne. simpl. by destruct (Z.eqb_spec status_code 200).
  - intros top Htop. simpl. rewrite Htop. by vm_compute.
  - intros top kv Htop Htitle Hdates.
    pose proof (first_year_absent kv date_keys Hdates) as Hyear.
    cbn -[first_year date_keys]. rewrite Htop. cbn -[first_year date_keys].
    assert (py_or (assoc (lit "title") kv) (JArr []) = JArr []) as ->.
    { unfold py_or. destruct (assoc (lit "title") kv); [by rewrite Htitle | done]. }
    cbn -[first_year date_keys]. by rewrite Hyear.
Qed.

(** X11. A title that the lookup returns has no whitespace around it; it
    can be empty, and then it does not count as a title. *)
Theorem crossref_lookup_title_stripped (r : http_result) (t : list N)
    (y : option pyint) :
  crossref_lookup r = Some (Some t, y) →
  strip t = t ∧ (t = [] → str_truthy (Some t) = false).
Proof.
  intros Hr. split; [|by intros ->].
  destruct r as [|status_code body]; [done|]. cbn -[first_year date_keys] in Hr.
  destruct (negb (status_code =? 200)%Z); [done|].
  destruct body as [doc|]; [|done]. cbn -[first_year date_keys] in Hr.
  destruct (py_get doc (lit "message")) as [message|]; [|done].
  cbn -[first_year date_keys] in Hr.
  destruct (py_get (default (JObj []) message) (lit "title")) as [tv|]; [|done].
  cbn -[first_year date_keys] in Hr.
  destruct (first_title (py_or tv (JArr []))) as [title|] eqn:Ht; [|done].
  cbn -[first_year date_keys] in Hr.
  destruct (first_year (default (JObj []) message) date_keys) as [year|]; [|done].
  injection Hr as -> _.
  unfold first_title in Ht. destruct (json_truthy _); [|done].
  destruct (py_or tv (JArr [])) as [| | | |s|l|kv]; try done.
  - destruct s as [|c s]; [done|]. injection Ht as <-. apply strip_idempotent.
  - destruct l as [|[| | | |s|l'|kv] l]; try done. injection Ht as <-.
    apply strip_idempotent.
Qed.

Lemma crossref_lookup_title_stripped_witness :
  crossref_lookup
    (Response 200
       (Some (JObj [(lit "message", JObj [(lit "title", JArr [JStr (lit "  ")])])])))
  = Some (Some [], None)
  ∧ strip (@nil N) = []
  ∧ ((@nil N) = [] → str_truthy (Some (@nil N)) = false).
Proof.
  split; [vm_compute; reflexivity|].
  apply (crossref_lookup_title_stripped
           (Response 200
              (Some (JObj [(lit "message",
                            JObj [(lit "title", JArr [JStr (lit "  ")])])])))
           [] None).
  vm_compute. reflexivity.
Defined.

(** X12. The year returned is that of the first of the fields issued,
    published-print, published-online and created, in this order, that
    holds one, when the fields before it are missing, null or empty; the
    fields behind it are not read, so a malformed one there does not
    raise. *)
Theorem first_year_priority (kv p : list (list N * json)) (k1 k2 : list (list N))
    (key : list N) (y : Z) (ys ps : list json) :
  (∀ k, k ∈ k1 → json_truthy (assoc k kv) = false) →
  assoc key kv = Some (JObj p) →
  assoc (lit "date-parts") p = Some (JArr (JArr (JInt y :: ys) :: ps)) →
  first_year (JObj kv) (k1 ++ key :: k2) = Some (Some (PyInt y)).
Proof.
  intros Hk1 Hkey Hparts. induction k1 as [|k k1 IH]; simpl.
  - rewrite Hkey. unfold py_or.
    assert (json_truthy (Some (JObj p)) = true) as -> by (by destruct p).
    simpl. by rewrite Hparts.
  - assert (py_or (assoc k kv) (JObj []) = JObj []) as ->.
    { pose proof (Hk1 k (list_elem_of_here _ _)) as Hf. unfold py_or.
      destruct (assoc k kv); [by rewrite Hf | done]. }
    simpl. apply IH. intros k' Hk'. by apply Hk1, list_elem_of_further.
Qed.

Lemma first_year_priority_witness :
  (∀ k, k ∈ [lit "issued"] →
     json_truthy
       (assoc k
          [(lit "issued", JNull);
           (lit "published-print",
            JObj [(lit "date-parts", JArr [JArr [JInt 2021; JInt 5]])]);
           (lit "created", JStr (lit "oops"))]) = false)
  ∧ first_year
      (JObj [(lit "issued", JNull);
             (lit "published-print",
              JObj [(lit "date-parts", JArr [JArr [JInt 2021; JInt 5]])]);
             (lit "created", JStr (lit "oops"))])
      ([lit "issued"] ++ lit "published-print"
         :: [lit "published-online"; lit "created"])
    = Some (Some (PyInt 2021)).
Proof.
  assert (∀ k, k ∈ [lit "issued"] →
     json_truthy
       (assoc k
          [(lit "issued", JNull);
           (lit "published-print",
            JObj [(lit "date-parts", JArr [JArr [JInt 2021; JInt 5]])]);
           (lit "created", JStr (lit "oops"))]) = false) as Hk1.
  { intros k ->%list_elem_of_singleton. vm_compute. reflexivity. }
  split; [done|].
  apply (first_year_priority
           [(lit "issued", JNull);
            (lit "published-print",
             JObj [(lit "date-parts", JArr [JArr [JInt 2021; JInt 5]])]);
            (lit "created", JStr (lit "oops"))]
           [(lit "date-parts", JArr [JArr [JInt 2021; JInt 5]])]
           [lit "issued"] [lit "published-online"; lit "created"]
           (lit "published-print") 2021 [JInt 5] []).
  - done.
  - vm_compute. reflexivity.
  - vm_compute. reflexivity.
Defined.

(** ** Preview Planner: the plan as a whole *)

Lemma files_reached_prefix cancelled idx pdfs :
  files_reached cancelled idx pdfs `prefix_of` pdfs.
Proof.
  revert idx. induction pdfs as [|f pdfs IH]; intros idx; simpl; [done|].
  destruct (cancelled idx); [apply prefix_nil | by apply prefix_cons].
Qed.

Lemma files_reached_all cancelled idx pdfs :
  (∀ i, cancelled i = false) → files_reached cancelled idx pdfs = pdfs.
Proof.
  intros Hnc. revert idx. induction pdfs as [|f pdfs IH]; intros idx; simpl; [done|].
  by rewrite Hnc, IH.
Qed.

(** The name given out is the name proposed or a numbered variant of it. *)
Lemma unique_path_with_reserved_variant path reserved p reserved' :
  unique_path_with_reserved path reserved = Some (p, reserved') →
  variant_of (name path) (name p).
Proof.
  unfold unique_path_with_reserved, variant_of. case_decide as Hin.
  - destruct (first_unreserved _ _ _ _ _) as [n|] eqn:Hfirst; [|done].
    intros [= <- _]. right.
    apply first_unreserved_Some in Hfirst as (k & _ & -> & _ & _).
    exists (2 + k). split; [lia | done].
  - intros [= <- _]. by left.
Qed.

(** A variant of a name that ends in [.pdf] behind a stem ends in
    [.pdf]. *)
Lemma variant_of_pdf (kept n : str) :
  kept ≠ [] → variant_of (kept ++ lit ".pdf") n → lit ".pdf" `suffix_of` n.
Proof.
  intros Hne [->|(i & _ & ->)]; [by apply suffix_app_r|].
  destruct (path_suffix_pdf kept Hne) as [-> ->]. unfold numbered.
  rewrite !app_assoc. by apply suffix_app_r.
Qed.

Lemma unmatched_root_Some cfg root :
  unmatched_root cfg = Some root →
  unmatched_dir cfg ≠ [] ∧ root = folder cfg ++ [unmatched_dir cfg].
Proof.
  unfold unmatched_root. destruct (unmatched_dir cfg); [done|]. by intros [= <-].
Qed.

Lemma unmatched_root_None cfg : unmatched_root cfg = None → unmatched_dir cfg = [].
Proof. unfold unmatched_root. by destruct (unmatched_dir cfg). Qed.

Section PlanProps.
Context `{UnicodeDB}.
Variables (env : Env) (cfg : Config).

Lemma get_reserved_spec d rbd S rbd' :
  get_reserved env d rbd = (S, rbd') →
  rbd' !! d = Some S
  ∧ (∀ d', d' ≠ d → rbd' !! d' = rbd !! d')
  ∧ (rbd !! d = Some S
     ∨ (rbd !! d = None
        ∧ S = match iterdir_files env d with
              | Some names => list_to_set names
              | None => ∅
              end)).
Proof.
  unfold get_reserved. destruct (rbd !! d) as [S0|] eqn:Hd.
  - intros [= <- <-]. split_and!; [done | done | by left].
  - intros [= <- <-]. split_and!.
    + by rewrite lookup_insert_eq.
    + intros d' Hne. by rewrite lookup_insert_ne.
    + by right.
Qed.

(** The names listed for a directory are in the set that [get_reserved]
    returns for it. *)
Lemma get_reserved_listed st d S rbd n :
  reserved_inv env st →
  get_reserved env d (reserved_by_dir st) = (S, rbd) →
  listed env d n → n ∈ S.
Proof.
  intros (Hcover & _) (_ & _ & [Hold|[_ ->]])%get_reserved_spec Hl.
  - by eapply Hcover.
  - destruct Hl as (names & -> & Hn). by apply elem_of_list_to_set.
Qed.

(** What a lookup adds to the state, and where its DOI comes from. *)
Lemma resolve_file_lookup st f t y d st1 :
  resolve_file env cfg st f = ((t, y, d), st1) →
  d = doi_in_file env cfg f
  ∧ (st1 = st
     ∨ ∃ d', d = Some d' ∧ d' ≠ [] ∧ no_crossref cfg = false
         ∧ st1 = mkPlan (<[d' := answer env cfg d']> (cache st))
                   (reserved_by_dir st) (items st)
                   (events st ++ lookup_calls cfg d')).
Proof.
  unfold resolve_file, doi_in_file.
  destruct (extract_doi_from_text _) as [d'|]; [|intros [= _ _ <- <-]; by split; [|left]].
  destruct (str_truthy (Some d') && negb (no_crossref cfg)) eqn:Hcond;
    [|intros [= _ _ <- <-]; by split; [|left]].
  apply andb_prop in Hcond as [Hd Hnc]. apply negb_true_iff in Hnc.
  destruct (cached_lookup env cfg d' st) as [[cf_title cf_year] st2] eqn:Hl.
  intros [= _ _ <- <-]. split; [done|].
  apply cached_lookup_cases in Hl as [[_ ->]|(_ & Hr & ->)]; [by left|].
  right. exists d'. split_and!; [done | by destruct d' | done |]. by rewrite Hr.
Qed.

(** One round of the loop: the item it adds, and the name it reserves. *)
Lemma preview_file_step st f st' :
  preview_file env cfg st f = Some st' →
  ∃ t y d st1 it,
    resolve_file env cfg st f = ((t, y, d), st1)
    ∧ cache st' = cache st1 ∧ events st' = events st1
    ∧ items st' = items st ++ [it]
    ∧ pdf it = f ∧ year it = y ∧ doi it = d
    ∧ ((status it = skip ∧ new_path it = None ∧ unmatched_root cfg = None
        ∧ reserved_by_dir st' = reserved_by_dir st)
       ∨ ∃ path np S rbd S',
           get_reserved env (parent path) (reserved_by_dir st) = (S, rbd)
           ∧ unique_path_with_reserved path S = Some (np, S')
           ∧ reserved_by_dir st' = <[parent path := S']> rbd
           ∧ new_path it = Some np
           ∧ ((is_Some (title it)
               ∧ path = with_name f (built_name cfg it)
               ∧ (status it = ok ∧ name np = name f
                  ∨ status it = rename ∧ name np ≠ name f))
              ∨ (∃ root, unmatched_root cfg = Some root ∧ status it = move
                         ∧ path = joinpath root (name f)))).
Proof.
  unfold preview_file.
  destruct (resolve_file env cfg st f) as [[[t y] d] st1] eqn:Hres.
  destruct (resolve_file_frame env cfg _ _ _ _ Hres) as [Hitems Hrbd].
  rewrite Hitems, Hrbd. intros Hpre. exists t, y, d, st1.
  destruct t as [[|c t]|].
  2: {
    destruct (get_reserved env (parent f) (reserved_by_dir st)) as [S rbd] eqn:Hg.
    destruct (unique_path_with_reserved _ S) as [[np S']|] eqn:Hu; [|done].
    cbn [mbind option_bind] in Hpre. cbv beta iota in Hpre.
    case_decide as Hname; injection Hpre as <-.
    - eexists. split_and!; [done..|]. right.
      exists (with_name f (clamp_filename (build_new_stem (c :: t) y (style cfg))
                             (lit ".pdf") (maxlen cfg))), np, S, rbd, S'.
      split_and!; [exact Hg | exact Hu | done | done |].
      left. split_and!; [by eexists | done | by left].
    - eexists. split_and!; [done..|]. right.
      exists (with_name f (clamp_filename (build_new_stem (c :: t) y (style cfg))
                             (lit ".pdf") (maxlen cfg))), np, S, rbd, S'.
      split_and!; [exact Hg | exact Hu | done | done |].
      left. split_and!; [by eexists | done | by right]. }
  all: destruct (unmatched_root cfg) as [root|] eqn:Hroot.
  all: try (injection Hpre as <-; eexists; split_and!; [done..|]; by left).
  all: destruct (get_reserved env root (reserved_by_dir st)) as [S rbd] eqn:Hg.
  all: destruct (unique_path_with_reserved _ S) as [[np S']|] eqn:Hu; [|done].
  all: injection Hpre as <-; eexists; split_and!; [done..|]; right.
  all: exists (joinpath root (name f)), np, S, rbd, S'.
  all: split_and!; [exact Hg | exact Hu | done | done |].
  all: right; by exists root.
Qed.

Lemma targets_snoc its it :
  targets (its ++ [it])
  = targets its ++ match new_path it with Some np => [np] | None => [] end.
Proof. unfold targets. rewrite omap_app. simpl. by destruct (new_path it). Qed.

Lemma preview_file_reserved st f st' :
  reserved_inv env st → preview_file env cfg st f = Some st' →
  reserved_inv env st'.
Proof.
  intros Hinv (t & y & d & st1 & it & _ & _ & _ & Hitems & _ & _ & _ & Hcase)
    %preview_file_step.
  pose proof Hinv as (Hcover & Htargets & Hnd).
  unfold reserved_inv. rewrite Hitems, targets_snoc.
  destruct Hcase as [(_ & -> & _ & ->)|
    (path & np & S & rbd & S' & Hg & Hu & -> & -> & _)].
  { by rewrite app_nil_r. }
  pose proof (λ n, get_reserved_listed _ _ _ _ n Hinv Hg) as Hlisted.
  apply get_reserved_spec in Hg as (Hd & Hother & Hwas).
  apply unique_path_with_reserved_spec in Hu as (Hparent & Hfree & -> & _).
  assert (∀ S0, reserved_by_dir st !! parent path = Some S0 → S0 = S) as Hsame.
  { intros S0 HS0. destruct Hwas as [Hwas|[Hwas _]]; congruence. }
  split_and!.
  - intros d0 S2 n. rewrite lookup_insert. case_decide as Hd0.
    + subst d0. intros [= <-] Hl. apply elem_of_union_r. by apply Hlisted.
    + rewrite Hother by done. apply Hcover.
  - intros np0 [Hold|Hnew]%elem_of_app;
      [|apply list_elem_of_singleton in Hnew as ->].
    + destruct (Htargets np0 Hold) as [(S0 & HS0 & Hn0) Hnl]. split; [|done].
      rewrite lookup_insert. case_decide as Hd0.
      * eexists. split; [done|]. apply elem_of_union_r.
        rewrite <- Hd0 in HS0. by rewrite <- (Hsame S0 HS0).
      * rewrite Hother by done. by exists S0.
    + rewrite Hparent. split.
      * rewrite lookup_insert_eq. eexists. split; [done|].
        by apply elem_of_union_l, elem_of_singleton.
      * intros Hl. by apply Hfree, Hlisted.
  - apply NoDup_app. split_and!; [done| |apply NoDup_singleton].
    intros np0 Hold ->%list_elem_of_singleton.
    destruct (Htargets np Hold) as [(S0 & HS0 & Hn0) _].
    rewrite Hparent in HS0. rewrite (Hsame S0 HS0) in Hn0. done.
Qed.

Lemma plan_run_reserved pdfs st :
  plan_run env cfg pdfs = Some st → reserved_inv env st.
Proof.
  unfold plan_run. apply (preview_loop_invariant env cfg (reserved_inv env)).
  - apply preview_file_reserved.
  - split_and!; [| |constructor].
    + intros d S n. simpl. by rewrite lookup_empty.
    + intros np. simpl. by intros ?%elem_of_nil.
Qed.

Lemma built_name_pdf it :
  ∃ kept, built_name cfg it = kept ++ lit ".pdf" ∧ kept ≠ [].
Proof.
  unfold built_name.
  destruct (clamp_filename_kept
              (build_new_stem (default [] (title it)) (year it) (style cfg))
              (lit ".pdf") (maxlen cfg) (build_new_stem_strip _ _ _))
    as (kept & Hclamp & _ & Hne).
  by exists kept.
Qed.

Lemma preview_file_placed st f st' :
  Forall (target_placed cfg) (items st) → preview_file env cfg st f = Some st' →
  Forall (target_placed cfg) (items st').
Proof.
  intros Hall (t & y & d & st1 & it & _ & _ & _ & -> & Hpdf & _ & _ & Hcase)
    %preview_file_step.
  apply Forall_app. split; [done|]. apply Forall_singleton.
  unfold target_placed.
  destruct Hcase as [(-> & Hnone & Hroot%unmatched_root_None & _)|
    (path & np & S & rbd & S' & _ & Hu & _ & Hnp & Hkind)]; [done|].
  pose proof (unique_path_with_reserved_variant _ _ _ _ Hu) as Hvar.
  apply unique_path_with_reserved_spec in Hu as (Hparent & _).
  destruct Hkind as [(Htitle & -> & [[-> Hname]|[-> Hname]])|
    (root & (Hdir & ->)%unmatched_root_Some & -> & ->)].
  - cbn [parent name with_name] in *. split_and!; [|done|by rewrite Hpdf, <- Hname].
    rewrite Hnp, Hpdf. f_equal. destruct np, f; simpl in *; congruence.
  - cbn [parent name with_name] in *. exists np.
    split_and!; [done | done | by rewrite Hpdf | by rewrite Hpdf | done |].
    destruct (built_name_pdf it) as (kept & Hk & Hne). rewrite Hk in Hvar.
    by eapply variant_of_pdf.
  - cbn [parent name joinpath] in *. exists np.
    split_and!; [done | done | done | by rewrite Hpdf].
Qed.

Lemma plan_run_placed pdfs st :
  plan_run env cfg pdfs = Some st → Forall (target_placed cfg) (items st).
Proof.
  unfold plan_run.
  apply (preview_loop_invariant env cfg
           (λ st, Forall (target_placed cfg) (items st))).
  - apply preview_file_placed.
  - constructor.
Qed.

Lemma preview_file_lookups st f st' :
  lookups_inv env cfg st → preview_file env cfg st f = Some st' →
  lookups_inv env cfg st'.
Proof.
  intros (Hfrom & Hoff & Hlen)
    (t & y & d & st1 & it & Hres & Hc & He & Hitems & Hpdf & _ & Hdoi & _)
    %preview_file_step.
  apply resolve_file_lookup in Hres as [Hd Hst1].
  unfold lookups_inv. rewrite Hc, He, Hitems, length_app. simpl.
  destruct Hst1 as [->|(d' & -> & Hne & Hnc & ->)].
  - split_and!; [|done|lia].
    intros d0 Hd0. destruct (Hfrom d0 Hd0) as (? & ? & it0 & Hit0 & ?).
    split_and!; [done..|]. exists it0. split; [|done].
    apply elem_of_app. by left.
  - cbn [events cache]. rewrite lookups_app. split_and!.
    + intros d0 [Hd0|Hd0]%elem_of_app.
      * destruct (Hfrom d0 Hd0) as (? & ? & it0 & Hit0 & ?).
        split_and!; [done..|]. exists it0. split; [|done].
        apply elem_of_app. by left.
      * apply list_elem_of_singleton in Hd0 as ->. split_and!; [done..|].
        exists it. split_and!; [|done|by rewrite Hpdf].
        apply elem_of_app. right. apply list_elem_of_here.
    + intros Hon. congruence.
    + rewrite length_app. simpl. lia.
Qed.

Lemma plan_run_lookups pdfs st :
  plan_run env cfg pdfs = Some st → lookups_inv env cfg st.
Proof.
  unfold plan_run. apply (preview_loop_invariant env cfg (lookups_inv env cfg)).
  - apply preview_file_lookups.
  - split_and!; [|done|done]. simpl. by intros d ?%elem_of_nil.
Qed.

Lemma preview_loop_files pdfs idx st st' :
  preview_loop env cfg idx pdfs st = Some st' →
  pdf <$> items st'
  = (pdf <$> items st) ++ files_reached (cancel_is_set env) idx pdfs.
Proof.
  revert idx st. induction pdfs as [|f pdfs IH]; intros idx st; simpl.
  - intros [= <-]. by rewrite app_nil_r.
  - destruct (cancel_is_set env idx); [intros [= <-]; by rewrite app_nil_r|].
    destruct (preview_file env cfg st f) as [st1|] eqn:Hf; [|done]. simpl.
    intros ->%IH.
    apply preview_file_step
      in Hf as (t & y & d & st0 & it & _ & _ & _ & -> & <- & _).
    rewrite fmap_app. simpl. by rewrite <- app_assoc.
Qed.

Lemma plan_run_files pdfs st :
  plan_run env cfg pdfs = Some st →
  pdf <$> items st = files_reached (cancel_is_set env) 1 pdfs.
Proof. unfold plan_run. by intros ->%preview_loop_files. Qed.

End PlanProps.

(** X13. No two items of a plan have the same target, and no target
    bears a name that the listing of its directory holds: a rename or a
    move that the plan proposes overwrites neither a file that was listed
    nor the target of another item. *)
Theorem targets_never_collide `{UnicodeDB} (env : Env) (cfg : Config)
    (pdfs : list Path) :
  ∃ its,
    compute_preview env cfg pdfs = Some its
    ∧ NoDup (targets its)
    ∧ ∀ it np, it ∈ its → new_path it = Some np →
        ¬ listed env (parent np) (name np).
Proof.
  unfold compute_preview.
  destruct (preview_loop_total env cfg pdfs 1 plan_init) as [st Hrun].
  change (plan_run env cfg pdfs = Some st) in Hrun. rewrite Hrun.
  exists (items st). split; [done|].
  destruct (plan_run_reserved env cfg pdfs st Hrun) as (_ & Htargets & Hnd).
  split; [done|]. intros it np Hit Hnp. apply Htargets.
  unfold targets. apply list_elem_of_omap. by exists it.
Qed.

Example targets_of_two_copies :
  (λ its : list PreviewItem, name <$> targets its)
  <$> @compute_preview ascii_db (sample_env (Some [lit "a.pdf"; lit "b.pdf"]))
        sample_cfg
        [mkPath [lit "papers"] (lit "a.pdf"); mkPath [lit "papers"] (lit "b.pdf")]
  = Some [lit "2020 - A Study of Widgets.pdf";
          lit "2020 - A Study of Widgets (2).pdf"].
Proof. vm_compute. reflexivity. Qed.

(** X14. The target of a file to rename lies in the directory of the
    file, under another name than the file has; the name is the one built
    from the title and the year that the item shows, clamped, or that name
    with a number from 2 on before [.pdf], and it ends in [.pdf].  The
    target of a file already well named is the file itself.  A file
    without a title is moved only when a directory for such files is
    configured, into that directory under the folder, with its own name or
    a numbered variant of it, and is skipped only when none is
    configured. *)
Theorem targets_are_placed `{UnicodeDB} (env : Env) (cfg : Config)
    (pdfs : list Path) :
  ∃ its,
    compute_preview env cfg pdfs = Some its
    ∧ Forall (target_placed cfg) its.
Proof.
  unfold compute_preview.
  destruct (preview_loop_total env cfg pdfs 1 plan_init) as [st Hrun].
  change (plan_run env cfg pdfs = Some st) in Hrun. rewrite Hrun.
  exists (items st). split; [done|]. by eapply plan_run_placed.
Qed.

Example move_target_sample :
  (λ its : list PreviewItem, (λ it, (status it, new_path it)) <$> its)
  <$> @compute_preview ascii_db
        (mkEnv (λ _, None) (λ _ _, []) (λ _ _ _, NetworkError)
           (λ _, Some [lit "scan.pdf"]) 2026 (λ _, false))
        (mkConfig [lit "papers"] 2 140 (lit "prefix") false (1 # 5) 20
           (lit "_unmatched") (lit "agent"))
        [mkPath [lit "papers"] (lit "scan.pdf")]
  = Some [(move, Some (mkPath [lit "papers"; lit "_unmatched"] (lit "scan (2).pdf")))].
Proof. vm_compute. reflexivity. Qed.

(** X15. A file whose name the listing of its directory holds is never
    found well named: its own name is reserved before a name is chosen for
    it, so the status [ok] is given only to files of directories whose
    listing failed or did not show them. *)
Theorem listed_file_is_never_ok `{UnicodeDB} (env : Env) (cfg : Config)
    (pdfs : list Path) :
  ∃ its,
    compute_preview env cfg pdfs = Some its
    ∧ ∀ it, it ∈ its → listed env (parent (pdf it)) (name (pdf it)) →
        status it ≠ ok.
Proof.
  unfold compute_preview.
  destruct (preview_loop_total env cfg pdfs 1 plan_init) as [st Hrun].
  change (plan_run env cfg pdfs = Some st) in Hrun. rewrite Hrun.
  exists (items st). split; [done|]. intros it Hit Hl Hok.
  destruct (plan_run_reserved env cfg pdfs st Hrun) as (_ & Htargets & _).
  pose proof (plan_run_placed env cfg pdfs st Hrun) as Hplaced.
  rewrite Forall_forall in Hplaced. specialize (Hplaced it Hit).
  unfold target_placed in Hplaced. rewrite Hok in Hplaced.
  destruct Hplaced as (Hnp & _).
  destruct (Htargets (pdf it)) as [_ Hnl]; [|done].
  unfold targets. apply list_elem_of_omap. by exists it.
Qed.

(** X16. The registry is asked only for DOIs found in the text of files
    of the run, never for an empty one; with the registry switched off no
    request and no sleep is made and the cache stays empty; and there are
    no more requests than files. *)
Theorem lookups_come_from_files `{UnicodeDB} (env : Env) (cfg : Config)
    (pdfs : list Path) :
  ∃ st,
    plan_run env cfg pdfs = Some st
    ∧ (∀ d, d ∈ lookups (events st) →
         no_crossref cfg = false ∧ d ≠ []
         ∧ ∃ f, f ∈ pdfs ∧ doi_in_file env cfg f = Some d)
    ∧ (no_crossref cfg = true → events st = [] ∧ cache st = ∅)
    ∧ length (lookups (events st)) ≤ length pdfs.
Proof.
  destruct (preview_loop_total env cfg pdfs 1 plan_init) as [st Hrun].
  change (plan_run env cfg pdfs = Some st) in Hrun.
  exists st. split; [done|].
  destruct (plan_run_lookups env cfg pdfs st Hrun) as (Hfrom & Hoff & Hlen).
  pose proof (plan_run_files env cfg pdfs st Hrun) as Hfiles.
  pose proof (files_reached_prefix (cancel_is_set env) 1 pdfs) as Hpre.
  split_and!; [|done|].
  - intros d Hd. destruct (Hfrom d Hd) as (Hnc & Hne & it & Hit & _ & Hdoi).
    split_and!; [done..|]. exists (pdf it). split; [|done].
    eapply elem_of_prefix; [|exact Hpre]. rewrite <- Hfiles.
    apply list_elem_of_fmap. by exists it.
  - etrans; [exact Hlen|]. rewrite <- (length_fmap pdf), Hfiles.
    by apply prefix_length.
Qed.

(** X17. A plan holds one item for each file that the loop reaches, in
    the order of the files; the files reached are the files before the
    first cancellation seen, and all of them when none is; each item
    bears the current name of its file. *)
Theorem one_item_per_file `{UnicodeDB} (env : Env) (cfg : Config)
    (pdfs : list Path) :
  ∃ its,
    compute_preview env cfg pdfs = Some its
    ∧ pdf <$> its = files_reached (cancel_is_set env) 1 pdfs
    ∧ files_reached (cancel_is_set env) 1 pdfs `prefix_of` pdfs
    ∧ ((∀ i, cancel_is_set env i = false) → pdf <$> its = pdfs)
    ∧ Forall (λ it, old_name it = name (pdf it)) its.
Proof.
  unfold compute_preview.
  destruct (preview_loop_total env cfg pdfs 1 plan_init) as [st Hrun].
  change (plan_run env cfg pdfs = Some st) in Hrun. rewrite Hrun.
  exists (items st). split; [done|].
  pose proof (plan_run_files env cfg pdfs st Hrun) as Hfiles.
  split_and!; [done | apply files_reached_prefix | |].
  - intros Hnc. by rewrite Hfiles, files_reached_all.
  - eapply Forall_impl; [by eapply plan_run_shape|].
    intros it Hshape. apply Hshape.
Qed.

(** X18. Title, year and DOI of an item depend on its own file only, not
    on the files before it or on the cache: the DOI is the one found in
    the text of the file, and title and year are those computed from the
    answer of the registry for that DOI, the title of the registry before
    that of the metadata and the year of the registry before the year
    guessed from the text. *)
Theorem item_fields_are_expected `{UnicodeDB} (env : Env) (cfg : Config)
    (pdfs : list Path) :
  ∃ its,
    compute_preview env cfg pdfs = Some its
    ∧ ∀ it, it ∈ its →
        ∃ t y,
          expected_fields env cfg (pdf it) = (t, y, doi_in_file env cfg (pdf it))
          ∧ doi it = doi_in_file env cfg (pdf it)
          ∧ year it = y
          ∧ title it = (if str_truthy t then t else None).
Proof.
  unfold compute_preview.
  destruct (preview_loop_total env cfg pdfs 1 plan_init) as [st Hrun].
  change (plan_run env cfg pdfs = Some st) in Hrun. rewrite Hrun.
  exists (items st). split; [done|]. intros it Hit.
  destruct (plan_run_inv env cfg pdfs st Hrun) as (_ & _ & Hall).
  rewrite Forall_forall in Hall.
  destruct (Hall it Hit) as (t & y & d & Hexp & Hem).
  apply emitted_fields in Hem as (Hd & Hy & Ht).
  assert (d = doi_in_file env cfg (pdf it)) as ->.
  { unfold expected_fields in Hexp. unfold doi_in_file.
    destruct (match extract_doi_from_text _ with Some _ => _ | None => _ end)
      as [cf_title cf_year].
    by injection Hexp as _ _ <-. }
  by exists t, y.
Qed.

(** ** Apply Engine: what a rename goes onto *)

Section ApplySafety.
Context {FS : Type} `{FileSystem FS}.

(** The loop of [unique_path] only asks whether paths exist; a path it
    returns was reported absent and is a numbered variant. *)
Lemma first_absent_found fs path stem suffix fuel i ops r :
  first_absent fs path stem suffix fuel i = Some (ops, r) →
  (∀ src dst, OpRename src dst ∉ ops)
  ∧ ∀ p, r = inr p →
      fs_exists fs p = inr false
      ∧ ∃ k, p = with_name path (numbered stem suffix (i + k)).
Proof.
  revert i ops r. induction fuel as [|fuel IH]; intros i ops r; simpl; [done|].
  destruct (fs_exists fs (with_name path (numbered stem suffix i)))
    as [e|[|]] eqn:Hex.
  - intros [= <- <-]. split; [|done].
    intros src dst [=]%list_elem_of_singleton.
  - destruct (first_absent fs path stem suffix fuel (S i)) as [[ops' r']|] eqn:Hrec;
      [|done].
    intros [= <- <-]. destruct (IH _ _ _ Hrec) as [Hops Hr]. split.
    + intros src dst [[=]|Hin]%elem_of_cons. by eapply Hops.
    + intros p Hp. destruct (Hr p Hp) as [Hfree [k ->]]. split; [done|].
      exists (S k). do 2 f_equal. lia.
  - intros [= <- <-]. split.
    + intros src dst [=]%list_elem_of_singleton.
    + intros p [= <-]. split; [done|]. exists 0. by rewrite Nat.add_0_r.
Qed.

Lemma unique_path_found fs path ops r :
  unique_path fs path = Some (ops, r) →
  (∀ src dst, OpRename src dst ∉ ops)
  ∧ ∀ p, r = inr p →
      fs_exists fs p = inr false ∧ parent p = parent path
      ∧ variant_of (name path) (name p).
Proof.
  unfold unique_path. destruct (fs_exists fs path) as [e|[|]] eqn:Hex.
  - intros [= <- <-]. split; [|done].
    intros src dst [=]%list_elem_of_singleton.
  - destruct (first_absent _ _ _ _ _ _) as [[ops' r']|] eqn:Hrec; [|done].
    intros [= <- <-]. apply first_absent_found in Hrec as [Hops Hr]. split.
    + intros src dst [[=]|Hin]%elem_of_cons. by eapply Hops.
    + intros p Hp. destruct (Hr p Hp) as [Hfree [k ->]].
      split_and!; [done | done |]. right. exists (2 + k). split; [lia | done].
  - intros [= <- <-]. split.
    + intros src dst [=]%list_elem_of_singleton.
    + intros p [= <-]. split_and!; [done | done | by left].
Qed.

(** The check of line 329 and the search behind it. *)
Lemma target_found fs1 target0 ops r :
  match fs_exists fs1 target0 with
  | inl e => Some ([OpExists target0], inl e)
  | inr false => Some ([OpExists target0], inr target0)
  | inr true =>
      '(ops, r) ← unique_path fs1 target0; Some (OpExists target0 :: ops, r)
  end = Some (ops, r) →
  (∀ src dst, OpRename src dst ∉ ops)
  ∧ ∀ p, r = inr p →
      fs_exists fs1 p = inr false ∧ parent p = parent target0
      ∧ variant_of (name target0) (name p).
Proof.
  destruct (fs_exists fs1 target0) as [e|[|]] eqn:Hex.
  - intros [= <- <-]. split; [|done].
    intros src dst [=]%list_elem_of_singleton.
  - destruct (unique_path fs1 target0) as [[ops' r']|] eqn:Hu; [|done].
    intros [= <- <-]. apply unique_path_found in Hu as [Hops Hr]. split; [|done].
    intros src dst [[=]|Hin]%elem_of_cons. by eapply Hops.
  - intros [= <- <-]. split.
    + intros src dst [=]%list_elem_of_singleton.
    + intros p [= <-]. split_and!; [done | done | by left].
Qed.

(** The calls of the [try] block for one item. *)
Lemma move_item_ops log item target0 st st' :
  move_item log item target0 st = Some st' →
  ∃ ops,
    fs_ops st' = fs_ops st ++ ops
    ∧ (∀ src dst, OpRename src dst ∈ ops →
         ∃ fs1,
           src = pdf item
           ∧ fs_mkdir (fs_now st) (parent target0) = (fs1, None)
           ∧ fs_exists fs1 dst = inr false
           ∧ parent dst = parent target0
           ∧ variant_of (name target0) (name dst)
           ∧ fs_now st' = (fs_rename fs1 src dst).1)
    ∧ (renamed st' ≠ renamed st → ∃ dst, OpRename (pdf item) dst ∈ ops).
Proof.
  unfold move_item.
  destruct (fs_mkdir (fs_now st) (parent target0)) as [fs1 [e|]] eqn:Hmk.
  { intros [= <-]. exists [OpMkdir (parent target0)]. split_and!; [done| |done].
    intros src dst [=]%list_elem_of_singleton. }
  destruct (match fs_exists fs1 target0 with
            | inl e => Some ([OpExists target0], inl e)
            | inr false => Some ([OpExists target0], inr target0)
            | inr true =>
                '(ops, r) ← unique_path fs1 target0;
                Some (OpExists target0 :: ops, r)
            end) as [[ops r]|] eqn:Hfound; [|done].
  apply target_found in Hfound as [Hops Hr]. cbn [mbind option_bind].
  cbv beta iota. destruct r as [e|target].
  { intros [= <-]. exists (OpMkdir (parent target0) :: ops).
    split_and!; [done| |done].
    intros src dst [[=]|Hin]%elem_of_cons. by apply Hops in Hin. }
  destruct (Hr target eq_refl) as (Hfree & Hparent & Hvar).
  destruct (fs_rename fs1 (pdf item) target) as [fs2 r2] eqn:Hren.
  assert (∀ src dst,
    OpRename src dst ∈ OpMkdir (parent target0) :: ops ++ [OpRename (pdf item) target] →
    src = pdf item ∧ dst = target) as Honly.
  { intros src dst [[=]|[Hin|Hin]%elem_of_app]%elem_of_cons.
    - by apply Hops in Hin.
    - by apply list_elem_of_singleton in Hin as [= -> ->]. }
  assert (OpRename (pdf item) target
          ∈ OpMkdir (parent target0) :: ops ++ [OpRename (pdf item) target]) as Hin.
  { apply list_elem_of_further, elem_of_app. right. apply list_elem_of_here. }
  destruct r2 as [e|]; intros [= <-];
    exists (OpMkdir (parent target0) :: ops ++ [OpRename (pdf item) target]).
  all: split_and!; [done | | intros _; by exists target].
  all: intros src dst [-> ->]%Honly; exists fs1; by rewrite Hren.
Qed.

End ApplySafety.

(** X19. When the engine is not in a dry run, an item that is not selected
    or has no target causes no call on the file system.  For a selected
    item every rename that is called has the file of the item for its
    source and goes onto a path that [exists] has just reported absent, in
    the directory of the target, under the name of the target or a
    numbered variant of it; and an item is counted as renamed only when
    such a rename was called. *)
Theorem rename_only_onto_absent_path {FS : Type} `{FileSystem FS} (log : bool)
    (item : PreviewItem) (st : ApplyState FS) :
  ∃ st' ops,
    apply_item false log item st = Some st'
    ∧ fs_ops st' = fs_ops st ++ ops
    ∧ (slated item = false → ops = [] ∧ fs_now st' = fs_now st)
    ∧ (∀ src dst, OpRename src dst ∈ ops →
         ∃ target0 fs1,
           new_path item = Some target0 ∧ apply item = true
           ∧ src = pdf item
           ∧ fs_mkdir (fs_now st) (parent target0) = (fs1, None)
           ∧ fs_exists fs1 dst = inr false
           ∧ parent dst = parent target0
           ∧ variant_of (name target0) (name dst)
           ∧ fs_now st' = (fs_rename fs1 src dst).1)
    ∧ (renamed st' ≠ renamed st → ∃ dst, OpRename (pdf item) dst ∈ ops).
Proof.
  destruct (slated item) eqn:Hsl.
  - unfold slated in Hsl.
    apply andb_prop in Hsl as [Happly [target0 Ht]%bool_decide_eq_true].
    destruct (move_item_counts log item target0 st) as (st' & Hmove & _).
    destruct (move_item_ops _ _ _ _ _ Hmove) as (ops & Hops & Hren & Hcount).
    exists st', ops. unfold apply_item. rewrite Ht, Happly. cbn [negb].
    split_and!; [done | done | done | | done].
    intros src dst Hin. destruct (Hren src dst Hin) as (fs1 & Hrest).
    by exists target0, fs1.
  - exists (count_skipped st), []. rewrite apply_item_not_slated by done.
    split_and!; [done | by rewrite app_nil_r | done | |done].
    by intros src dst ?%elem_of_nil.
Qed.

Example rename_sample_taken_target :
  (λ st, (fs_ops st, logged st))
  <$> apply_changes
        ({[sample_pdf; mkPath [lit "papers"] (lit "new.pdf")]} : gset Path)
        [sample_item (mkPath [lit "papers"] (lit "new.pdf")) rename (lit "ready") true]
        false true (λ _, false)
  = Some ([OpMkdir [lit "papers"];
           OpExists (mkPath [lit "papers"] (lit "new.pdf"));
           OpExists (mkPath [lit "papers"] (lit "new.pdf"));
           OpExists (mkPath [lit "papers"] (lit "new (2).pdf"));
           OpRename sample_pdf (mkPath [lit "papers"] (lit "new (2).pdf"))],
          [lit "[OK] 2020 - A Study of Widgets.pdf -> new (2).pdf"]).
Proof. vm_compute. reflexivity. Qed.

(** ** Apply Engine on the set of existing paths *)

Lemma apply_item_set_fs dry_run log item (st st' : ApplyState (gset Path)) :
  apply_item dry_run log item st = Some st' →
  fs_now st' = fs_now st
  ∨ (slated item = true ∧ pdf item ∈ fs_now st
     ∧ ∃ dst target0,
         (dst ∉ fs_now st)
         ∧ fs_now st' = {[dst]} ∪ fs_now st ∖ {[pdf item]}
         ∧ new_path item = Some target0 ∧ parent dst = parent target0
         ∧ variant_of (name target0) (name dst)).
Proof.
  destruct (slated item) eqn:Hsl.
  2: { rewrite apply_item_not_slated by done. intros [= <-]. by left. }
  unfold slated in Hsl.
  apply andb_prop in Hsl as [Happly [target0 Ht]%bool_decide_eq_true].
  unfold apply_item. rewrite Ht, Happly. cbn [negb].
  destruct dry_run; [intros [= <-]; by left|].
  unfold move_item. cbn [fs_mkdir set_fs].
  destruct (match fs_exists (fs_now st) target0 with
            | inl e => Some ([OpExists target0], inl e)
            | inr false => Some ([OpExists target0], inr target0)
            | inr true =>
                '(ops, r) ← unique_path (fs_now st) target0;
                Some (OpExists target0 :: ops, r)
            end) as [[ops r]|] eqn:Hfound; [|done].
  apply target_found in Hfound as [_ Hr]. cbn [mbind option_bind].
  cbv beta iota. destruct r as [e|target]; [intros [= <-]; by left|].
  destruct (Hr target eq_refl) as (Hfree & Hparent & Hvar).
  cbn [fs_exists set_fs] in Hfree. injection Hfree as Hfree.
  apply bool_decide_eq_false in Hfree.
  cbn [fs_rename set_fs].
  destruct (decide (pdf item ∈ fs_now st)) as [Hsrc|Hsrc]; intros [= <-];
    [right | by left].
  split_and!; [done | done |]. by exists target, target0.
Qed.

Lemma apply_loop_set_fs dry_run log cancelled its idx
    (st st' : ApplyState (gset Path)) :
  apply_loop dry_run log cancelled idx its st = Some st' →
  size (fs_now st') = size (fs_now st)
  ∧ (∀ p, p ∈ fs_now st → p ∉ fs_now st' →
       ∃ it, it ∈ its ∧ slated it = true ∧ pdf it = p)
  ∧ (∀ p, p ∈ fs_now st' → p ∉ fs_now st →
       ∃ it target0,
         it ∈ its ∧ slated it = true ∧ new_path it = Some target0
         ∧ parent p = parent target0 ∧ variant_of (name target0) (name p)).
Proof.
  revert idx st. induction its as [|item its IH]; intros idx st; simpl.
  { intros [= <-]. split_and!; [done | done..]. }
  destruct (cancelled idx); [intros [= <-]; split_and!; [done | done..]|].
  destruct (apply_item dry_run log item st) as [st1|] eqn:Hitem; [|done]. simpl.
  intros (Hsize & Hlost & Hnew)%IH.
  apply apply_item_set_fs in Hitem
    as [Hsame|(Hsl & Hsrc & dst & target0 & Hdst & Hfs & Ht & Hparent & Hvar)].
  { rewrite Hsame in *. split_and!; [done | |].
    - intros p Hp Hp'. destruct (Hlost p Hp Hp') as (it & Hit & ?).
      exists it. split; [by apply list_elem_of_further | done].
    - intros p Hp Hp'. destruct (Hnew p Hp Hp') as (it & t0 & Hit & ?).
      exists it, t0. split; [by apply list_elem_of_further | done]. }
  split_and!.
  - assert (({[dst]} : gset Path) ## fs_now st ∖ {[pdf item]}) as Hdisj1.
    { apply disjoint_singleton_l. by intros [? _]%elem_of_difference. }
    assert (({[pdf item]} : gset Path) ## fs_now st ∖ {[pdf item]}) as Hdisj2.
    { apply disjoint_singleton_l. rewrite elem_of_difference, elem_of_singleton.
      by intros [_ ?]. }
    rewrite Hsize, Hfs. rewrite size_union by done.
    rewrite size_singleton.
    assert (size (fs_now st) = size ({[pdf item]} : gset Path)
                               + size (fs_now st ∖ {[pdf item]})) as Hsplit.
    { rewrite <- size_union by done. f_equal.
      apply set_eq. intros q. rewrite elem_of_union, elem_of_difference,
        elem_of_singleton.
      destruct (decide (q = pdf item)) as [->|Hq].
      - split; [by left | done].
      - split; [by right | by intros [?|[? _]]]. }
    rewrite size_singleton in Hsplit. lia.
  - intros p Hp Hp'. destruct (decide (p = pdf item)) as [->|Hne].
    + exists item. split; [apply list_elem_of_here | done].
    + destruct (Hlost p) as (it & Hit & ?); [|done|].
      { rewrite Hfs. apply elem_of_union_r, elem_of_difference.
        split; [done|]. by rewrite elem_of_singleton. }
      exists it. split; [by apply list_elem_of_further | done].
  - intros p Hp Hp'. destruct (decide (p ∈ fs_now st1)) as [Hin|Hnin].
    + rewrite Hfs in Hin.
      apply elem_of_union in Hin as [->%elem_of_singleton|[? _]%elem_of_difference];
        [|done].
      exists item, target0. split; [apply list_elem_of_here | done].
    + destruct (Hnew p Hp Hnin) as (it & t0 & Hit & ?).
      exists it, t0. split; [by apply list_elem_of_further | done].
Qed.

(** X20. On a file system that is the set of the paths that exist, where
    a rename onto an existing path would replace it, the engine replaces
    nothing: as many paths exist after a run as before; a path that is
    gone is the file of a selected item; and a path that is new lies in
    the directory of the target of a selected item and bears the name of
    that target or a numbered variant of it. *)
Theorem apply_changes_overwrites_nothing (fs : gset Path)
    (its : list PreviewItem) (dry_run log : bool) (cancelled : nat → bool) :
  ∃ st,
    apply_changes fs its dry_run log cancelled = Some st
    ∧ size (fs_now st) = size fs
    ∧ (∀ p, p ∈ fs → p ∉ fs_now st →
         ∃ it, it ∈ its ∧ slated it = true ∧ pdf it = p)
    ∧ (∀ p, p ∈ fs_now st → p ∉ fs →
         ∃ it target0,
           it ∈ its ∧ slated it = true ∧ new_path it = Some target0
           ∧ parent p = parent target0 ∧ variant_of (name target0) (name p)).
Proof.
  unfold apply_changes.
  destruct (apply_loop_total dry_run log cancelled its 1
              (mkApply fs 0 0 [] [])) as [st Hrun].
  exists st. split; [done|]. by apply apply_loop_set_fs in Hrun.
Qed.

(** Two items with the same target: the second is given the numbered
    name, and both files are kept. *)
Example two_items_one_target :
  (λ st, (renamed st, fs_now st))
  <$> apply_changes
        ({[mkPath [lit "d"] (lit "a.pdf"); mkPath [lit "d"] (lit "b.pdf")]}
           : gset Path)
        [mkItem (mkPath [lit "d"] (lit "a.pdf")) (lit "a.pdf")
           (Some (mkPath [lit "d"] (lit "t.pdf"))) None (Some (lit "t")) None
           rename (lit "ready") true;
         mkItem (mkPath [lit "d"] (lit "b.pdf")) (lit "b.pdf")
           (Some (mkPath [lit "d"] (lit "t.pdf"))) None (Some (lit "t")) None
           rename (lit "ready") true]
        false false (λ _, false)
  = Some (2, {[mkPath [lit "d"] (lit "t.pdf"); mkPath [lit "d"] (lit "t (2).pdf")]}).
Proof. vm_compute. reflexivity. Qed.

(** ** Apply Engine: counters and log *)

Section ApplyAccounts.
Context {FS : Type} `{FileSystem FS}.

Lemma log_line_length log line (lines : list (list N)) :
  length (log_line log line lines) = length lines + (if log then 1 else 0).
Proof. unfold log_line. destruct log; [rewrite length_app; simpl|]; lia. Qed.

Lemma move_item_logged log item target0 (st st' : ApplyState FS) :
  move_item log item target0 st = Some st' →
  length (logged st') = length (logged st) + (if log then 1 else 0).
Proof.
  unfold move_item.
  destruct (fs_mkdir (fs_now st) (parent target0)) as [fs1 [e|]].
  { intros [= <-]. apply log_line_length. }
  destruct (match fs_exists fs1 target0 with
            | inl e => Some ([OpExists target0], inl e)
            | inr false => Some ([OpExists target0], inr target0)
            | inr true =>
                '(ops, r) ← unique_path fs1 target0;
                Some (OpExists target0 :: ops, r)
            end) as [[ops r]|]; [|done].
  cbn [mbind option_bind]. cbv beta iota.
  destruct r as [e|target]; [intros [= <-]; apply log_line_length|].
  destruct (fs_rename fs1 (pdf item) target) as [fs2 [e|]]; intros [= <-];
    apply log_line_length.
Qed.

Lemma apply_item_logged dry_run log item (st st' : ApplyState FS) :
  apply_item dry_run log item st = Some st' →
  length (logged st')
  = length (logged st) + (if log && slated item then 1 else 0)
  ∧ (slated item = false → renamed st' = renamed st).
Proof.
  destruct (slated item) eqn:Hsl.
  2: { rewrite apply_item_not_slated by done. intros [= <-]. simpl.
       rewrite andb_false_r. split; [lia | done]. }
  rewrite andb_true_r. pose proof Hsl as Hsl'. unfold slated in Hsl'.
  apply andb_prop in Hsl' as [Happly [target0 Ht]%bool_decide_eq_true].
  unfold apply_item. rewrite Ht, Happly. cbn [negb].
  destruct dry_run.
  - intros [= <-]. split; [apply log_line_length | done].
  - intros Hmove%move_item_logged. by split.
Qed.

Lemma apply_loop_accounts dry_run log cancelled its idx (st st' : ApplyState FS) :
  apply_loop dry_run log cancelled idx its st = Some st' →
  renamed st' + skipped st'
  = renamed st + skipped st + length (reached cancelled idx its)
  ∧ renamed st' ≤ renamed st + length (filter slated (reached cancelled idx its))
  ∧ length (logged st')
    = length (logged st)
      + (if log then length (filter slated (reached cancelled idx its)) else 0).
Proof.
  revert idx st. induction its as [|item its IH]; intros idx st; simpl.
  { intros [= <-]. simpl. destruct log; lia. }
  destruct (cancelled idx); [intros [= <-]; simpl; destruct log; lia|].
  destruct (apply_item_counts dry_run log item st) as (st1 & Hitem & Hc).
  rewrite Hitem. simpl. intros (Hsum & Hren & Hlog)%IH.
  apply apply_item_logged in Hitem as [Hl1 Hr1].
  rewrite filter_cons. cbn [length].
  destruct (decide (slated item)) as [Hsl|Hsl].
  - apply Is_true_true in Hsl. rewrite Hsl, andb_true_r in Hl1. cbn [length].
    destruct Hc as [[? ?]|[? ?]]; destruct log; lia.
  - apply Is_true_false in Hsl. rewrite Hsl, andb_false_r in Hl1.
    specialize (Hr1 Hsl).
    destruct Hc as [[? ?]|[? ?]]; destruct log; lia.
Qed.

Lemma reached_prefix cancelled idx (its : list PreviewItem) :
  reached cancelled idx its `prefix_of` its.
Proof.
  revert idx. induction its as [|it its IH]; intros idx; simpl; [done|].
  destruct (cancelled idx); [apply prefix_nil | by apply prefix_cons].
Qed.

End ApplyAccounts.

(** X21. In every run of the engine, dry or not and cancelled or not, the
    two counters add up to the number of items reached before the
    cancellation; no more items are counted as renamed than were selected
    with a target among them; and when a [log] is given it receives one
    line for each of those, whether the rename succeeded or failed, and
    none for the others. *)
Theorem apply_changes_accounts {FS : Type} `{FileSystem FS} (fs : FS)
    (its : list PreviewItem) (dry_run log : bool) (cancelled : nat → bool) :
  ∃ st,
    apply_changes fs its dry_run log cancelled = Some st
    ∧ reached cancelled 1 its `prefix_of` its
    ∧ renamed st + skipped st = length (reached cancelled 1 its)
    ∧ renamed st ≤ length (filter slated (reached cancelled 1 its))
    ∧ length (logged st)
      = (if log then length (filter slated (reached cancelled 1 its)) else 0).
Proof.
  unfold apply_changes.
  destruct (apply_loop_total dry_run log cancelled its 1
              (mkApply fs 0 0 [] [])) as [st Hrun].
  exists st. split; [done|]. split; [apply reached_prefix|].
  by apply apply_loop_accounts in Hrun.
Qed.

(** A rename that fails is logged and counted as skipped. *)
Example failed_rename_logged :
  (λ st, (renamed st, skipped st, logged st))
  <$> apply_changes (∅ : gset Path)
        [sample_item (mkPath [lit "papers"] (lit "new.pdf")) rename (lit "ready") true]
        false true (λ _, false)
  = Some (0, 1,
          [lit "[FAIL] 2020 - A Study of Widgets.pdf: No such file or directory"]).
Proof. vm_compute. reflexivity. Qed.

(** ** Command line: a whole run *)



Example main_sample_run :
  (λ o, match o with
        | CliDone final => Some (renamed final, skipped final, fs_ops final)
        | _ => None
        end)
  <$> @main ascii_db (gset Path) set_fs sample_host_papers
        {[mkPath [lit "home"; lit "user"; lit "papers"] (lit "scan.pdf")]}
        (mkArgs (Some (lit "papers")) false false false 2 140 (1 # 5) 20
           (lit "prefix") false [])
  = Some (Some (1, 0,
                [OpMkdir [lit "home"; lit "user"; lit "papers"];
                 OpExists (mkPath [lit "home"; lit "user"; lit "papers"]
                             (lit "2020 - A Study of Widgets.pdf"));
                 OpRename
                   (mkPath [lit "home"; lit "user"; lit "papers"] (lit "scan.pdf"))
                   (mkPath [lit "home"; lit "user"; lit "papers"]
                      (lit "2020 - A Study of Widgets.pdf"))])).
Proof. vm_compute. reflexivity. Qed.

(** ** Selection in the graphical front end *)

Lemma set_apply_same b it : apply it = b → set_apply b it = it.
Proof. destruct it. simpl. by intros ->. Qed.

Lemma set_apply_erase b it : set_apply false (set_apply b it) = set_apply false it.
Proof. done. Qed.

Lemma same_but_apply_map (f : PreviewItem → PreviewItem) its :
  (∀ it, set_apply false (f it) = set_apply false it) →
  same_but_apply its (f <$> its).
Proof.
  intros Hf. unfold same_but_apply. rewrite <- list_fmap_compose.
  apply list_fmap_ext. intros _ it _. simpl. by rewrite Hf.
Qed.

Lemma selection_ok_map (f : PreviewItem → PreviewItem) its :
  (∀ it, selection_ok it → selection_ok (f it)) →
  Forall selection_ok its → Forall selection_ok (f <$> its).
Proof. intros Hf Hall. apply Forall_fmap. eapply Forall_impl; [done|]. apply Hf. Qed.

Lemma unlocked_selection_ok b it : locked it = false → selection_ok (set_apply b it).
Proof.
  unfold locked, selection_ok. destruct it as [? ? ? ? ? ? s ? ?]. simpl.
  destruct s; try done; auto.
Qed.

Lemma toggle_apply_keeps sel its its' :
  _toggle_apply sel its = Some its' →
  same_but_apply its its'
  ∧ (Forall selection_ok its → Forall selection_ok its').
Proof.
  revert its. induction sel as [|idx sel IH]; intros its; simpl.
  { intros [= <-]. by split. }
  destruct (its !! idx) as [item|] eqn:Hidx; [|done]. simpl.
  intros [Hsame Hok]%IH. destruct (locked item) eqn:Hlock; [by split|].
  split.
  - unfold same_but_apply in *. rewrite <- Hsame, list_fmap_insert.
    symmetry. apply list_insert_id. by rewrite list_lookup_fmap, Hidx.
  - intros Hall. apply Hok. apply Forall_insert; [done|].
    by apply unlocked_selection_ok.
Qed.

Lemma select_keeps its s its' :
  select its s = Some its' →
  same_but_apply its its'
  ∧ (Forall selection_ok its → Forall selection_ok its').
Proof.
  destruct s as [| | |sel]; simpl; [| | |apply toggle_apply_keeps].
  - intros [= <-]. split.
    + apply same_but_apply_map. intros it. by destruct (locked it).
    + apply selection_ok_map. intros it Hit.
      destruct (locked it) eqn:Hl; [done | by apply unlocked_selection_ok].
  - intros [= <-]. split.
    + by apply same_but_apply_map.
    + apply selection_ok_map. by intros it _ [=].
  - intros [= <-]. split.
    + apply same_but_apply_map. intros it. by destruct (locked it).
    + apply selection_ok_map. intros it Hit.
      destruct (locked it) eqn:Hl; [done | by apply unlocked_selection_ok].
Qed.

Lemma selections_keep its ss its' :
  selections its ss = Some its' →
  same_but_apply its its'
  ∧ (Forall selection_ok its → Forall selection_ok its').
Proof.
  revert its. induction ss as [|s ss IH]; intros its; simpl.
  { intros [= <-]. by split. }
  destruct (select its s) as [its1|] eqn:Hs; [|done]. simpl.
  intros [Hsame2 Hok2]%IH. apply select_keeps in Hs as [Hsame1 Hok1].
  split; [|auto]. unfold same_but_apply in *. by rewrite Hsame1.
Qed.

(** X23. The selection buttons and the toggling of rows change nothing
    of the items but their [apply] flags, and they never set the flag of
    an item that is skipped, already well named or pending: if only items
    to rename or to move were selected before, the same holds afterwards,
    and every item handed to the engine is such an item and has a
    target. *)
Theorem selection_keeps_items (its its' : list PreviewItem)
    (ss : list Selection) :
  Forall selection_ok its →
  selections its ss = Some its' →
  same_but_apply its its'
  ∧ length its' = length its
  ∧ Forall selection_ok its'
  ∧ ∀ it, it ∈ to_apply its' →
      (status it = rename ∨ status it = move) ∧ is_Some (new_path it).
Proof.
  intros Hall [Hsame Hok]%selections_keep. specialize (Hok Hall).
  split_and!; [done | | done |].
  - unfold same_but_apply in Hsame.
    by rewrite <- (length_fmap (set_apply false) its'), <- Hsame, length_fmap.
  - intros it [Hsl Hit]%list_elem_of_filter. rewrite Forall_forall in Hok.
    unfold slated in Hsl. apply andb_prop_elim in Hsl as [Happly Hnp].
    split; [|by apply bool_decide_unpack in Hnp].
    apply (Hok it Hit). by apply Is_true_true.
Qed.

Lemma selection_keeps_items_witness :
  Forall selection_ok
    [sample_item sample_pdf ok (lit "already good name") false;
     sample_item (mkPath [lit "papers"] (lit "new.pdf")) rename (lit "ready") true]
  ∧ selections
      [sample_item sample_pdf ok (lit "already good name") false;
       sample_item (mkPath [lit "papers"] (lit "new.pdf")) rename (lit "ready") true]
      [SelectNone; Toggle [0; 1]; Invert; SelectAll]
    = Some
        [sample_item sample_pdf ok (lit "already good name") false;
         sample_item (mkPath [lit "papers"] (lit "new.pdf")) rename (lit "ready") true]
  ∧ same_but_apply
      [sample_item sample_pdf ok (lit "already good name") false;
       sample_item (mkPath [lit "papers"] (lit "new.pdf")) rename (lit "ready") true]
      [sample_item sample_pdf ok (lit "already good name") false;
       sample_item (mkPath [lit "papers"] (lit "new.pdf")) rename (lit "ready") true]
  ∧ length
      [sample_item sample_pdf ok (lit "already good name") false;
       sample_item (mkPath [lit "papers"] (lit "new.pdf")) rename (lit "ready") true]
    = length
        [sample_item sample_pdf ok (lit "already good name") false;
         sample_item (mkPath [lit "papers"] (lit "new.pdf")) rename (lit "ready") true]
  ∧ Forall selection_ok
      [sample_item sample_pdf ok (lit "already good name") false;
       sample_item (mkPath [lit "papers"] (lit "new.pdf")) rename (lit "ready") true]
  ∧ ∀ it,
      it ∈ to_apply
             [sample_item sample_pdf ok (lit "already good name") false;
              sample_item (mkPath [lit "papers"] (lit "new.pdf")) rename
                (lit "ready") true] →
      (status it = rename ∨ status it = move) ∧ is_Some (new_path it).
Proof.
  assert (Forall selection_ok
    [sample_item sample_pdf ok (lit "already good name") false;
     sample_item (mkPath [lit "papers"] (lit "new.pdf")) rename (lit "ready") true])
    as Hall.
  { constructor; [by intros [=]|]. constructor; [intros _; by left|]. constructor. }
  split; [exact Hall|]. split; [vm_compute; reflexivity|].
  apply (selection_keeps_items _ _ [SelectNone; Toggle [0; 1]; Invert; SelectAll]);
    [exact Hall | vm_compute; reflexivity].
Defined.

Lemma item_shape_slated it : item_shape it → slated it = negb (locked it).
Proof.
  intros (Hnp & Hnone & Happly & _). unfold slated, locked.
  destruct (status it) eqn:Hs.
  - destruct (apply it) eqn:Ha; [|done].
    destruct (proj1 Happly eq_refl) as [?|?]; done.
  - rewrite (proj2 Happly) by (by left). simpl.
    apply bool_decide_eq_true. apply Hnp. by left.
  - rewrite (proj2 Happly) by (by right). simpl.
    apply bool_decide_eq_true. apply Hnp. right. by left.
  - destruct (apply it) eqn:Ha; [|done].
    destruct (proj1 Happly eq_refl) as [?|?]; done.
  - destruct (apply it) eqn:Ha; [|done].
    destruct (proj1 Happly eq_refl) as [?|?]; done.
Qed.

Lemma item_shape_apply it : item_shape it → apply it = negb (locked it).
Proof.
  intros (_ & _ & Happly & _). unfold locked.
  destruct (status it) eqn:Hs.
  - destruct (apply it) eqn:Ha; [|done].
    destruct (proj1 Happly eq_refl) as [?|?]; done.
  - by rewrite (proj2 Happly) by (by left).
  - by rewrite (proj2 Happly) by (by right).
  - destruct (apply it) eqn:Ha; [|done].
    destruct (proj1 Happly eq_refl) as [?|?]; done.
  - destruct (apply it) eqn:Ha; [|done].
    destruct (proj1 Happly eq_refl) as [?|?]; done.
Qed.

Lemma invert_involutive its : _invert (_invert its) = its.
Proof.
  unfold _invert. rewrite <- list_fmap_compose.
  rewrite <- (list_fmap_id its) at 2. apply list_fmap_ext. intros _ it _. simpl.
  destruct (locked it) eqn:Hl; [by rewrite Hl|].
  assert (locked (set_apply (negb (apply it)) it) = false) as -> by done.
  destruct it as [? ? ? ? ? ? ? ? a]. simpl. by rewrite negb_involutive.
Qed.

(** X24. In a plan as the planner returns it everything that can be
    applied is selected: the items handed to the engine are those to
    rename or to move, select-all changes nothing, select-none followed by
    select-all gives the plan back, and select-none or inverting leaves
    nothing to hand to the engine.  On any list inverting twice gives the
    list back. *)
Theorem select_all_restores_plan `{UnicodeDB} (env : Env) (cfg : Config)
    (pdfs : list Path) :
  ∃ its,
    compute_preview env cfg pdfs = Some its
    ∧ to_apply its = filter (λ it, locked it = false) its
    ∧ _select_all its = its
    ∧ _select_all (_select_none its) = its
    ∧ _invert its = _select_none its
    ∧ to_apply (_select_none its) = []
    ∧ ∀ its0, _invert (_invert its0) = its0.
Proof.
  unfold compute_preview.
  destruct (preview_loop_total env cfg pdfs 1 plan_init) as [st Hrun].
  change (plan_run env cfg pdfs = Some st) in Hrun. rewrite Hrun.
  exists (items st). split; [done|].
  pose proof (plan_run_shape env cfg pdfs st Hrun) as Hshape.
  induction Hshape as [|it its Hit Hall IH].
  { split_and!; try done. apply invert_involutive. }
  destruct IH as (Hto & Hsel & Hback & Hinv & Hnone & _).
  pose proof (item_shape_slated it Hit) as Hsl.
  pose proof (item_shape_apply it Hit) as Hap.
  split_and!; [| | | | |apply invert_involutive].
  - unfold to_apply in *. rewrite !filter_cons, Hto.
    destruct (locked it); rewrite Hsl; simpl;
      repeat case_decide; done.
  - unfold _select_all in *. rewrite fmap_cons, Hsel. f_equal.
    destruct (locked it) eqn:Hl; [done|]. by apply set_apply_same.
  - unfold _select_all, _select_none in *. rewrite !fmap_cons, Hback. f_equal.
    assert (locked (set_apply false it) = locked it) as -> by done.
    destruct (locked it) eqn:Hl.
    + by apply set_apply_same.
    + simpl in Hap. destruct it as [? ? ? ? ? ? ? ? a]. simpl in *. by subst a.
  - unfold _invert, _select_none in *. rewrite !fmap_cons, Hinv. f_equal.
    destruct (locked it) eqn:Hl.
    + symmetry. by apply set_apply_same.
    + by rewrite Hap.
  - unfold to_apply, _select_none in *. rewrite fmap_cons, filter_cons, Hnone.
    by rewrite decide_False by (by intros []).
Qed.

Lemma select_locked its s its' :
  Forall (λ it, locked it = true ∧ apply it = false) its →
  select its s = Some its' → its' = its.
Proof.
  intros Hall. destruct s as [| | |sel]; simpl.
  - intros [= <-]. unfold _select_all. rewrite <- (list_fmap_id its) at 2.
    apply Forall_fmap_ext_1. eapply Forall_impl; [done|].
    by intros it [-> _].
  - intros [= <-]. unfold _select_none. rewrite <- (list_fmap_id its) at 2.
    apply Forall_fmap_ext_1. eapply Forall_impl; [done|].
    intros it [_ Ha]. by apply set_apply_same.
  - intros [= <-]. unfold _invert. rewrite <- (list_fmap_id its) at 2.
    apply Forall_fmap_ext_1. eapply Forall_impl; [done|].
    by intros it [-> _].
  - revert Hall. induction sel as [|idx sel IH]; intros Hall; simpl.
    { by intros [= <-]. }
    destruct (its !! idx) as [item|] eqn:Hidx; [|done]. simpl.
    rewrite Forall_forall in Hall.
    destruct (Hall item) as [-> _]; [by eapply list_elem_of_lookup_2|].
    apply IH. by apply Forall_forall.
Qed.

Lemma to_apply_unselected its :
  Forall (λ it, apply it = false) its → to_apply its = [].
Proof.
  unfold to_apply. induction 1 as [|it its Ha _ IH]; [done|].
  rewrite filter_cons, IH. unfold slated. rewrite Ha.
  by rewrite decide_False by (by intros []).
Qed.

(** X25. Files that are listed but not yet previewed cannot be selected:
    whatever buttons are pressed and rows toggled, the list stays as
    [_pending_items] built it, one pending item for each file in order,
    and nothing is handed to the engine. *)
Theorem pending_items_stay_unselected (pdfs : list Path) (ss : list Selection)
    (its' : list PreviewItem) :
  selections (_pending_items pdfs) ss = Some its' →
  its' = _pending_items pdfs
  ∧ to_apply its' = []
  ∧ pdf <$> its' = pdfs
  ∧ Forall (λ it, status it = pending ∧ new_path it = None) its'.
Proof.
  assert (Forall (λ it, locked it = true ∧ apply it = false)
            (_pending_items pdfs)) as Hall.
  { unfold _pending_items. apply Forall_fmap, Forall_true. by intros f. }
  assert (∀ its, Forall (λ it, locked it = true ∧ apply it = false) its →
            selections its ss = Some its' → its' = its) as Hfix.
  { induction ss as [|s ss IH]; intros its Hits; simpl; [by intros [= <-]|].
    destruct (select its s) as [its1|] eqn:Hs; [|done]. simpl.
    apply select_locked in Hs as ->; [|done]. by apply IH. }
  intros ->%Hfix; [|done]. split_and!; [done | | |].
  - apply to_apply_unselected. eapply Forall_impl; [exact Hall|].
    by intros it [_ ?].
  - unfold _pending_items. rewrite <- list_fmap_compose.
    rewrite <- (list_fmap_id pdfs) at 2. by apply list_fmap_ext.
  - unfold _pending_items. apply Forall_fmap, Forall_true. by intros f.
Qed.

Lemma pending_items_stay_unselected_witness :
  selections (_pending_items [sample_pdf]) [SelectAll; Toggle [0]; Invert]
  = Some (_pending_items [sample_pdf])
  ∧ _pending_items [sample_pdf] = _pending_items [sample_pdf]
  ∧ to_apply (_pending_items [sample_pdf]) = []
  ∧ pdf <$> _pending_items [sample_pdf] = [sample_pdf]
  ∧ Forall (λ it, status it = pending ∧ new_path it = None)
      (_pending_items [sample_pdf]).
Proof.
  split; [vm_compute; reflexivity|].
  apply (pending_items_stay_unselected [sample_pdf]
           [SelectAll; Toggle [0]; Invert] (_pending_items [sample_pdf])).
  vm_compute. reflexivity.
Defined.

(** ** A plan carried out *)

Lemma targets_cons it its :
  targets (it :: its)
  = match new_path it with Some np => np :: targets its | None => targets its end.
Proof. unfold targets. simpl. by destruct (new_path it). Qed.

(** On the set of existing paths, items with distinct files that exist
    and distinct targets that do not are renamed as planned. *)
Lemma apply_loop_exact log its idx (st st' : ApplyState (gset Path)) :
  NoDup (pdf <$> its) → NoDup (targets its) →
  (∀ it, it ∈ its → pdf it ∈ fs_now st) →
  (∀ np, np ∈ targets its → np ∉ fs_now st) →
  apply_loop false log (λ _, false) idx its st = Some st' →
  fs_now st'
  = list_to_set (targets (filter slated its))
    ∪ (fs_now st ∖ list_to_set (pdf <$> filter slated its))
  ∧ renamed st' = renamed st + length (filter slated its)
  ∧ skipped st' = skipped st + length (filter (λ it, slated it = false) its)
  ∧ fs_ops st' = fs_ops st ++ (filter slated its ≫= planned_ops)
  ∧ logged st'
    = logged st ++ (if log then ok_line <$> filter slated its else []).
Proof.
  revert idx st. induction its as [|item its IH]; intros idx st Hsrc Htgt Hin Hout.
  { simpl. intros [= <-]. rewrite !app_nil_r.
    split_and!; [|lia|lia|done|by destruct log; rewrite ?app_nil_r].
    apply set_eq. intros q.
    rewrite elem_of_union, elem_of_difference, !elem_of_empty. tauto. }
  rewrite fmap_cons in Hsrc. apply NoDup_cons in Hsrc as [Hsrc1 Hsrc2].
  assert (∀ it, it ∈ its → pdf it ≠ pdf item) as Hother.
  { intros it Hit Heq. apply Hsrc1. rewrite <- Heq.
    apply list_elem_of_fmap. by exists it. }
  assert (∀ x, x ∈ pdf <$> filter slated its → x ∈ fs_now st ∧ x ≠ pdf item)
    as Hsources.
  { intros x (it & -> & [_ Hit]%list_elem_of_filter)%list_elem_of_fmap.
    split; [by apply Hin, list_elem_of_further | by apply Hother]. }
  cbn [apply_loop]. rewrite !filter_cons.
  destruct (decide (slated item)) as [Hsl|Hsl].
  - apply Is_true_true in Hsl. pose proof Hsl as Hsl'. unfold slated in Hsl'.
    apply andb_prop in Hsl' as [Happly [np Ht]%bool_decide_eq_true].
    rewrite decide_False by (by rewrite Hsl).
    rewrite targets_cons, Ht in Htgt, Hout.
    apply NoDup_cons in Htgt as [Htgt1 Htgt2].
    assert (np ∉ fs_now st) as Hfree by apply Hout, list_elem_of_here.
    assert (pdf item ∈ fs_now st) as Hhere by apply Hin, list_elem_of_here.
    unfold apply_item. rewrite Ht, Happly. cbn [negb]. unfold move_item.
    cbn [fs_mkdir fs_exists fs_rename set_fs].
    rewrite bool_decide_eq_false_2 by done. cbn [mbind option_bind].
    cbv beta iota. rewrite decide_True by done. cbv beta iota.
    intros Hrest. apply IH in Hrest as (Hfs & Hren & Hskip & Hops & Hlog);
      [|done|done| |].
    2: { intros it Hit. cbn [fs_now]. apply elem_of_union_r, elem_of_difference.
         split; [by apply Hin, list_elem_of_further|].
         rewrite elem_of_singleton. by apply Hother. }
    2: { intros np' Hnp'. cbn [fs_now].
         rewrite elem_of_union, elem_of_difference, elem_of_singleton.
         intros [->|[Hex _]]; [done|].
         exact (Hout np' (list_elem_of_further _ _ _ Hnp') Hex). }
    cbn [fs_now renamed skipped fs_ops logged] in *.
    rewrite fmap_cons, targets_cons, Ht, !list_to_set_cons.
    split_and!.
    + rewrite Hfs. apply set_eq. intros q.
      rewrite !elem_of_union, !elem_of_difference, !elem_of_union,
        !elem_of_difference, !elem_of_singleton.
      split.
      * intros [?|[[->|[? ?]] ?]]; [tauto | tauto |]. right. split; [done|].
        by intros [?|?].
      * intros [[->|?]|[? Hn]]; [|tauto|].
        -- right. split; [by left|]. intros Hq%elem_of_list_to_set.
           apply Hsources in Hq as [? _]. done.
        -- right. split; [right; split; [done|]; intros ->; apply Hn; by left|].
           intros ?. apply Hn. by right.
    + cbn [length]. lia.
    + done.
    + rewrite Hops, <- !app_assoc. f_equal. cbn [mbind list_bind].
      unfold planned_ops at 2. rewrite Ht. done.
    + rewrite Hlog. unfold log_line. destruct log; [|done].
      rewrite fmap_cons, <- app_assoc. unfold ok_line at 2. by rewrite Ht.
  - apply Is_true_false in Hsl. rewrite decide_True by done.
    rewrite apply_item_not_slated by done. cbn [mbind option_bind].
    intros Hrest. apply IH in Hrest as (Hfs & Hren & Hskip & Hops & Hlog);
      [|done| | |].
    + cbn [fs_now renamed skipped fs_ops logged count_skipped] in *.
      split_and!; [done | done | cbn [length]; lia | done | done].
    + rewrite targets_cons in Htgt. destruct (new_path item); [|done].
      by apply NoDup_cons in Htgt as [_ ?].
    + intros it Hit. by apply Hin, list_elem_of_further.
    + intros np' Hnp'. apply Hout. rewrite targets_cons.
      destruct (new_path item); [by apply list_elem_of_further | done].
Qed.

(** X26. What the preview shows is what happens.  When the files of a
    run are distinct and exist, and the listings that the planner reads
    show every path that exists, then carrying out the plan on the set of
    existing paths renames every selected item onto exactly the target
    planned for it: for each of them the engine makes the directory, finds
    the target absent and renames, with no failure and no second choice of
    name; the files that exist afterwards are the planned targets and the
    files that were not selected; and no item of such a plan is found
    well named. *)
Theorem plan_is_carried_out `{UnicodeDB} (env : Env) (cfg : Config)
    (pdfs : list Path) (fs : gset Path) (log : bool) :
  NoDup pdfs →
  (∀ f, f ∈ pdfs → f ∈ fs) →
  (∀ p, p ∈ fs → listed env (parent p) (name p)) →
  ∃ its st,
    compute_preview env cfg pdfs = Some its
    ∧ apply_changes fs its false log (λ _, false) = Some st
    ∧ Forall (λ it, status it ≠ ok) its
    ∧ renamed st = length (to_apply its)
    ∧ skipped st = length (filter (λ it, slated it = false) its)
    ∧ fs_now st
      = list_to_set (targets (to_apply its))
        ∪ (fs ∖ list_to_set (pdf <$> to_apply its))
    ∧ fs_ops st = to_apply its ≫= planned_ops
    ∧ logged st = (if log then ok_line <$> to_apply its else []).
Proof.
  intros Hnd Hexist Hlisted. unfold compute_preview.
  destruct (preview_loop_total env cfg pdfs 1 plan_init) as [stp Hplan].
  change (plan_run env cfg pdfs = Some stp) in Hplan. rewrite Hplan.
  unfold apply_changes.
  destruct (apply_loop_total false log (λ _, false) (items stp) 1
              (mkApply fs 0 0 [] [])) as [st Hrun].
  exists (items stp), st. split; [done|]. split; [done|].
  destruct (plan_run_reserved env cfg pdfs stp Hplan) as (_ & Htargets & Hndt).
  pose proof (plan_run_placed env cfg pdfs stp Hplan) as Hplaced.
  pose proof (plan_run_files env cfg pdfs stp Hplan) as Hfiles.
  destruct (files_reached_prefix (cancel_is_set env) 1 pdfs) as [k Hk].
  rewrite <- Hfiles in Hk.
  assert (∀ it, it ∈ items stp → pdf it ∈ fs) as Hin.
  { intros it Hit. apply Hexist. rewrite Hk. apply elem_of_app. left.
    apply list_elem_of_fmap. by exists it. }
  assert (∀ np, np ∈ targets (items stp) → np ∉ fs) as Hout.
  { intros np [_ Hnl]%Htargets Hnp. by apply Hnl, Hlisted. }
  split.
  { apply Forall_forall. intros it Hit Hok.
    rewrite Forall_forall in Hplaced. specialize (Hplaced it Hit).
    unfold target_placed in Hplaced. rewrite Hok in Hplaced.
    destruct Hplaced as (Hnp & _).
    apply (Hout (pdf it)); [|by apply Hin].
    unfold targets. apply list_elem_of_omap. by exists it. }
  assert (NoDup (pdf <$> items stp)) as Hnds.
  { rewrite Hk in Hnd. by apply NoDup_app in Hnd as [? _]. }
  destruct (apply_loop_exact log (items stp) 1 (mkApply fs 0 0 [] []) st
              Hnds Hndt Hin Hout Hrun) as (Hfs & Hren & Hskip & Hops & Hlog).
  cbn [fs_now renamed skipped fs_ops logged] in *.
  split_and!; [done | done | done | done |].
  rewrite Hlog. by destruct log.
Qed.

Lemma plan_is_carried_out_witness :
  NoDup [sample_pdf]
  ∧ ∃ its st,
      @compute_preview ascii_db
        (sample_env (Some [lit "2020 - A Study of Widgets.pdf"])) sample_cfg
        [sample_pdf]
      = Some its
      ∧ apply_changes ({[sample_pdf]} : gset Path) its false true (λ _, false)
        = Some st
      ∧ Forall (λ it, status it ≠ ok) its
      ∧ renamed st = length (to_apply its)
      ∧ skipped st = length (filter (λ it, slated it = false) its)
      ∧ fs_now st
        = list_to_set (targets (to_apply its))
          ∪ (({[sample_pdf]} : gset Path) ∖ list_to_set (pdf <$> to_apply its))
      ∧ fs_ops st = to_apply its ≫= planned_ops
      ∧ logged st = (if true then ok_line <$> to_apply its else []).
Proof.
  assert (NoDup [sample_pdf]) as Hnd.
  { apply NoDup_singleton. }
  split; [exact Hnd|].
  apply (@plan_is_carried_out ascii_db
           (sample_env (Some [lit "2020 - A Study of Widgets.pdf"])) sample_cfg
           [sample_pdf] {[sample_pdf]} true).
  - exact Hnd.
  - intros f Hf. apply list_elem_of_singleton in Hf as ->.
    by apply elem_of_singleton.
  - intros p Hp. apply elem_of_singleton in Hp as ->.
    exists [lit "2020 - A Study of Widgets.pdf"].
    split; [reflexivity | apply list_elem_of_here].
Defined.

Example plan_carried_out_sample :
  (λ st, (renamed st, skipped st, fs_now st, logged st))
  <$> (@compute_preview ascii_db
         (sample_env (Some [lit "2020 - A Study of Widgets.pdf"])) sample_cfg
         [sample_pdf]
       ≫= λ its, apply_changes ({[sample_pdf]} : gset Path) its false true
                   (λ _, false))
  = Some (1, 0,
          {[mkPath [lit "papers"] (lit "2020 - A Study of Widgets (2).pdf")]},
          [lit "[OK] 2020 - A Study of Widgets.pdf -> 2020 - A Study of Widgets (2).pdf"]).
Proof. vm_compute. reflexivity. Qed.
